(** * The process census and event-persistence engine of veda-anchor-ui

    A shallow embedding of the Go monitor loop
    ([wails-app/internal/app/logging.go], both variants kept in the
    repository), of the classification rules
    ([wails-app/internal/platform/app_filter]) and of the single-writer
    persistence queue ([StartDatabaseWriter] / [EnqueueWrite]), followed
    by the properties of the specification that concern them. *)

From Stdlib Require Import ZArith String Ascii List Lia.
From stdpp Require Import base option list gmap strings fin_maps.

Local Open Scope string_scope.
Local Open Scope list_scope.
Local Open Scope Z_scope.

(** ** Go's [strings] package, on byte strings

    A Go string is a byte sequence; Rocq's [string] is a list of bytes
    ([ascii]).  Case mapping is modelled on the ASCII letters, which is what
    Go does on every byte below 0x80. *)
Module GoStrings.

Definition lower_byte (c : ascii) : ascii :=
  let n := nat_of_ascii c in
  if ((65 <=? n)%nat && (n <=? 90)%nat)%bool then ascii_of_nat (n + 32) else c.

Fixpoint ToLower (s : string) : string :=
  match s with
  | EmptyString => EmptyString
  | String c s' => String (lower_byte c) (ToLower s')
  end.

Fixpoint HasPrefix (s prefix : string) : bool :=
  match prefix, s with
  | EmptyString, _ => true
  | String _ _, EmptyString => false
  | String a prefix', String b s' => Ascii.eqb a b && HasPrefix s' prefix'
  end.

Fixpoint Contains (s substr : string) : bool :=
  HasPrefix s substr ||
  match s with
  | EmptyString => false
  | String _ s' => Contains s' substr
  end.

Fixpoint HasSuffix (s suffix : string) : bool :=
  String.eqb s suffix ||
  match s with
  | EmptyString => false
  | String _ s' => HasSuffix s' suffix
  end.

Definition EqualFold (s t : string) : bool :=
  String.eqb (ToLower s) (ToLower t).

End GoStrings.

(** ** Processes and the operating system's answers

    A [Process] is one element of the slice returned by
    [process.Processes()]: its identifier and what its methods answer
    during the tick ([None] stands for a non-nil [error]; a method called
    twice on one process during a tick answers the same).  [Parent] is
    [None] when [p.Parent()] fails, [Some None] when the parent is found but
    its [Name()] fails. *)
Record Process := {
  Pid : Z;                          (* int32 *)
  Name : option string;             (* p.Name() *)
  Exe : option string;              (* p.Exe() *)
  Parent : option (option string)   (* p.Parent(), then parent.Name() *)
}.

(** The OS queries of [types.Platform] that classification consults, as
    they answer during one tick. *)
Record Platform := {
  HasVisibleWindow : Z → bool;            (* window.HasVisibleWindow(pid) *)
  GetProcessLevel : Z → option Z;         (* integrity.GetProcessLevel(pid) *)
  GetProductName : string → option string (* executable.GetProductName(path) *)
}.

(** What the [select] of the monitor goroutine receives: a tick of the
    ticker, with the clock, the OS answers and the result of
    [process.Processes()] ([None] for an error), or the reset signal. *)
Inductive Event :=
| Tick (now : Z) (os : Platform) (procs : option (list Process))
| Reset.

(** [uint32(proc.Pid)]: conversion of an int32 to uint32. *)
Definition uint32 (z : Z) : Z := z mod 2 ^ 32.

(** Modelled from the spec: [integrity.SystemRID], a constant of package
    [integrity], is the "system" tier of the integrity scale (spec, 4.2 rule
    3); [platform/types/types.go] gives that tier as
    [IntegritySystem = 0x4000]. *)
Definition SystemRID : Z := 0x4000.

(** ** Classification: package [app_filter]

    The package has one implementation per build target; the monitor is
    written against the pair of functions. *)
Module app_filter.

Record AppFilter := {
  ShouldExclude : Platform → string → option Process → bool;
  ShouldTrack : Platform → string → option Process → bool
}.

End app_filter.

Module rules_windows.
Import GoStrings.

Definition ShouldExclude (os : Platform) (exePath : string) (proc : option Process) : bool :=
  let exePathLower := ToLower exePath in
  if Contains exePathLower "procguard.exe" then true
  else if HasSuffix exePathLower "conhost.exe" then true
  else if Contains exePathLower "\windows\system32\"
          || Contains exePathLower "\windows\syswow64\" then true
  else if match GetProductName os exePath with
          | Some productName => Contains productName "Microsoft® Windows® Operating System"
          | None => false
          end then true
  else match proc with
       | Some p =>
           match GetProcessLevel os (uint32 (Pid p)) with
           | Some il => bool_decide (SystemRID ≤ il)
           | None => false
           end
       | None => false
       end.

Definition parentIsExplorer (p : Process) : bool :=
  match Parent p with
  | Some (Some parentName) => EqualFold parentName "explorer.exe"
  | _ => false
  end.

Definition ShouldTrack (os : Platform) (exePath : string) (proc : option Process) : bool :=
  match proc with
  | None => false
  | Some p =>
      match Name p with
      | None => false
      | Some name =>
          let nameLower := ToLower name in
          if String.eqb nameLower "cmd.exe" || String.eqb nameLower "powershell.exe"
             || String.eqb nameLower "pwsh.exe"
          then parentIsExplorer p
          else if negb (HasVisibleWindow os (uint32 (Pid p))) then false
          else if parentIsExplorer p then true
          else true
      end
  end.

Definition rules : app_filter.AppFilter :=
  {| app_filter.ShouldExclude := ShouldExclude; app_filter.ShouldTrack := ShouldTrack |}.

End rules_windows.

Module rules_linux.
Import GoStrings.

Definition ShouldExclude (os : Platform) (exePath : string) (proc : option Process) : bool :=
  let exePathLower := ToLower exePath in
  if Contains exePathLower "procguard" then true else false.

Definition ShouldTrack (os : Platform) (exePath : string) (proc : option Process) : bool :=
  true.

Definition rules : app_filter.AppFilter :=
  {| app_filter.ShouldExclude := ShouldExclude; app_filter.ShouldTrack := ShouldTrack |}.

End rules_linux.

(** ** Buffered channels

    A Go channel made with [make(chan T, cap)] holds at most [cap] values.
    A send on a channel whose buffer is full does not return: the sender
    waits until a receiver has taken a value. *)
Module Chan.

Inductive SendResult (A : Type) :=
| Sent (buf' : list A)
| Blocked.
Arguments Sent {A} buf'.
Arguments Blocked {A}.

Definition send {A} (cap : nat) (buf : list A) (x : A) : SendResult A :=
  if decide (length buf < cap)%nat then Sent (buf ++ [x]) else Blocked.

Definition recv {A} (buf : list A) : option (A * list A) :=
  match buf with
  | [] => None
  | x :: buf' => Some (x, buf')
  end.

End Chan.

(** ** The write queue and the store: package [data]

    [writeCh] is a channel of capacity 100 with one receiver,
    [StartDatabaseWriter].  The monitor's sends are kept as the list of
    requests in the order of the sends: a send on the full channel waits for
    the writer and then appends, so the order of the requests is the order
    of the [EnqueueWrite] calls. *)
Module data.

Inductive Arg :=
| AInt (z : Z)
| AStr (s : string).

Record WriteRequest := {
  Query : string;
  Args : list Arg
}.

Definition writeChCap : nat := 100.

Definition EnqueueWrite (query : string) (args : list Arg)
  (writeCh : list WriteRequest) : list WriteRequest :=
  writeCh ++ [{| Query := query; Args := args |}].

(** The two statements the monitor sends. *)
Definition updateEndSQL : string :=
  "UPDATE app_events SET end_time = ? WHERE pid = ? AND end_time IS NULL".

Definition insertSQL : string :=
  "INSERT INTO app_events (process_name, pid, parent_process_name, exe_path, start_time) VALUES (?, ?, ?, ?, ?)".

(** Modelled from the spec: the table [app_events], whose schema
    ([schema.AppSchema]) is given by the spec only (section 6: process_name,
    pid, parent_process_name, exe_path, start_time, nullable end_time).  The
    rows are kept in insertion order; [end_time = None] is SQL's NULL. *)
Record AppEvent := {
  process_name : string;
  pid : Z;
  parent_process_name : string;
  exe_path : string;
  start_time : Z;
  end_time : option Z
}.

Definition is_open (p : Z) (r : AppEvent) : bool :=
  bool_decide (pid r = p) && bool_decide (end_time r = None).

Definition close_row (p t : Z) (r : AppEvent) : AppEvent :=
  if is_open p r
  then {| process_name := process_name r; pid := pid r;
          parent_process_name := parent_process_name r;
          exe_path := exe_path r; start_time := start_time r;
          end_time := Some t |}
  else r.

(** What the store does with a statement, by the meaning of the SQL text:
    the UPDATE sets [end_time] on every row of that pid whose [end_time] is
    NULL; the INSERT appends a row with a NULL [end_time].  Any other
    statement or parameter list is an error. *)
Definition sql_exec (db : list AppEvent) (req : WriteRequest) : option (list AppEvent) :=
  if String.eqb (Query req) updateEndSQL then
    match Args req with
    | [AInt t; AInt p] => Some (map (close_row p t) db)
    | _ => None
    end
  else if String.eqb (Query req) insertSQL then
    match Args req with
    | [AStr name; AInt p; AStr parentName; AStr exePath; AInt t] =>
        Some (db ++ [{| process_name := name; pid := p;
                        parent_process_name := parentName;
                        exe_path := exePath; start_time := t;
                        end_time := None |}])
    | _ => None
    end
  else None.

(** [db.Exec(req.Query, req.Args...)]: [fault] is an execution error that
    the environment injects (locked or unavailable database); a failed
    statement leaves the table as it was. *)
Definition Exec (fault : option string) (db : list AppEvent) (req : WriteRequest)
  : list AppEvent + string :=
  match fault with
  | Some e => inr e
  | None =>
      match sql_exec db req with
      | Some db' => inl db'
      | None => inr "SQL logic error"
      end
  end.

(** The state of the writer goroutine: the table, the lines written with
    [log.Printf], and the requests it has received so far (kept to state
    what the loop does with each request). *)
Record Writer := {
  db : list AppEvent;
  errlog : list string;
  received : list WriteRequest
}.

(** One iteration of [for req := range writeCh]; [faults n] is the fault
    injected into the n-th call of [db.Exec]. *)
Definition writerStep (faults : nat → option string) (w : Writer) (req : WriteRequest) : Writer :=
  match Exec (faults (length (received w))) (db w) req with
  | inl db' =>
      {| db := db'; errlog := errlog w; received := received w ++ [req] |}
  | inr e =>
      {| db := db w;
         errlog := errlog w ++ ["[ERROR] Failed to execute write request: " +:+ e];
         received := received w ++ [req] |}
  end.

Definition StartDatabaseWriter (faults : nat → option string) (w : Writer)
  (writeCh : list WriteRequest) : Writer :=
  foldl (writerStep faults) w writeCh.

(** [SELECT pid, process_name FROM app_events WHERE end_time IS NULL]:
    [None] when [db.Query] fails; a row is [None] when [rows.Scan] fails. *)
Definition select_open (db : list AppEvent) : list (option (Z * string)) :=
  map (λ r, Some (pid r, process_name r))
      (List.filter (λ r, bool_decide (end_time r = None)) db).

End data.

(** ** The monitor loop, reference-counting variant
    ([logging.go], first file of that name)

    Each function takes and returns the monitor's view of the world: the
    [loggerState] behind the mutex and the write queue it sends to.
    [time.Now().Unix()] is an input of the event that triggers the
    function ([now]); log lines of [appLogger] are not part of the state.
    The counters are Go [int]s; a counter moves by one per seeded row and
    per process entering or leaving the ledger, which keeps it far from the
    bounds of a 64-bit [int]: it is kept as an unbounded integer. *)
Module RefCount.
Import GoStrings data.

Record loggerState := {
  runningProcs : gmap Z string;      (* PID -> lowercase process name *)
  runningAppCounts : gmap string Z   (* lowercase process name -> instance count *)
}.

Record Monitor := {
  state : loggerState;
  writeCh : list WriteRequest
}.

(** Reading a Go map at a key it does not hold gives the zero value. *)
Definition countOf (m : gmap string Z) (k : string) : Z := default 0 (m !! k).

Definition member (m : gmap Z bool) (k : Z) : bool := default false (m !! k).

(** [resetLoggerCh = make(chan struct{}, 1)] and the send on it. *)
Definition resetLoggerChCap : nat := 1.

Definition ResetLoggedApps (resetLoggerCh : list unit) : Chan.SendResult unit :=
  Chan.send resetLoggerChCap resetLoggerCh tt.

(** Body of the loop of [logEndedProcesses], for one entry of
    [state.runningProcs]. *)
Definition endProcess (now : Z) (currentPids : gmap Z bool) (m : Monitor)
  (entry : Z * string) : Monitor :=
  let '(pid, nameLower) := entry in
  if negb (member currentPids pid) then
    let ch := EnqueueWrite updateEndSQL [AInt now; AInt pid] (writeCh m) in
    let procs := delete pid (runningProcs (state m)) in
    let counts := runningAppCounts (state m) in
    let counts := <[nameLower := countOf counts nameLower - 1]> counts in
    let counts :=
      if bool_decide (countOf counts nameLower ≤ 0) then delete nameLower counts
      else counts in
    {| state := {| runningProcs := procs; runningAppCounts := counts |};
       writeCh := ch |}
  else m.

(** [for pid, nameLower := range state.runningProcs]: every entry the map
    holds when the loop starts is visited once (the body deletes the entry
    it visits only).  Go leaves the order open; [endedIn] is the loop for a
    given order, [logEndedProcesses] takes the order of [map_to_list]. *)
Definition endedIn (now : Z) (currentPids : gmap Z bool)
  (order : list (Z * string)) (m : Monitor) : Monitor :=
  foldl (endProcess now currentPids) m order.

Definition logEndedProcesses (now : Z) (currentPids : gmap Z bool) (m : Monitor) : Monitor :=
  endedIn now currentPids (map_to_list (runningProcs (state m))) m.

Definition parentNameOf (p : Process) : string :=
  match Parent p with
  | Some (Some parentName) => parentName
  | _ => ""
  end.

(** Body of the loop of [logNewProcesses]. *)
Definition newProcess (F : app_filter.AppFilter) (now : Z) (os : Platform)
  (m : Monitor) (p : Process) : Monitor :=
  let st := state m in
  match runningProcs st !! Pid p with
  | Some _ => m
  | None =>
      match Name p with
      | None => m
      | Some name =>
          if String.eqb name "" then m
          else
            let nameLower := ToLower name in
            match Exe p with
            | None => m
            | Some exePath =>
                if app_filter.ShouldExclude F os exePath (Some p) then
                  {| state := {| runningProcs := <[Pid p := nameLower]> (runningProcs st);
                                 runningAppCounts := runningAppCounts st |};
                     writeCh := writeCh m |}
                else
                  let isAlreadyLogged :=
                    bool_decide (0 < countOf (runningAppCounts st) nameLower) in
                  if isAlreadyLogged then
                    {| state := {| runningProcs := <[Pid p := nameLower]> (runningProcs st);
                                   runningAppCounts :=
                                     <[nameLower := countOf (runningAppCounts st) nameLower + 1]>
                                       (runningAppCounts st) |};
                       writeCh := writeCh m |}
                  else if negb (app_filter.ShouldTrack F os exePath (Some p)) then m
                  else
                    let parentName := parentNameOf p in
                    let ch :=
                      EnqueueWrite insertSQL
                        [AStr name; AInt (Pid p); AStr parentName; AStr exePath; AInt now]
                        (writeCh m) in
                    {| state := {| runningProcs := <[Pid p := nameLower]> (runningProcs st);
                                   runningAppCounts :=
                                     <[nameLower := countOf (runningAppCounts st) nameLower + 1]>
                                       (runningAppCounts st) |};
                       writeCh := ch |}
            end
      end
  end.

Definition logNewProcesses (F : app_filter.AppFilter) (now : Z) (os : Platform)
  (procs : list Process) (m : Monitor) : Monitor :=
  foldl (newProcess F now os) m procs.

(** Body of [for rows.Next()] in [initializeRunningProcs]. *)
Definition seedRow (PidExists : Z → bool) (now : Z) (m : Monitor)
  (row : option (Z * string)) : Monitor :=
  match row with
  | None => m
  | Some (pid, name) =>
      if PidExists pid then
        let nameLower := ToLower name in
        {| state := {| runningProcs := <[pid := nameLower]> (runningProcs (state m));
                       runningAppCounts :=
                         <[nameLower := countOf (runningAppCounts (state m)) nameLower + 1]>
                           (runningAppCounts (state m)) |};
           writeCh := writeCh m |}
      else
        {| state := state m;
           writeCh := EnqueueWrite updateEndSQL [AInt now; AInt pid] (writeCh m) |}
  end.

(** [rows] is what [db.Query] returned: [None] for an error. *)
Definition initializeRunningProcs (PidExists : Z → bool) (now : Z)
  (rows : option (list (option (Z * string)))) (m : Monitor) : Monitor :=
  match rows with
  | None => m
  | Some rows => foldl (seedRow PidExists now) m rows
  end.

Definition currentPidsOf (procs : list Process) : gmap Z bool :=
  foldl (λ cur p, <[Pid p := true]> cur) ∅ procs.

Definition onTick (F : app_filter.AppFilter) (now : Z) (os : Platform)
  (procs : option (list Process)) (m : Monitor) : Monitor :=
  match procs with
  | None => m
  | Some procs =>
      logNewProcesses F now os procs (logEndedProcesses now (currentPidsOf procs) m)
  end.

Definition onReset (m : Monitor) : Monitor :=
  {| state := {| runningProcs := ∅; runningAppCounts := ∅ |};
     writeCh := writeCh m |}.

Definition handle (F : app_filter.AppFilter) (m : Monitor) (e : Event) : Monitor :=
  match e with
  | Tick now os procs => onTick F now os procs m
  | Reset => onReset m
  end.

Definition loop (F : app_filter.AppFilter) (m : Monitor) (events : list Event) : Monitor :=
  foldl (handle F) m events.

Definition fresh (writeCh : list WriteRequest) : Monitor :=
  {| state := {| runningProcs := ∅; runningAppCounts := ∅ |}; writeCh := writeCh |}.

(** The goroutine of [StartProcessEventLogger]: seeding, then the loop over
    the events the [select] receives. *)
Definition StartProcessEventLogger (F : app_filter.AppFilter)
  (PidExists : Z → bool) (now : Z) (rows : option (list (option (Z * string))))
  (events : list Event) : Monitor :=
  loop F (initializeRunningProcs PidExists now rows (fresh [])) events.

(** The [case <-resetLoggerCh] of the select, with the channel. *)
Definition recvReset (m : Monitor) (resetLoggerCh : list unit) : option (Monitor * list unit) :=
  match Chan.recv resetLoggerCh with
  | Some (_, buf') => Some (onReset m, buf')
  | None => None
  end.

End RefCount.

(** ** The monitor loop, boolean-map variant
    ([logging.go], second file of that name) *)
Module BoolMap.
Import GoStrings data.

(** [runningProcs] is a local of the goroutine, [loggedApps] a global. *)
Record Monitor := {
  runningProcs : gmap Z bool;
  loggedApps : gmap string bool;
  writeCh : list WriteRequest
}.

Definition member {K} `{Countable K} (m : gmap K bool) (k : K) : bool :=
  default false (m !! k).

Definition endProcess (now : Z) (currentProcs : gmap Z bool) (m : Monitor)
  (pid : Z) : Monitor :=
  if negb (member currentProcs pid) then
    {| runningProcs := delete pid (runningProcs m);
       loggedApps := loggedApps m;
       writeCh := EnqueueWrite updateEndSQL [AInt now; AInt pid] (writeCh m) |}
  else m.

Definition logEndedProcesses (now : Z) (currentProcs : gmap Z bool) (m : Monitor) : Monitor :=
  foldl (endProcess now currentProcs) m (map fst (map_to_list (runningProcs m))).

Definition shouldLogProcess (F : app_filter.AppFilter) (os : Platform)
  (p : Process) (loggedApps : gmap string bool) : bool * gmap string bool :=
  match Name p with
  | None => (false, loggedApps)
  | Some name =>
      if String.eqb name "" then (false, loggedApps)
      else
        let nameLower := ToLower name in
        if member loggedApps nameLower then (false, loggedApps)
        else
          match Exe p with
          | None => (false, loggedApps)
          | Some exePath =>
              if app_filter.ShouldExclude F os exePath (Some p) then (false, loggedApps)
              else if negb (app_filter.ShouldTrack F os exePath (Some p)) then (false, loggedApps)
              else (true, <[nameLower := true]> loggedApps)
          end
  end.

Definition parentNameOf (p : Process) : string :=
  match Parent p with
  | Some (Some parentName) => parentName
  | _ => ""
  end.

Definition newProcess (F : app_filter.AppFilter) (now : Z) (os : Platform)
  (m : Monitor) (p : Process) : Monitor :=
  if negb (member (runningProcs m) (Pid p)) then
    let '(ok, logged) := shouldLogProcess F os p (loggedApps m) in
    if ok then
      let name := default "" (Name p) in
      let parentName := parentNameOf p in
      let exePath := default "" (Exe p) in
      {| runningProcs := <[Pid p := true]> (runningProcs m);
         loggedApps := logged;
         writeCh :=
           EnqueueWrite insertSQL
             [AStr name; AInt (Pid p); AStr parentName; AStr exePath; AInt now]
             (writeCh m) |}
    else
      {| runningProcs := runningProcs m; loggedApps := logged; writeCh := writeCh m |}
  else m.

Definition logNewProcesses (F : app_filter.AppFilter) (now : Z) (os : Platform)
  (procs : list Process) (m : Monitor) : Monitor :=
  foldl (newProcess F now os) m procs.

Definition seedRow (PidExists : Z → bool) (now : Z) (m : Monitor)
  (row : option Z) : Monitor :=
  match row with
  | None => m
  | Some pid =>
      if PidExists pid then
        {| runningProcs := <[pid := true]> (runningProcs m);
           loggedApps := loggedApps m; writeCh := writeCh m |}
      else
        {| runningProcs := runningProcs m; loggedApps := loggedApps m;
           writeCh := EnqueueWrite updateEndSQL [AInt now; AInt pid] (writeCh m) |}
  end.

Definition initializeRunningProcs (PidExists : Z → bool) (now : Z)
  (rows : option (list (option Z))) (m : Monitor) : Monitor :=
  match rows with
  | None => m
  | Some rows => foldl (seedRow PidExists now) m rows
  end.

Definition currentProcsOf (procs : list Process) : gmap Z bool :=
  foldl (λ cur p, <[Pid p := true]> cur) ∅ procs.

Definition onTick (F : app_filter.AppFilter) (now : Z) (os : Platform)
  (procs : option (list Process)) (m : Monitor) : Monitor :=
  match procs with
  | None => m
  | Some procs =>
      logNewProcesses F now os procs (logEndedProcesses now (currentProcsOf procs) m)
  end.

Definition onReset (m : Monitor) : Monitor :=
  {| runningProcs := ∅; loggedApps := ∅; writeCh := writeCh m |}.

Definition handle (F : app_filter.AppFilter) (m : Monitor) (e : Event) : Monitor :=
  match e with
  | Tick now os procs => onTick F now os procs m
  | Reset => onReset m
  end.

Definition loop (F : app_filter.AppFilter) (m : Monitor) (events : list Event) : Monitor :=
  foldl (handle F) m events.

Definition fresh (writeCh : list WriteRequest) : Monitor :=
  {| runningProcs := ∅; loggedApps := ∅; writeCh := writeCh |}.

Definition StartProcessEventLogger (F : app_filter.AppFilter)
  (PidExists : Z → bool) (now : Z) (rows : option (list (option Z)))
  (events : list Event) : Monitor :=
  loop F (initializeRunningProcs PidExists now rows (fresh [])) events.

End BoolMap.

(** ** The two goroutines together

    The monitor (reference-counting variant) and the writer share the
    channel only: [writeCh] of the monitor is what has been sent and not yet
    received.  An [Action] is one step of either goroutine.  The monitor
    never reads the channel or the table after startup and the writer takes
    requests from the front only, so a receive that happens in the middle of
    a tick gives the same table as one placed before or after the tick. *)
Module System.
Import data.

Record System := {
  monitor : RefCount.Monitor;
  writer : Writer
}.

Inductive Action :=
| Select (e : Event)
| WriterRecv.

Definition act (F : app_filter.AppFilter) (faults : nat → option string)
  (s : System) (a : Action) : System :=
  match a with
  | Select e => {| monitor := RefCount.handle F (monitor s) e; writer := writer s |}
  | WriterRecv =>
      match RefCount.writeCh (monitor s) with
      | [] => s
      | req :: ch' =>
          {| monitor := {| RefCount.state := RefCount.state (monitor s);
                           RefCount.writeCh := ch' |};
             writer := writerStep faults (writer s) req |}
      end
  end.

Definition exec (F : app_filter.AppFilter) (faults : nat → option string)
  (s : System) (actions : list Action) : System :=
  foldl (act F faults) s actions.

(** Startup on the table [db0]: [InitDB] starts the writer, the monitor
    goroutine seeds its ledger from the open rows. *)
Definition boot (PidExists : Z → bool) (now : Z) (db0 : list AppEvent) : System :=
  {| monitor :=
       RefCount.initializeRunningProcs PidExists now (Some (select_open db0))
         (RefCount.fresh []);
     writer := {| db := db0; errlog := []; received := [] |} |}.

End System.

(** ** Vocabulary of the properties *)

Import GoStrings data.

Definition updateEnd (now pid : Z) : WriteRequest :=
  {| Query := updateEndSQL; Args := [AInt now; AInt pid] |}.

Definition insertEvent (name : string) (pid : Z) (parentName exePath : string) (now : Z)
  : WriteRequest :=
  {| Query := insertSQL;
     Args := [AStr name; AInt pid; AStr parentName; AStr exePath; AInt now] |}.

Definition is_update (w : WriteRequest) : bool := String.eqb (Query w) updateEndSQL.

Definition is_insert (w : WriteRequest) : bool := String.eqb (Query w) insertSQL.

(** An AppEvent insert for process identifier [i]. *)
Definition is_insert_for (i : Z) (w : WriteRequest) : bool :=
  is_insert w &&
  match Args w with
  | _ :: AInt p :: _ => bool_decide (p = i)
  | _ => false
  end.

(** Number of ledger entries recorded under a name. *)
Definition entriesOf (procs : gmap Z string) (name : string) : nat :=
  length (List.filter (λ e, String.eqb (snd e) name) (map_to_list procs)).

(** Number of rows of a process identifier whose [end_time] is NULL. *)
Definition open_count (i : Z) (db : list AppEvent) : nat :=
  length (List.filter (is_open i) db).

Definition open_rows_unique (db : list AppEvent) : Prop :=
  ∀ i, (open_count i db ≤ 1)%nat.

(** The path test of rule 3 of [rules_windows.ShouldExclude]. *)
Definition under_system_dir (exePath : string) : bool :=
  Contains (ToLower exePath) "\windows\system32\"
  || Contains (ToLower exePath) "\windows\syswow64\".

(** A process that passes classification: name and path readable, not
    excluded, trackable. *)
Definition qualifies (F : app_filter.AppFilter) (os : Platform) (p : Process) : bool :=
  match Name p, Exe p with
  | Some name, Some exePath =>
      negb (String.eqb name "")
      && negb (app_filter.ShouldExclude F os exePath (Some p))
      && app_filter.ShouldTrack F os exePath (Some p)
  | _, _ => false
  end.

Definition insertOf (now : Z) (p : Process) : WriteRequest :=
  insertEvent (default "" (Name p)) (Pid p) (RefCount.parentNameOf p)
    (default "" (Exe p)) now.

Definition lowerName (p : Process) : option string := ToLower <$> Name p.

Import RefCount.

(** The end-writes of a pass of [logEndedProcesses] over [order]. *)
Definition endWrites (now : Z) (currentPids : gmap Z bool) (order : list (Z * string))
  : list WriteRequest :=
  map (λ e, updateEnd now (fst e))
      (List.filter (λ e, negb (member currentPids (fst e))) order).

Definition mkMonitor (procs : gmap Z string) (counts : gmap string Z)
  (ch : list WriteRequest) : Monitor :=
  {| state := {| runningProcs := procs; runningAppCounts := counts |}; writeCh := ch |}.

(** The four outcomes of the body of [logNewProcesses] for a process [p]:
    skipped (already in the ledger, unreadable, or not trackable yet),
    recorded as excluded, counted as one more instance, or logged. *)
Inductive newProcess_outcome (F : app_filter.AppFilter) (now : Z) (os : Platform)
  (m : Monitor) (p : Process) : Monitor → Prop :=
| np_skipped : newProcess_outcome F now os m p m
| np_excluded name exePath :
    runningProcs (state m) !! Pid p = None →
    Name p = Some name → Exe p = Some exePath →
    app_filter.ShouldExclude F os exePath (Some p) = true →
    newProcess_outcome F now os m p
      (mkMonitor (<[Pid p := ToLower name]> (runningProcs (state m)))
         (runningAppCounts (state m)) (writeCh m))
| np_counted name exePath :
    runningProcs (state m) !! Pid p = None →
    Name p = Some name → Exe p = Some exePath →
    app_filter.ShouldExclude F os exePath (Some p) = false →
    0 < countOf (runningAppCounts (state m)) (ToLower name) →
    newProcess_outcome F now os m p
      (mkMonitor (<[Pid p := ToLower name]> (runningProcs (state m)))
         (<[ToLower name := countOf (runningAppCounts (state m)) (ToLower name) + 1]>
            (runningAppCounts (state m)))
         (writeCh m))
| np_logged name exePath :
    runningProcs (state m) !! Pid p = None →
    Name p = Some name → name ≠ "" → Exe p = Some exePath →
    app_filter.ShouldExclude F os exePath (Some p) = false →
    countOf (runningAppCounts (state m)) (ToLower name) ≤ 0 →
    app_filter.ShouldTrack F os exePath (Some p) = true →
    newProcess_outcome F now os m p
      (mkMonitor (<[Pid p := ToLower name]> (runningProcs (state m)))
         (<[ToLower name := countOf (runningAppCounts (state m)) (ToLower name) + 1]>
            (runningAppCounts (state m)))
         (writeCh m ++ [insertEvent name (Pid p) (parentNameOf p) exePath now])).

(** The effect of [counts[name]--] followed by the removal of a count
    that is not positive, on the value read back. *)
Definition decrement (c : Z) : Z := if bool_decide (c - 1 ≤ 0) then 0 else c - 1.

(** Concrete processes and OS answers used in the examples. *)
Definition desktop : Platform :=
  {| HasVisibleWindow := λ _, true;
     GetProcessLevel := λ _, Some 0x2000;
     GetProductName := λ _, None |}.

Definition userProcess (pid : Z) (name : string) : Process :=
  {| Pid := pid; Name := Some name;
     Exe := Some ("C:\Program Files\App\" +:+ name);
     Parent := Some (Some "explorer.exe") |}.

Definition systemProcess (pid : Z) (name : string) : Process :=
  {| Pid := pid; Name := Some name;
     Exe := Some ("C:\Windows\System32\" +:+ name);
     Parent := Some (Some "services.exe") |}.

(** In the snapshots of a run, every process observed under identifier
    [i] has its executable under a system directory (or an unreadable
    path). *)
Definition system_or_other (i : Z) (p : Process) : bool :=
  bool_decide (Pid p ≠ i)
  || match Exe p with
     | Some exePath => under_system_dir exePath
     | None => true
     end.

Definition always_system (i : Z) (events : list Event) : bool :=
  forallb (λ e, match e with
                | Tick _ _ (Some procs) => forallb (system_or_other i) procs
                | _ => true
                end) events.

Definition no_insert_for (i : Z) (ch : list WriteRequest) : Prop :=
  Forall (λ w, is_insert_for i w = false) ch.

(** The rows of the table with a NULL [end_time], as (pid, name). *)
Definition open_rows (db : list AppEvent) : list (Z * string) :=
  map (λ r, (pid r, process_name r))
      (List.filter (λ r, bool_decide (end_time r = None)) db).

(** The open rows whose process is still in the OS process table and is
    recorded under the lowercase name [n]. *)
Definition live_named (PidExists : Z → bool) (n : string) (row : Z * string) : bool :=
  PidExists (fst row) && String.eqb (ToLower (snd row)) n.

Definition stale (PidExists : Z → bool) (row : Z * string) : bool :=
  negb (PidExists (fst row)).

(** The seeding loop over rows that all scan. *)
Definition seed (PidExists : Z → bool) (now : Z) (m : Monitor)
  (rows : list (Z * string)) : Monitor :=
  foldl (seedRow PidExists now) m (map Some rows).

(** The line [log.Printf] writes for a failed execution. *)
Definition failureLine (e : string) : string :=
  "[ERROR] Failed to execute write request: " +:+ e.

(** A writer whose next execution fails with [e], any later one succeeds. *)
Definition failNext (w : Writer) (e : string) : nat → option string :=
  λ n, if decide (n = length (received w)) then Some e else None.

(** Callers of [ResetLoggedApps] and the monitor around [resetLoggerCh]:
    the monitor, the buffer of the channel, the number of callers blocked
    in the send, and the number of signals the loop has handled.  A receive
    frees the slot, which lets one blocked caller complete its send. *)
Record ResetSys := {
  mon : Monitor;
  resetCh : list unit;
  blockedPosts : nat;
  handled : nat
}.

Inductive ResetAction :=
| Post
| Recv.

Definition resetStep (s : ResetSys) (a : ResetAction) : ResetSys :=
  match a with
  | Post =>
      match ResetLoggedApps (resetCh s) with
      | Chan.Sent buf' =>
          {| mon := mon s; resetCh := buf'; blockedPosts := blockedPosts s;
             handled := handled s |}
      | Chan.Blocked =>
          {| mon := mon s; resetCh := resetCh s; blockedPosts := S (blockedPosts s);
             handled := handled s |}
      end
  | Recv =>
      match recvReset (mon s) (resetCh s) with
      | Some (m', buf') =>
          match blockedPosts s with
          | O => {| mon := m'; resetCh := buf'; blockedPosts := O;
                    handled := S (handled s) |}
          | S b => {| mon := m'; resetCh := buf' ++ [tt]; blockedPosts := b;
                      handled := S (handled s) |}
          end
      | None => s
      end
  end.

Definition resetRun (m : Monitor) (actions : list ResetAction) : ResetSys :=
  foldl resetStep {| mon := m; resetCh := []; blockedPosts := O; handled := O |} actions.

(** The two variants side by side while a first tick goes through a
    snapshot: same queue, a name has a positive count in one iff it is
    marked logged in the other, and no identifier outside [seen] is known
    to either. *)
Definition first_tick_sim (seen : list Z) (mr : Monitor) (mb : BoolMap.Monitor) : Prop :=
  writeCh mr = BoolMap.writeCh mb
  ∧ (∀ n, 0 ≤ countOf (runningAppCounts (state mr)) n)
  ∧ (∀ n, 0 < countOf (runningAppCounts (state mr)) n
          ↔ BoolMap.member (BoolMap.loggedApps mb) n = true)
  ∧ (∀ pid, pid ∉ seen →
       runningProcs (state mr) !! pid = None
       ∧ BoolMap.member (BoolMap.runningProcs mb) pid = false).

(** The invariant of C1 on a ledger state, for one name. *)
Definition counts_match (n : string) (st : loggerState) : Prop :=
  countOf (runningAppCounts st) n = Z.of_nat (entriesOf (runningProcs st) n).

(** [p] reaches rule 1 of [logNewProcesses] with a path that
    [ShouldExclude] rejects, and would be recorded under the name [n]. *)
Definition excluded_as (F : app_filter.AppFilter) (os : Platform) (n : string)
  (p : Process) : bool :=
  match Name p, Exe p with
  | Some name, Some exePath =>
      String.eqb (ToLower name) n && app_filter.ShouldExclude F os exePath (Some p)
  | _, _ => false
  end.

Definition never_excluded_as (F : app_filter.AppFilter) (n : string)
  (events : list Event) : bool :=
  forallb (λ e, match e with
                | Tick _ os (Some procs) => forallb (λ p, negb (excluded_as F os n p)) procs
                | _ => true
                end) events.

(** The identifiers of the rows handed to the seeding loop. *)
Definition row_pids (rows : option (list (option (Z * string)))) : list Z :=
  match rows with
  | None => []
  | Some rows => omap (fmap fst) rows
  end.

Definition seed_distinct (rows : option (list (option (Z * string)))) : bool :=
  bool_decide (NoDup (row_pids rows)).

(** The table after the writer has executed the requests [ch] without
    faults (a statement the store rejects leaves the table as it is). *)
Definition exec_all (db : list AppEvent) (ch : list WriteRequest) : list AppEvent :=
  foldl (λ db req, default db (sql_exec db req)) db ch.

(** Every identifier with an open row is in the ledger. *)
Definition open_tracked (st : loggerState) (db : list AppEvent) : Prop :=
  ∀ i, (0 < open_count i db)%nat → is_Some (runningProcs st !! i).

(** The table [db0] and the monitor: whatever prefix of the pending
    requests the writer has executed, open rows are unique, and once all
    are executed every open row is tracked by the ledger. *)
Definition store_inv (db0 : list AppEvent) (m : Monitor) : Prop :=
  (∀ k, open_rows_unique (exec_all db0 (take k (writeCh m))))
  ∧ open_tracked (state m) (exec_all db0 (writeCh m)).

(** The same during seeding, [remaining] being the open rows not yet
    visited. *)
Definition seed_inv (db0 : list AppEvent) (remaining : list (Z * string)) (m : Monitor) : Prop :=
  (∀ k, open_rows_unique (exec_all db0 (take k (writeCh m))))
  ∧ ∀ i, (0 < open_count i (exec_all db0 (writeCh m)))%nat →
         is_Some (runningProcs (state m) !! i) ∨ i ∈ map fst remaining.

Definition no_reset (actions : list System.Action) : bool :=
  forallb (λ a, match a with
                | System.Select Reset => false
                | _ => true
                end) actions.

Definition no_fault : nat → option string := λ _, None.

Definition newRow (name : string) (p : Z) (parentName exePath : string) (t : Z) : AppEvent :=
  {| process_name := name; pid := p; parent_process_name := parentName;
     exe_path := exePath; start_time := t; end_time := None |}.

(** The processes of a snapshot that get an insert when the tick starts
    from an empty ledger: scanning in order, a process that passes
    classification and whose lowercase name is not yet among the [logged]
    ones. *)
Fixpoint firstOfName (F : app_filter.AppFilter) (os : Platform)
  (logged : list string) (procs : list Process) : list Process :=
  match procs with
  | [] => []
  | p :: procs' =>
      match lowerName p with
      | Some n =>
          if qualifies F os p && negb (bool_decide (n ∈ logged))
          then p :: firstOfName F os (n :: logged) procs'
          else firstOfName F os logged procs'
      | None => firstOfName F os logged procs'
      end
  end.

(** The ledger while [logNewProcesses] goes through a snapshot, started
    from an empty ledger: the names with a positive count are the [logged]
    ones, and no process still to come is in the ledger. *)
Definition scan_inv (logged : list string) (procs : list Process) (m : Monitor) : Prop :=
  (∀ n, 0 ≤ countOf (runningAppCounts (state m)) n)
  ∧ (∀ n, 0 < countOf (runningAppCounts (state m)) n ↔ n ∈ logged)
  ∧ (∀ p, p ∈ procs → runningProcs (state m) !! Pid p = None).

(** An AppEvent insert whose process name has lowercase form [n]. *)
Definition is_insert_named (n : string) (w : WriteRequest) : bool :=
  is_insert w &&
  match Args w with
  | AStr name :: _ => String.eqb (ToLower name) n
  | _ => false
  end.

Definition no_reset_events (events : list Event) : bool :=
  forallb (λ e, match e with
                | Reset => false
                | Tick _ _ _ => true
                end) events.

(** From [m] to [m'] the boolean-map monitor keeps the name [n] marked as
    logged and sends no insert of that name. *)
Definition stays_logged (n : string) (m m' : BoolMap.Monitor) : Prop :=
  BoolMap.member (BoolMap.loggedApps m') n = true
  ∧ ∃ ws, BoolMap.writeCh m' = BoolMap.writeCh m ++ ws
          ∧ Forall (λ w, is_insert_named n w = false) ws.

Arguments updateEnd : simpl never.
Arguments insertEvent : simpl never.
Arguments insertOf : simpl never.
Arguments is_insert : simpl never.
Arguments is_update : simpl never.
Arguments is_insert_for : simpl never.
Arguments is_insert_named : simpl never.
Arguments qualifies : simpl never.
Arguments endWrites : simpl never.
Arguments countOf : simpl never.
Arguments member : simpl never.
Arguments ToLower : simpl never.
Arguments exec_all : simpl never.
Arguments open_count : simpl never.

(** ** Vocabulary of the further properties *)

(** No name is stored with a count below one. *)
Definition counts_positive (st : loggerState) : Prop :=
  ∀ n c, runningAppCounts st !! n = Some c → 1 ≤ c.

(** The count of a name does not exceed its ledger entries. *)
Definition counts_bounded (n : string) (st : loggerState) : Prop :=
  countOf (runningAppCounts st) n ≤ Z.of_nat (entriesOf (runningProcs st) n).

(** An end-time update for process identifier [i]. *)
Definition is_update_for (i : Z) (w : WriteRequest) : bool :=
  is_update w &&
  match Args w with
  | [_; AInt p] => bool_decide (p = i)
  | _ => false
  end.

Definition mentions (i : Z) (w : WriteRequest) : bool :=
  is_insert_for i w || is_update_for i w.

Definition snapshotPids (procs : list Process) : list Z := map Pid procs.
Arguments is_update_for : simpl never.
Arguments mentions : simpl never.

(** A process whose name or path cannot be read (or whose name is empty). *)
Definition unreadable (p : Process) : bool :=
  match Name p, Exe p with
  | Some name, Some _ => String.eqb name ""
  | _, _ => true
  end.

Definition always_unreadable (i : Z) (events : list Event) : bool :=
  forallb (λ e, match e with
                | Tick _ _ (Some procs) =>
                    forallb (λ p, bool_decide (Pid p ≠ i) || unreadable p) procs
                | _ => true
                end) events.

Definition not_seeded (i : Z) (rows : option (list (option (Z * string)))) : bool :=
  bool_decide (i ∉ row_pids rows).

Definition no_write_for (i : Z) (ch : list WriteRequest) : Prop :=
  Forall (λ w, mentions i w = false) ch.

(** A process that [ShouldExclude] rejects, or whose path cannot be read. *)
Definition rejected (F : app_filter.AppFilter) (os : Platform) (p : Process) : bool :=
  match Exe p with
  | Some exePath => app_filter.ShouldExclude F os exePath (Some p)
  | None => true
  end.

Definition always_rejected (F : app_filter.AppFilter) (i : Z) (events : list Event) : bool :=
  forallb (λ e, match e with
                | Tick _ os (Some procs) =>
                    forallb (λ p, bool_decide (Pid p ≠ i) || rejected F os p) procs
                | _ => true
                end) events.

(** The executable of the monitor itself: a path that holds [marker] in
    any letter case.  Rule 0 of [rules_windows.ShouldExclude] tests the
    marker procguard.exe, rule 0 of [rules_linux.ShouldExclude] the marker
    procguard. *)
Definition own_executable (marker exePath : string) : bool :=
  Contains (ToLower exePath) marker.

Definition always_own (marker : string) (i : Z) (events : list Event) : bool :=
  forallb (λ e, match e with
                | Tick _ _ (Some procs) =>
                    forallb (λ p, bool_decide (Pid p ≠ i)
                                  || match Exe p with
                                     | Some exePath => own_executable marker exePath
                                     | None => true
                                     end) procs
                | _ => true
                end) events.

(** In a queue, every end-time update comes after an insert for the same
    process identifier. *)
Definition start_before_end (ch : list WriteRequest) : Prop :=
  ∀ j w i, ch !! j = Some w → is_update_for i w = true →
    ∃ k w', (k < j)%nat ∧ ch !! k = Some w' ∧ is_insert_for i w' = true.

Definition inserted (i : Z) (ch : list WriteRequest) : Prop :=
  ∃ w, w ∈ ch ∧ is_insert_for i w = true.

(** The boolean-map monitor tracks only identifiers it has sent an insert
    for. *)
Definition tracked_inserted (m : BoolMap.Monitor) : Prop :=
  ∀ pid, is_Some (BoolMap.runningProcs m !! pid) → inserted pid (BoolMap.writeCh m).

(** The two requests the monitor builds. *)
Definition well_formed (w : WriteRequest) : Prop :=
  (∃ t p, w = updateEnd t p)
  ∨ (∃ name p parentName exePath t, w = insertEvent name p parentName exePath t).

(** The ledger entries recorded under [n] whose process is not in the
    current snapshot. *)
Definition vanished (cur : gmap Z bool) (n : string) (order : list (Z * string)) : nat :=
  length (List.filter (λ e, negb (member cur (fst e)) && String.eqb (snd e) n) order).

(** The console shells of [rules_windows.ShouldTrack]. *)
Definition is_shell (nameLower : string) : bool :=
  String.eqb nameLower "cmd.exe" || String.eqb nameLower "powershell.exe"
  || String.eqb nameLower "pwsh.exe".

(** ** Opening the database: [InitDB], [OpenDB], [GetDB] of package [data]

    The package globals, with what the environment answers to
    [openAndConfigureDB] (a handle, or an error) and to
    [schema.CreateSchema] (an error, or none).  [dbOnce] is the [sync.Once]:
    [Do] runs its function only the first time and is done when the
    function returns.  A [nil] handle or channel is [None]; [writers] lists
    the [StartDatabaseWriter] goroutines started, with their argument. *)
Module data_init.

Record Globals := {
  globalDB : option nat;
  dbOnce : bool;
  writeCh : option (list WriteRequest);
  writers : list (option nat)
}.

Record Env := {
  openAndConfigureDB : nat + string;
  CreateSchema : option string
}.

Definition start : Globals :=
  {| globalDB := None; dbOnce := false; writeCh := None; writers := [] |}.

Definition InitDB (env : Env) (g : Globals) : (option nat * option string) * Globals :=
  let '(err, g') :=
    if dbOnce g then (None, g)
    else
      match openAndConfigureDB env with
      | inr e =>
          (Some e,
           {| globalDB := None; dbOnce := true; writeCh := writeCh g;
              writers := writers g |})
      | inl d =>
          let err :=
            match CreateSchema env with
            | Some e => Some ("could not create schema: " +:+ e)
            | None => None
            end in
          (err,
           {| globalDB := Some d; dbOnce := true; writeCh := Some [];
              writers := writers g ++ [Some d] |})
      end in
  match err with
  | Some e => ((None, Some e), g')
  | None => ((globalDB g', None), g')
  end.

Definition OpenDB (env : Env) (g : Globals) : (option nat * option string) * Globals :=
  InitDB env g.

Definition GetDB (g : Globals) : option nat := globalDB g.

(** A sequence of calls, each with the environment of its moment: the
    results in call order and the globals at the end. *)
Fixpoint calls (envs : list Env) (g : Globals)
  : list (option nat * option string) * Globals :=
  match envs with
  | [] => ([], g)
  | env :: envs' =>
      let '(r, g') := InitDB env g in
      let '(rs, g'') := calls envs' g' in
      (r :: rs, g'')
  end.

End data_init.

(** ** [wcharToString] of package [windows]

    A [C.wchar_t] of the Windows build is a 16-bit code unit, kept as an
    integer.  [string(runes)] is Go's conversion of a rune slice: the UTF-8
    encodings of the runes in order, the replacement character U+FFFD
    standing for a rune that is a surrogate half or out of range. *)
Module windows.

Definition uint16 (z : Z) : Z := z mod 2 ^ 16.

(** [for i, c := range wchars { if c == 0 { length = i; break } }], with
    [length] starting at 0. *)
Fixpoint scanNul (i : nat) (wchars : list Z) : nat :=
  match wchars with
  | [] => 0%nat
  | c :: rest => if c =? 0 then i else scanNul (S i) rest
  end.

Definition byteChar (b : Z) : ascii := ascii_of_N (Z.to_N b).

Definition encodeRune (r : Z) : list ascii :=
  if (r <? 0) || (0x10FFFF <? r) || ((0xD800 <=? r) && (r <=? 0xDFFF)) then
    [byteChar 0xEF; byteChar 0xBF; byteChar 0xBD]
  else if r <=? 0x7F then [byteChar r]
  else if r <=? 0x7FF then
    [byteChar (Z.lor 0xC0 (Z.shiftr r 6)); byteChar (Z.lor 0x80 (Z.land r 0x3F))]
  else if r <=? 0xFFFF then
    [byteChar (Z.lor 0xE0 (Z.shiftr r 12));
     byteChar (Z.lor 0x80 (Z.land (Z.shiftr r 6) 0x3F));
     byteChar (Z.lor 0x80 (Z.land r 0x3F))]
  else
    [byteChar (Z.lor 0xF0 (Z.shiftr r 18));
     byteChar (Z.lor 0x80 (Z.land (Z.shiftr r 12) 0x3F));
     byteChar (Z.lor 0x80 (Z.land (Z.shiftr r 6) 0x3F));
     byteChar (Z.lor 0x80 (Z.land r 0x3F))].

Definition stringOfRunes (runes : list Z) : string :=
  string_of_list_ascii (concat (map encodeRune runes)).

Definition wcharToString (wchars : list Z) : string :=
  let length := scanNul 0 wchars in
  if (length =? 0)%nat then ""
  else
    let utf16 := map uint16 (take length wchars) in
    let runes := utf16 in
    stringOfRunes runes.

End windows.

(** The code units of a text, one per byte. *)
Definition codeUnits (t : string) : list Z :=
  map (λ c, Z.of_N (N_of_ascii c)) (list_ascii_of_string t).

(** A text of ASCII characters other than NUL. *)
Definition ascii_text (t : string) : bool :=
  forallb (λ c, (0 <? c) && (c <? 128)) (codeUnits t).

(** ** [getAppDetails] of package [api], Linux build

    Go's [path/filepath] on a target whose separator is the slash and whose
    volume names are empty.  The loops of [Base] and [Ext] run from the end
    of the path; they are written on the reversed characters. *)
Module filepath.

Definition IsPathSeparator (c : ascii) : bool := Ascii.eqb c "/".

Fixpoint dropSeparators (rev_path : list ascii) : list ascii :=
  match rev_path with
  | c :: rest => if IsPathSeparator c then dropSeparators rest else rev_path
  | [] => []
  end.

Fixpoint lastElement (rev_path : list ascii) : list ascii :=
  match rev_path with
  | c :: rest => if IsPathSeparator c then [] else c :: lastElement rest
  | [] => []
  end.

(** [Base]: "." for the empty path; trailing separators are stripped, the
    last element is returned, "/" if nothing is left. *)
Definition Base (path : string) : string :=
  if String.eqb path "" then "."
  else
    let stripped := dropSeparators (rev (list_ascii_of_string path)) in
    let element := rev (lastElement stripped) in
    match element with
    | [] => "/"
    | _ => string_of_list_ascii element
    end.

(** [Ext]: from the end, up to the first separator, the suffix that starts
    at the first dot met; [after] holds the characters already passed. *)
Fixpoint extFrom (rev_path after : list ascii) : list ascii :=
  match rev_path with
  | c :: rest =>
      if IsPathSeparator c then []
      else if Ascii.eqb c "." then c :: after
      else extFrom rest (c :: after)
  | [] => []
  end.

Definition Ext (path : string) : string :=
  string_of_list_ascii (extFrom (rev (list_ascii_of_string path)) []).

End filepath.

Module api_linux.

(** [strings.TrimSuffix]. *)
Definition TrimSuffix (s suffix : string) : string :=
  if HasSuffix s suffix
  then String.substring 0 (String.length s - String.length suffix) s
  else s.

Definition getAppDetails (exePath : string) : string * string :=
  let commercialName := TrimSuffix (filepath.Base exePath) (filepath.Ext exePath) in
  (commercialName, "").

End api_linux.

(** A text without the given character. *)
Definition lacks (c : ascii) (t : string) : bool :=
  forallb (λ x, negb (Ascii.eqb x c)) (list_ascii_of_string t).

(** A directory prefix: empty, or ending in a slash. *)
Definition dir_prefix (t : string) : bool :=
  String.eqb t "" || HasSuffix t "/".

(** From [m] to [m'] the entry of [pid] stays as it is and the requests
    sent do not mention [pid]. *)
Definition unnoticed (pid : Z) (n : string) (m m' : Monitor) : Prop :=
  runningProcs (state m') !! pid = Some n
  ∧ ∃ ws, writeCh m' = writeCh m ++ ws ∧ no_write_for pid ws.

(** An insert is justified by the events seen when it is the insert of a
    process of some snapshot that passed classification under the OS
    answers of that tick. *)
Definition justified (F : app_filter.AppFilter) (events : list Event) (w : WriteRequest)
  : Prop :=
  is_insert w = true →
  ∃ now os procs p,
    Tick now os (Some procs) ∈ events ∧ p ∈ procs
    ∧ qualifies F os p = true ∧ w = insertOf now p.

(** How the body of [logNewProcesses] reads a process that is not in the
    ledger: name or path unreadable (or name empty), set aside by
    [ShouldExclude] under its lowercase name, or an instance of that name
    for rule 2, trackable or not for rule 3. *)
Inductive reading :=
| Unreadable
| SetAside (n : string)
| Instance (n : string) (trackable : bool).

Definition classify (F : app_filter.AppFilter) (os : Platform) (p : Process) : reading :=
  match Name p, Exe p with
  | Some name, Some exePath =>
      if String.eqb name "" then Unreadable
      else if app_filter.ShouldExclude F os exePath (Some p) then SetAside (ToLower name)
      else Instance (ToLower name) (app_filter.ShouldTrack F os exePath (Some p))
  | _, _ => Unreadable
  end.

(** [p] is read in full, passes [ShouldExclude] and has lowercase name
    [n]: what rule 2 counts once [n] is logged. *)
Definition instance_of (F : app_filter.AppFilter) (os : Platform) (n : string)
  (p : Process) : bool :=
  match classify F os p with
  | Instance n' _ => String.eqb n' n
  | _ => false
  end.

(** [p] is read in full, has lowercase name [n] and is rejected by
    [ShouldExclude]: what rule 1 records without counting. *)
Definition set_aside_as (F : app_filter.AppFilter) (os : Platform) (n : string)
  (p : Process) : bool :=
  match classify F os p with
  | SetAside n' => String.eqb n' n
  | _ => false
  end.

(** The snapshot from the first process of lowercase name [n] that passes
    classification on. *)
Fixpoint from_first_logged (F : app_filter.AppFilter) (os : Platform) (n : string)
  (procs : list Process) : list Process :=
  match procs with
  | [] => []
  | p :: procs' =>
      if qualifies F os p && bool_decide (lowerName p = Some n) then p :: procs'
      else from_first_logged F os n procs'
  end.

(** Count of the name [n] after a tick that starts from an empty ledger:
    the instances of [n] from the first logged one on. *)
Definition instances_after_reset (F : app_filter.AppFilter) (os : Platform) (n : string)
  (procs : list Process) : nat :=
  length (List.filter (instance_of F os n) (from_first_logged F os n procs)).

(** Ledger entry of a process of the snapshot after a tick that starts
    from an empty ledger. *)
Definition ledger_after_reset (F : app_filter.AppFilter) (os : Platform)
  (procs : list Process) (p : Process) : option string :=
  match lowerName p with
  | Some n =>
      if set_aside_as F os n p
         || (instance_of F os n p
             && bool_decide (Pid p ∈ map Pid (from_first_logged F os n procs)))
      then Some n else None
  | None => None
  end.

(** The system once the writer has received every pending request, no
    execution failing. *)
Definition settle (F : app_filter.AppFilter) (s : System.System) : System.System :=
  System.exec F no_fault s
    (replicate (length (writeCh (System.monitor s))) System.WriterRecv).

(** A reset followed by a tick on the snapshot [procs]. *)
Definition reset_then_tick (now : Z) (os : Platform) (procs : list Process)
  : list System.Action :=
  [System.Select Reset; System.Select (Tick now os (Some procs))].

(** * Properties *)

(** ** Requests and the queue *)

Lemma updateEnd_not_insert : String.eqb updateEndSQL insertSQL = false.
Proof. vm_compute. reflexivity. Qed.

Lemma insert_not_updateEnd : String.eqb insertSQL updateEndSQL = false.
Proof. vm_compute. reflexivity. Qed.

Lemma is_update_updateEnd now pid : is_update (updateEnd now pid) = true.
Proof. apply String.eqb_refl. Qed.

Lemma is_insert_updateEnd now pid : is_insert (updateEnd now pid) = false.
Proof. apply updateEnd_not_insert. Qed.

Lemma is_insert_insertEvent name pid parent exe now :
  is_insert (insertEvent name pid parent exe now) = true.
Proof. apply String.eqb_refl. Qed.

Lemma is_update_insertEvent name pid parent exe now :
  is_update (insertEvent name pid parent exe now) = false.
Proof. apply insert_not_updateEnd. Qed.

Lemma is_insert_for_updateEnd i now pid : is_insert_for i (updateEnd now pid) = false.
Proof. unfold is_insert_for. by rewrite is_insert_updateEnd. Qed.

Lemma is_insert_for_insertEvent i name pid parent exe now :
  is_insert_for i (insertEvent name pid parent exe now) = bool_decide (pid = i).
Proof. unfold is_insert_for. by rewrite is_insert_insertEvent. Qed.

Lemma EnqueueWrite_updateEnd now pid ch :
  EnqueueWrite updateEndSQL [AInt now; AInt pid] ch = ch ++ [updateEnd now pid].
Proof. reflexivity. Qed.

Lemma EnqueueWrite_insertEvent name pid parent exe now ch :
  EnqueueWrite insertSQL [AStr name; AInt pid; AStr parent; AStr exe; AInt now] ch
  = ch ++ [insertEvent name pid parent exe now].
Proof. reflexivity. Qed.

(** The writer receives every request of the channel once, in the order of
    the channel, whatever the outcome of the executions. *)
Lemma writerStep_received faults w req :
  received (writerStep faults w req) = received w ++ [req].
Proof. unfold writerStep. by destruct (Exec _ _ _). Qed.

Lemma StartDatabaseWriter_received faults ch : ∀ w,
  received (StartDatabaseWriter faults w ch) = received w ++ ch.
Proof.
  unfold StartDatabaseWriter. induction ch as [|req ch IH]; intros w; simpl.
  - by rewrite app_nil_r.
  - rewrite IH, writerStep_received, <- app_assoc. reflexivity.
Qed.

(** ** What one tick sends *)

Lemma endProcess_writeCh now cur m e :
  writeCh (endProcess now cur m e) = writeCh m ++ endWrites now cur [e].
Proof.
  unfold endProcess, endWrites. destruct e as [pid nameLower]; simpl.
  destruct (negb (member cur pid)); simpl; [reflexivity | by rewrite app_nil_r].
Qed.

Lemma endWrites_cons now cur e order :
  endWrites now cur (e :: order) = endWrites now cur [e] ++ endWrites now cur order.
Proof. unfold endWrites; simpl. by destruct (negb (member cur e.1)). Qed.

Lemma endedIn_writeCh now cur order : ∀ m,
  writeCh (endedIn now cur order m) = writeCh m ++ endWrites now cur order.
Proof.
  unfold endedIn. induction order as [|e order IH]; intros m; simpl.
  - unfold endWrites; simpl. by rewrite app_nil_r.
  - rewrite IH, endProcess_writeCh, (endWrites_cons _ _ e order), app_assoc. reflexivity.
Qed.

Lemma endWrites_all_update now cur order :
  Forall (λ w, is_update w = true) (endWrites now cur order).
Proof.
  unfold endWrites. apply Forall_map, Forall_forall. intros e _. apply is_update_updateEnd.
Qed.

Lemma newProcess_view F now os m p :
  newProcess_outcome F now os m p (newProcess F now os m p).
Proof.
  unfold newProcess.
  destruct (runningProcs (state m) !! Pid p) eqn:Hled; [constructor|].
  destruct (Name p) as [name|] eqn:Hname; [|constructor].
  destruct (String.eqb name "") eqn:Hne; [constructor|].
  destruct (Exe p) as [exePath|] eqn:Hexe; [|constructor].
  destruct (app_filter.ShouldExclude F os exePath (Some p)) eqn:Hex.
  { by eapply np_excluded. }
  case_bool_decide as Hcnt.
  { by eapply np_counted. }
  destruct (app_filter.ShouldTrack F os exePath (Some p)) eqn:Htr; simpl; [|constructor].
  rewrite EnqueueWrite_insertEvent.
  eapply np_logged; eauto.
  - intros ->. discriminate.
  - lia.
Qed.

Lemma newProcess_writeCh F now os m p :
  writeCh (newProcess F now os m p) = writeCh m
  ∨ (writeCh (newProcess F now os m p) = writeCh m ++ [insertOf now p]
     ∧ qualifies F os p = true).
Proof.
  destruct (newProcess_view F now os m p) as [|name exe|name exe|name exe ? Hn Hne He Hx ? Ht];
    simpl; auto.
  right. unfold insertOf, qualifies. rewrite Hn, He, Hx, Ht. simpl. split; [done|].
  destruct (String.eqb_spec name ""); done.
Qed.

Lemma logNewProcesses_writeCh F now os procs : ∀ m,
  ∃ starts,
    writeCh (logNewProcesses F now os procs m) = writeCh m ++ starts
    ∧ Forall (λ w, ∃ p, p ∈ procs ∧ qualifies F os p = true ∧ w = insertOf now p) starts.
Proof.
  unfold logNewProcesses. induction procs as [|p procs IH]; intros m; simpl.
  - exists []. by rewrite app_nil_r.
  - destruct (IH (newProcess F now os m p)) as (starts & Heq & Hall).
    assert (Hall' : Forall (λ w, ∃ q, q ∈ p :: procs ∧ qualifies F os q = true
                                 ∧ w = insertOf now q) starts).
    { eapply Forall_impl; [exact Hall|]. intros w (q & Hq & ?). exists q. split; [|done].
      by apply elem_of_cons; right. }
    destruct (newProcess_writeCh F now os m p) as [Hw|[Hw Hq]].
    + exists starts. by rewrite Heq, Hw.
    + exists (insertOf now p :: starts). split.
      * rewrite Heq, Hw, <- app_assoc. reflexivity.
      * constructor; [|done]. exists p. split; [apply elem_of_cons; by left|done].
Qed.

Lemma insertOf_is_insert now p : is_insert (insertOf now p) = true.
Proof. apply is_insert_insertEvent. Qed.

(** C4. Within one tick every end-write (for a ledger entry whose process
    disappeared) is sent before every write for a process that newly
    appeared: the requests of the tick are the end-writes of
    [logEndedProcesses] followed by the inserts of [logNewProcesses], the
    end-write of every disappeared process is among the former, and the
    writer receives them in that order. *)
Theorem tick_ends_before_starts F faults now os procs m w :
  ∃ ends starts,
    writeCh (logEndedProcesses now (currentPidsOf procs) m) = writeCh m ++ ends
    ∧ writeCh (onTick F now os (Some procs) m) = writeCh m ++ ends ++ starts
    ∧ Forall (λ r, is_update r = true ∧ is_insert r = false) ends
    ∧ Forall (λ r, is_insert r = true ∧ is_update r = false) starts
    ∧ (∀ pid name, runningProcs (state m) !! pid = Some name →
         member (currentPidsOf procs) pid = false → updateEnd now pid ∈ ends)
    ∧ (∀ i j e s, (ends ++ starts) !! i = Some e → is_update e = true →
         (ends ++ starts) !! j = Some s → is_insert s = true → (i < j)%nat)
    ∧ received (StartDatabaseWriter faults w (ends ++ starts))
      = received w ++ ends ++ starts.
Proof.
  set (m1 := logEndedProcesses now (currentPidsOf procs) m).
  destruct (logNewProcesses_writeCh F now os procs m1) as (starts & Hs & Hall).
  exists (endWrites now (currentPidsOf procs) (map_to_list (runningProcs (state m)))), starts.
  assert (Hm1 : writeCh m1 = writeCh m
            ++ endWrites now (currentPidsOf procs) (map_to_list (runningProcs (state m)))).
  { apply endedIn_writeCh. }
  assert (Hends : Forall (λ r, is_update r = true ∧ is_insert r = false)
            (endWrites now (currentPidsOf procs) (map_to_list (runningProcs (state m))))).
  { unfold endWrites. apply Forall_map, Forall_forall. intros e _. simpl.
    split; [apply is_update_updateEnd | apply is_insert_updateEnd]. }
  assert (Hstarts : Forall (λ r, is_insert r = true ∧ is_update r = false) starts).
  { eapply Forall_impl; [exact Hall|]. intros r (p & _ & _ & ->).
    split; [apply is_insert_insertEvent | apply is_update_insertEvent]. }
  split_and!; try done.
  - simpl. fold m1. by rewrite Hs, Hm1, <- app_assoc.
  - intros pid name Hp Hcur. unfold endWrites.
    apply (list_elem_of_fmap_2 (λ e, updateEnd now e.1) _ (pid, name)).
    apply list_elem_of_In, filter_In. split.
    + apply list_elem_of_In, elem_of_map_to_list. exact Hp.
    + simpl. by rewrite Hcur.
  - intros i j e s Hi He Hj Hs'.
    destruct (decide (i < length (endWrites now (currentPidsOf procs)
                                    (map_to_list (runningProcs (state m)))))%nat) as [Hlt|Hge].
    + destruct (decide (j < length (endWrites now (currentPidsOf procs)
                                    (map_to_list (runningProcs (state m)))))%nat) as [Hlt'|Hge'];
        [|lia].
      rewrite lookup_app_l in Hj by done.
      eapply Forall_lookup_1 in Hends; [|exact Hj]. destruct Hends as [_ Hx]. congruence.
    + rewrite lookup_app_r in Hi by lia.
      eapply Forall_lookup_1 in Hstarts; [|exact Hi]. destruct Hstarts as [_ Hx]. congruence.
  - apply StartDatabaseWriter_received.
Qed.

(** ** Ledger and counters under the two loops *)

Lemma countOf_insert counts k v n :
  countOf (<[k := v]> counts) n = if decide (k = n) then v else countOf counts n.
Proof.
  unfold countOf. rewrite lookup_insert. by destruct (decide (k = n)).
Qed.

Lemma countOf_delete counts k n :
  countOf (delete k counts) n = if decide (k = n) then 0 else countOf counts n.
Proof.
  unfold countOf. rewrite lookup_delete. by destruct (decide (k = n)).
Qed.

Lemma endProcess_gone now cur m pid name :
  member cur pid = false →
  endProcess now cur m (pid, name)
  = mkMonitor (delete pid (runningProcs (state m)))
      (let counts := <[name := countOf (runningAppCounts (state m)) name - 1]>
                       (runningAppCounts (state m)) in
       if bool_decide (countOf counts name ≤ 0) then delete name counts else counts)
      (writeCh m ++ [updateEnd now pid]).
Proof. intros H. unfold endProcess. by rewrite H. Qed.

Lemma endProcess_present now cur m pid name :
  member cur pid = true → endProcess now cur m (pid, name) = m.
Proof. intros H. unfold endProcess. by rewrite H. Qed.

Lemma endProcess_countOf now cur m pid name n :
  member cur pid = false →
  countOf (runningAppCounts (state (endProcess now cur m (pid, name)))) n
  = if decide (name = n) then decrement (countOf (runningAppCounts (state m)) n)
    else countOf (runningAppCounts (state m)) n.
Proof.
  intros H. rewrite endProcess_gone by done. simpl.
  rewrite countOf_insert. rewrite decide_True by done. unfold decrement.
  destruct (decide (name = n)) as [->|Hne].
  - case_bool_decide; [rewrite countOf_delete | rewrite countOf_insert];
      by rewrite decide_True.
  - case_bool_decide; [rewrite countOf_delete, decide_False by done|];
      by rewrite countOf_insert, decide_False.
Qed.

Lemma endedIn_ledger_None now cur order pid : ∀ m,
  runningProcs (state m) !! pid = None →
  runningProcs (state (endedIn now cur order m)) !! pid = None.
Proof.
  unfold endedIn. induction order as [|[i name] order IH]; intros m H; cbn [foldl]; [done|].
  apply IH. destruct (member cur i) eqn:Hi.
  - by rewrite endProcess_present.
  - rewrite endProcess_gone by done. simpl.
    destruct (decide (i = pid)) as [->|Hne];
      [apply lookup_delete_eq | by rewrite lookup_delete_ne].
Qed.

Lemma endedIn_count_zero now cur order n : ∀ m,
  countOf (runningAppCounts (state m)) n = 0 →
  countOf (runningAppCounts (state (endedIn now cur order m))) n = 0.
Proof.
  unfold endedIn. induction order as [|[i name] order IH]; intros m H; cbn [foldl]; [done|].
  apply IH. destruct (member cur i) eqn:Hi.
  - by rewrite endProcess_present.
  - rewrite endProcess_countOf by done. destruct (decide (name = n)); [|done].
    rewrite H. reflexivity.
Qed.

Lemma newProcess_counted F now os m p name exePath :
  runningProcs (state m) !! Pid p = None →
  Name p = Some name → name ≠ "" → Exe p = Some exePath →
  app_filter.ShouldExclude F os exePath (Some p) = false →
  0 < countOf (runningAppCounts (state m)) (ToLower name) →
  newProcess F now os m p
  = mkMonitor (<[Pid p := ToLower name]> (runningProcs (state m)))
      (<[ToLower name := countOf (runningAppCounts (state m)) (ToLower name) + 1]>
         (runningAppCounts (state m)))
      (writeCh m).
Proof.
  intros Hled Hn Hne He Hx Hc. unfold newProcess. rewrite Hled, Hn, He, Hx.
  destruct (String.eqb_spec name ""); [done|].
  by rewrite bool_decide_eq_true_2.
Qed.

Lemma newProcess_logged F now os m p name exePath :
  runningProcs (state m) !! Pid p = None →
  Name p = Some name → name ≠ "" → Exe p = Some exePath →
  app_filter.ShouldExclude F os exePath (Some p) = false →
  countOf (runningAppCounts (state m)) (ToLower name) ≤ 0 →
  app_filter.ShouldTrack F os exePath (Some p) = true →
  newProcess F now os m p
  = mkMonitor (<[Pid p := ToLower name]> (runningProcs (state m)))
      (<[ToLower name := countOf (runningAppCounts (state m)) (ToLower name) + 1]>
         (runningAppCounts (state m)))
      (writeCh m ++ [insertOf now p]).
Proof.
  intros Hled Hn Hne He Hx Hc Ht. unfold newProcess, insertOf. rewrite Hled, Hn, He, Hx, Ht.
  destruct (String.eqb_spec name ""); [done|].
  rewrite bool_decide_eq_false_2 by lia. reflexivity.
Qed.

Lemma filter_insert_endWrites now cur order :
  List.filter is_insert (endWrites now cur order) = [].
Proof.
  unfold endWrites. induction (List.filter _ order) as [|e l IH]; [done|].
  cbn [map List.filter]. by rewrite is_insert_updateEnd.
Qed.

(** C5. A new process (not in the ledger, name and path readable, not
    excluded) whose lowercase name has a positive count is added to the
    ledger under that name, its count goes up by one, and nothing is sent.
    Hence two same-named processes first seen in one tick, the name having
    no count before, give exactly one insert and a count of 2. *)
Theorem additional_instance_not_logged :
  (∀ F now os m p name exePath,
     runningProcs (state m) !! Pid p = None →
     Name p = Some name → name ≠ "" → Exe p = Some exePath →
     app_filter.ShouldExclude F os exePath (Some p) = false →
     0 < countOf (runningAppCounts (state m)) (ToLower name) →
     let m' := newProcess F now os m p in
     runningProcs (state m') = <[Pid p := ToLower name]> (runningProcs (state m))
     ∧ countOf (runningAppCounts (state m')) (ToLower name)
       = countOf (runningAppCounts (state m)) (ToLower name) + 1
     ∧ (∀ n, n ≠ ToLower name →
          countOf (runningAppCounts (state m')) n = countOf (runningAppCounts (state m)) n)
     ∧ writeCh m' = writeCh m)
  ∧ (∀ F now os m p q name name' exePath exePath',
       Pid p ≠ Pid q →
       runningProcs (state m) !! Pid p = None →
       runningProcs (state m) !! Pid q = None →
       Name p = Some name → name ≠ "" → Exe p = Some exePath →
       Name q = Some name' → name' ≠ "" → Exe q = Some exePath' →
       ToLower name' = ToLower name →
       app_filter.ShouldExclude F os exePath (Some p) = false →
       app_filter.ShouldExclude F os exePath' (Some q) = false →
       app_filter.ShouldTrack F os exePath (Some p) = true →
       countOf (runningAppCounts (state m)) (ToLower name) = 0 →
       let m' := onTick F now os (Some [p; q]) m in
       List.filter is_insert (drop (length (writeCh m)) (writeCh m')) = [insertOf now p]
       ∧ countOf (runningAppCounts (state m')) (ToLower name) = 2
       ∧ runningProcs (state m') !! Pid p = Some (ToLower name)
       ∧ runningProcs (state m') !! Pid q = Some (ToLower name)).
Proof.
  split.
  - intros F now os m p name exePath Hled Hn Hne He Hx Hc m'. subst m'.
    rewrite (newProcess_counted F now os m p name exePath) by done. simpl.
    split_and!; try done.
    + rewrite countOf_insert. by rewrite decide_True.
    + intros n Hn'. rewrite countOf_insert. by rewrite decide_False.
  - intros F now os m p q name name' exePath exePath' Hpq Hp Hq Hn Hne He Hn' Hne' He' Hlow
      Hx Hx' Ht Hc m'.
    subst m'. unfold onTick, logNewProcesses. simpl.
    set (m0 := logEndedProcesses now (currentPidsOf [p; q]) m).
    assert (Hp0 : runningProcs (state m0) !! Pid p = None) by by apply endedIn_ledger_None.
    assert (Hq0 : runningProcs (state m0) !! Pid q = None) by by apply endedIn_ledger_None.
    assert (Hc0 : countOf (runningAppCounts (state m0)) (ToLower name) = 0)
      by by apply endedIn_count_zero.
    assert (Hch0 : writeCh m0 = writeCh m
              ++ endWrites now (currentPidsOf [p; q]) (map_to_list (runningProcs (state m))))
      by apply endedIn_writeCh.
    rewrite (newProcess_logged F now os m0 p name exePath) by (try done; lia).
    rewrite (newProcess_counted F now os _ q name' exePath'); try done; simpl.
    + rewrite Hlow, Hc0, Hch0. split_and!.
      * rewrite <- app_assoc, drop_app_length.
        rewrite List.filter_app, filter_insert_endWrites. cbn [List.filter app].
        by rewrite insertOf_is_insert.
      * rewrite !countOf_insert. by rewrite !decide_True.
      * rewrite lookup_insert_ne by done. apply lookup_insert_eq.
      * apply lookup_insert_eq.
    + by rewrite lookup_insert_ne.
    + rewrite Hlow, countOf_insert. rewrite decide_True by done. lia.
Qed.

Lemma additional_instance_not_logged_witness :
  writeCh (newProcess rules_windows.rules 100 desktop
             (mkMonitor {[10 := "editor.exe"]} {["editor.exe" := 1]} [])
             (userProcess 11 "Editor.exe")) = []
  ∧ countOf (runningAppCounts (state
       (onTick rules_windows.rules 100 desktop
          (Some [userProcess 10 "editor.exe"; userProcess 11 "Editor.exe"]) (fresh []))))
      "editor.exe" = 2.
Proof.
  destruct additional_instance_not_logged as [Ha Hb]. split.
  - edestruct (Ha rules_windows.rules 100 desktop
                 (mkMonitor {[10 := "editor.exe"]} {["editor.exe" := 1]} [])
                 (userProcess 11 "Editor.exe") "Editor.exe")
      as (_ & _ & _ & H); [..|exact H].
    + reflexivity.
    + reflexivity.
    + discriminate.
    + reflexivity.
    + vm_compute; reflexivity.
    + vm_compute; reflexivity.
  - edestruct (Hb rules_windows.rules 100 desktop (fresh [])
                 (userProcess 10 "editor.exe") (userProcess 11 "Editor.exe")
                 "editor.exe" "Editor.exe")
      as (_ & H & _ & _); [..|exact H].
    + vm_compute; discriminate.
    + reflexivity.
    + reflexivity.
    + reflexivity.
    + discriminate.
    + reflexivity.
    + reflexivity.
    + discriminate.
    + reflexivity.
    + vm_compute; reflexivity.
    + vm_compute; reflexivity.
    + vm_compute; reflexivity.
    + vm_compute; reflexivity.
    + vm_compute; reflexivity.
Defined.

(** ** System processes are never logged *)

Lemma system_dir_excluded os exePath proc :
  under_system_dir exePath = true →
  rules_windows.ShouldExclude os exePath proc = true.
Proof.
  unfold under_system_dir, rules_windows.ShouldExclude. intros H.
  destruct (Contains (ToLower exePath) "procguard.exe"); [done|].
  destruct (HasSuffix (ToLower exePath) "conhost.exe"); [done|].
  cbv zeta. by rewrite H.
Qed.

Lemma no_insert_for_snoc i ch w :
  no_insert_for i ch → is_insert_for i w = false → no_insert_for i (ch ++ [w]).
Proof. intros H Hw. apply Forall_app. split; [done|]. by constructor. Qed.

Lemma endedIn_no_insert_for i now cur order m :
  no_insert_for i (writeCh m) → no_insert_for i (writeCh (endedIn now cur order m)).
Proof.
  intros H. rewrite endedIn_writeCh. apply Forall_app. split; [done|].
  unfold endWrites. apply Forall_map, Forall_forall. intros e _.
  apply is_insert_for_updateEnd.
Qed.

Lemma seedRow_no_insert_for i PidExists now m row :
  no_insert_for i (writeCh m) → no_insert_for i (writeCh (seedRow PidExists now m row)).
Proof.
  intros H. unfold seedRow. destruct row as [[pid name]|]; [|done].
  destruct (PidExists pid); simpl; [done|].
  rewrite EnqueueWrite_updateEnd. apply no_insert_for_snoc; [done|].
  apply is_insert_for_updateEnd.
Qed.

Lemma initializeRunningProcs_no_insert_for i PidExists now rows m :
  no_insert_for i (writeCh m) →
  no_insert_for i (writeCh (initializeRunningProcs PidExists now rows m)).
Proof.
  destruct rows as [rows|]; [|done]. simpl. revert m.
  induction rows as [|row rows IH]; intros m H; simpl; [done|].
  by apply IH, seedRow_no_insert_for.
Qed.

Lemma newProcess_no_insert_for i now os m p :
  system_or_other i p = true →
  no_insert_for i (writeCh m) →
  no_insert_for i (writeCh (newProcess rules_windows.rules now os m p)).
Proof.
  intros Hp H.
  destruct (newProcess_view rules_windows.rules now os m p)
    as [|name exe|name exe|name exe Hled Hn Hne He Hx Hc Ht]; simpl; try done.
  apply no_insert_for_snoc; [done|].
  rewrite is_insert_for_insertEvent. apply bool_decide_eq_false_2. intros Hi.
  unfold system_or_other in Hp. rewrite He in Hp.
  rewrite bool_decide_eq_false_2 in Hp by (intros Hc'; by apply Hc'). simpl in Hp.
  simpl in Hx. by rewrite system_dir_excluded in Hx.
Qed.

Lemma logNewProcesses_no_insert_for i now os procs : ∀ m,
  forallb (system_or_other i) procs = true →
  no_insert_for i (writeCh m) →
  no_insert_for i (writeCh (logNewProcesses rules_windows.rules now os procs m)).
Proof.
  unfold logNewProcesses. induction procs as [|p procs IH]; intros m Hp H; simpl; [done|].
  simpl in Hp. apply andb_true_iff in Hp as [Hp Hps].
  by apply IH, newProcess_no_insert_for.
Qed.

Lemma loop_no_insert_for i events : ∀ m,
  always_system i events = true →
  no_insert_for i (writeCh m) →
  no_insert_for i (writeCh (loop rules_windows.rules m events)).
Proof.
  unfold loop. induction events as [|e events IH]; intros m He H; simpl; [done|].
  simpl in He. apply andb_true_iff in He as [He Hes].
  apply IH; [done|]. destruct e as [now os [procs|]|]; simpl; try done.
  apply logNewProcesses_no_insert_for; [done|]. by apply endedIn_no_insert_for.
Qed.

(** C7. A process whose executable lies under \windows\system32\ or
    \windows\syswow64\ is never logged: if every process observed under
    identifier [i] in the snapshots of a run has such a path, no AppEvent
    insert for [i] is ever sent, whatever the OS answers about windows and
    however many ticks the run has. *)
Theorem system_process_never_logged PidExists now rows events i :
  always_system i events = true →
  no_insert_for i
    (writeCh (StartProcessEventLogger rules_windows.rules PidExists now rows events)).
Proof.
  intros H. unfold StartProcessEventLogger.
  apply loop_no_insert_for; [done|].
  apply initializeRunningProcs_no_insert_for. constructor.
Qed.

Lemma system_process_never_logged_witness :
  no_insert_for 4
    (writeCh (StartProcessEventLogger rules_windows.rules (λ _, true) 0 (Some [])
       [Tick 1 desktop (Some [systemProcess 4 "svchost.exe"; userProcess 10 "editor.exe"]);
        Reset;
        Tick 2 desktop (Some [systemProcess 4 "svchost.exe"; userProcess 10 "editor.exe"]);
        Tick 3 desktop (Some [userProcess 10 "editor.exe"])])).
Proof. apply system_process_never_logged. vm_compute. reflexivity. Defined.

(** ** Startup seeding *)

Lemma select_open_rows db0 : select_open db0 = map Some (open_rows db0).
Proof. unfold select_open, open_rows. by rewrite map_map. Qed.

Section seeding.
Variable PidExists : Z → bool.
Variable now : Z.

Lemma seed_writeCh rows : ∀ m,
  writeCh (seed PidExists now m rows)
  = writeCh m ++ map (λ row, updateEnd now (fst row)) (List.filter (stale PidExists) rows).
Proof.
  unfold seed. induction rows as [|[pid name] rows IH]; intros m; cbn [map foldl List.filter].
  - by rewrite app_nil_r.
  - rewrite IH. unfold seedRow, stale at 2. cbn [fst].
    destruct (PidExists pid); cbn [negb writeCh map]; [done|].
    by rewrite EnqueueWrite_updateEnd, <- app_assoc.
Qed.

Lemma seed_countOf n rows : ∀ m,
  countOf (runningAppCounts (state (seed PidExists now m rows))) n
  = countOf (runningAppCounts (state m)) n
    + Z.of_nat (length (List.filter (live_named PidExists n) rows)).
Proof.
  unfold seed. induction rows as [|[pid name] rows IH]; intros m; cbn [map foldl List.filter].
  - simpl. lia.
  - rewrite IH. unfold seedRow, live_named at 2. cbn [fst snd].
    destruct (PidExists pid); cbn [andb state runningAppCounts].
    + rewrite countOf_insert.
      destruct (String.eqb_spec (ToLower name) n) as [->|Hne].
      * rewrite decide_True by done. cbn [length]. lia.
      * rewrite decide_False by done. lia.
    + lia.
Qed.

Lemma seed_ledger_keeps rows : ∀ m pid,
  is_Some (runningProcs (state m) !! pid) →
  is_Some (runningProcs (state (seed PidExists now m rows)) !! pid).
Proof.
  unfold seed. induction rows as [|[i name] rows IH]; intros m pid H; cbn [map foldl]; [done|].
  apply IH. unfold seedRow. destruct (PidExists i); cbn [state runningProcs]; [|done].
  rewrite lookup_insert. destruct (decide (i = pid)); [by eexists | done].
Qed.

Lemma seed_ledger_live rows : ∀ m pid name,
  (pid, name) ∈ rows → PidExists pid = true →
  is_Some (runningProcs (state (seed PidExists now m rows)) !! pid).
Proof.
  unfold seed. induction rows as [|[i nm] rows IH]; intros m pid name Hin Hlive;
    cbn [map foldl].
  - by apply elem_of_nil in Hin.
  - apply elem_of_cons in Hin as [Heq|Hin]; [|by eapply IH].
    injection Heq as <- <-. apply seed_ledger_keeps.
    unfold seedRow. rewrite Hlive. cbn [state runningProcs].
    rewrite lookup_insert_eq. by eexists.
Qed.

Lemma seed_ledger_from rows : ∀ m pid n,
  runningProcs (state (seed PidExists now m rows)) !! pid = Some n →
  runningProcs (state m) !! pid = Some n
  ∨ ∃ name, (pid, name) ∈ rows ∧ PidExists pid = true ∧ n = ToLower name.
Proof.
  unfold seed. induction rows as [|[i nm] rows IH]; intros m pid n H; cbn [map foldl] in H.
  - by left.
  - apply IH in H as [H|(name & Hin & Hlive & ->)].
    + unfold seedRow in H. destruct (PidExists i) eqn:Hi; cbn [state runningProcs] in H.
      * rewrite lookup_insert in H. destruct (decide (i = pid)) as [->|Hne]; [|by left].
        right. exists nm. injection H as <-. split_and!; try done. apply elem_of_cons; by left.
      * by left.
    + right. exists name. split_and!; try done. apply elem_of_cons; by right.
Qed.

End seeding.

(** C9. Startup seeds the ledger exactly from the rows with a NULL
    [end_time]: the ledger holds an identifier iff an open row has it and
    the process still exists, under the lowercase name of such a row; the
    count of a name is the number of live open rows of that name; and the
    queue receives, in row order, one end-time update with the current
    timestamp for every open row whose process no longer exists (and no
    ledger entry is made for those). *)
Theorem startup_seeds_from_open_rows PidExists now db0 :
  let m := initializeRunningProcs PidExists now (Some (select_open db0)) (fresh []) in
  (∀ pid, is_Some (runningProcs (state m) !! pid)
          ↔ PidExists pid = true ∧ ∃ name, (pid, name) ∈ open_rows db0)
  ∧ (∀ pid n, runningProcs (state m) !! pid = Some n →
       ∃ name, (pid, name) ∈ open_rows db0 ∧ n = ToLower name)
  ∧ (∀ n, countOf (runningAppCounts (state m)) n
          = Z.of_nat (length (List.filter (live_named PidExists n) (open_rows db0))))
  ∧ writeCh m
    = map (λ row, updateEnd now (fst row)) (List.filter (stale PidExists) (open_rows db0)).
Proof.
  cbv zeta. cbn [initializeRunningProcs]. rewrite select_open_rows.
  change (foldl (seedRow PidExists now) (fresh []) (map Some (open_rows db0)))
    with (seed PidExists now (fresh []) (open_rows db0)).
  split_and!.
  - intros pid. split.
    + intros [n Hn]. apply seed_ledger_from in Hn as [Hn|(name & Hin & Hlive & _)].
      * unfold fresh in Hn. cbn [state runningProcs] in Hn. by rewrite lookup_empty in Hn.
      * split; [done|by exists name].
    + intros [Hlive [name Hin]]. by eapply seed_ledger_live.
  - intros pid n Hn. apply seed_ledger_from in Hn as [Hn|(name & Hin & _ & ->)].
    + unfold fresh in Hn. cbn [state runningProcs] in Hn. by rewrite lookup_empty in Hn.
    + by exists name.
  - intros n. rewrite seed_countOf. unfold fresh. cbn [state runningAppCounts].
    unfold countOf. rewrite lookup_empty. simpl. lia.
  - by rewrite seed_writeCh.
Qed.

(** ** The writer and failed executions *)

Lemma writerStep_fault faults w req e :
  faults (length (received w)) = Some e →
  writerStep faults w req
  = {| db := db w; errlog := errlog w ++ [failureLine e]; received := received w ++ [req] |}.
Proof. intros H. unfold writerStep, Exec. by rewrite H. Qed.

Lemma logEndedProcesses_empty now cur m :
  runningProcs (state m) = ∅ → logEndedProcesses now cur m = m.
Proof.
  intros H. unfold logEndedProcesses. rewrite H, map_to_list_empty. reflexivity.
Qed.

Lemma onTick_after_reset F now os procs m :
  onTick F now os (Some procs) (onReset m) = logNewProcesses F now os procs (onReset m).
Proof. unfold onTick. by rewrite logEndedProcesses_empty. Qed.

Lemma qualifies_inv F os p :
  qualifies F os p = true →
  ∃ name exePath, Name p = Some name ∧ name ≠ "" ∧ Exe p = Some exePath
    ∧ app_filter.ShouldExclude F os exePath (Some p) = false
    ∧ app_filter.ShouldTrack F os exePath (Some p) = true.
Proof.
  unfold qualifies. destruct (Name p) as [name|]; [|done].
  destruct (Exe p) as [exePath|]; [|done]. intros H.
  apply andb_true_iff in H as [H Ht]. apply andb_true_iff in H as [Hn Hx].
  exists name, exePath. split_and!; try done.
  - intros ->. done.
  - by apply negb_true_iff.
Qed.

(** C8. A failed execution is logged and the request is dropped: the table
    is unchanged, one line is written, the request is not put back, and the
    loop goes on with the next request, so every request is received once,
    in queue order.  A receive of the writer leaves the ledger as it is;
    in particular, after a tick that logs a new process [p] and a failed
    execution of its insert, the ledger still holds [p] while the table has
    no row for it. *)
Theorem failed_write_is_dropped :
  (∀ faults w req e,
     faults (length (received w)) = Some e →
     db (writerStep faults w req) = db w
     ∧ errlog (writerStep faults w req) = errlog w ++ [failureLine e]
     ∧ received (writerStep faults w req) = received w ++ [req])
  ∧ (∀ faults w req ch,
       StartDatabaseWriter faults w (req :: ch)
       = StartDatabaseWriter faults (writerStep faults w req) ch
       ∧ received (StartDatabaseWriter faults w (req :: ch)) = received w ++ req :: ch)
  ∧ (∀ F faults s req ch,
       writeCh (System.monitor s) = req :: ch →
       let s' := System.act F faults s System.WriterRecv in
       state (System.monitor s') = state (System.monitor s)
       ∧ writeCh (System.monitor s') = ch
       ∧ System.writer s' = writerStep faults (System.writer s) req)
  ∧ (∀ F now os w p e name,
       qualifies F os p = true → Name p = Some name →
       let s := System.exec F (failNext w e)
                  {| System.monitor := fresh []; System.writer := w |}
                  [System.Select (Tick now os (Some [p])); System.WriterRecv] in
       runningProcs (state (System.monitor s)) !! Pid p = Some (ToLower name)
       ∧ countOf (runningAppCounts (state (System.monitor s))) (ToLower name) = 1
       ∧ writeCh (System.monitor s) = []
       ∧ db (System.writer s) = db w
       ∧ errlog (System.writer s) = errlog w ++ [failureLine e]
       ∧ received (System.writer s) = received w ++ [insertOf now p]).
Proof.
  split_and!.
  - intros faults w req e H. by rewrite (writerStep_fault faults w req e).
  - intros faults w req ch. split; [reflexivity|apply StartDatabaseWriter_received].
  - intros F faults s req ch H s'. subst s'. unfold System.act. by rewrite H.
  - intros F now os w p e name Hq Hn s.
    destruct (qualifies_inv F os p Hq) as (name' & exePath & Hn' & Hne & He & Hx & Ht).
    assert (name' = name) as -> by congruence.
    assert (Hm : RefCount.handle F (fresh []) (Tick now os (Some [p]))
                 = mkMonitor {[Pid p := ToLower name]} {[ToLower name := 1]}
                     [insertOf now p]).
    { cbn [RefCount.handle]. change (fresh []) with (onReset (fresh [])).
      rewrite onTick_after_reset. unfold logNewProcesses. cbn [foldl].
      by rewrite (newProcess_logged F now os _ p name exePath). }
    subst s. unfold System.exec. cbn [foldl System.act System.monitor System.writer].
    rewrite Hm. cbn [mkMonitor writeCh state].
    rewrite (writerStep_fault _ w _ e).
    + cbn [System.monitor System.writer state writeCh runningProcs runningAppCounts
           db errlog received].
      split_and!; try done.
      * apply lookup_singleton_eq.
      * unfold countOf. by rewrite lookup_singleton_eq.
    + unfold failNext. by rewrite decide_True.
Qed.

Lemma failed_write_is_dropped_witness :
  let s := System.exec rules_windows.rules
             (failNext {| db := []; errlog := []; received := [] |} "database is locked")
             {| System.monitor := fresh [];
                System.writer := {| db := []; errlog := []; received := [] |} |}
             [System.Select (Tick 5 desktop (Some [userProcess 10 "editor.exe"]));
              System.WriterRecv] in
  runningProcs (state (System.monitor s)) !! 10 = Some "editor.exe"
  ∧ db (System.writer s) = []
  ∧ errlog (System.writer s) = [failureLine "database is locked"].
Proof.
  destruct failed_write_is_dropped as (_ & _ & _ & H).
  edestruct (H rules_windows.rules 5 desktop {| db := []; errlog := []; received := [] |}
               (userProcess 10 "editor.exe") "database is locked" "editor.exe")
    as (H1 & _ & _ & H2 & H3 & _).
  - vm_compute; reflexivity.
  - reflexivity.
  - cbv zeta. split_and!; [exact H1 | exact H2 | exact H3].
Defined.

(** ** The reset signal *)

Lemma onReset_idempotent m : onReset (onReset m) = onReset m.
Proof. reflexivity. Qed.

(** C3, as stated, fails: with a signal already pending in the one-slot
    channel, [ResetLoggedApps] does not return with the channel unchanged;
    the send blocks. *)
Lemma reset_post_on_pending_slot_blocks :
  ResetLoggedApps [tt] ≠ Chan.Sent [tt] ∧ ResetLoggedApps [tt] = Chan.Blocked.
Proof. split; [discriminate | reflexivity]. Qed.

(** C3, amended. Posting the reset signal on the free slot buffers it;
    posting while a signal is pending blocks the caller until the loop has
    received the pending one, after which the second post is buffered and
    received in turn (nothing is coalesced: two posts are two handled
    signals).  Handling the signal is idempotent on the ledger: after two
    signals both maps are empty, as after one, whatever the loop did in
    between. *)
Theorem reset_twice_same_ledger F m events :
  ResetLoggedApps [] = Chan.Sent [tt]
  ∧ ResetLoggedApps [tt] = Chan.Blocked
  ∧ blockedPosts (resetRun m [Post; Post]) = 1%nat
  ∧ resetRun m [Post; Post; Recv; Recv]
    = {| mon := onReset m; resetCh := []; blockedPosts := 0; handled := 2 |}
  ∧ resetRun m [Post; Recv]
    = {| mon := onReset m; resetCh := []; blockedPosts := 0; handled := 1 |}
  ∧ state (onReset m) = {| runningProcs := ∅; runningAppCounts := ∅ |}
  ∧ writeCh (onReset m) = writeCh m
  ∧ state (onReset (loop F (onReset m) events)) = state (onReset m).
Proof. split_and!; reflexivity. Qed.

(** ** The tick after a reset *)

Lemma newProcess_ledger_from F now os m p pid :
  is_Some (runningProcs (state (newProcess F now os m p)) !! pid) →
  is_Some (runningProcs (state m) !! pid) ∨ pid = Pid p.
Proof.
  destruct (newProcess_view F now os m p) as [|name exe|name exe|name exe];
    cbn [mkMonitor state runningProcs]; auto;
    rewrite lookup_insert; destruct (decide (Pid p = pid)); auto.
Qed.

Lemma newProcess_count_from F now os m p n :
  0 < countOf (runningAppCounts (state (newProcess F now os m p))) n →
  0 < countOf (runningAppCounts (state m)) n ∨ lowerName p = Some n.
Proof.
  unfold lowerName.
  destruct (newProcess_view F now os m p) as [|name exe|name exe ? Hn|name exe ? Hn];
    cbn [mkMonitor state runningAppCounts]; auto;
    rewrite countOf_insert; destruct (decide (ToLower name = n)) as [<-|]; auto;
    rewrite Hn; auto.
Qed.

Lemma logNewProcesses_ledger_from F now os procs pid : ∀ m,
  is_Some (runningProcs (state (logNewProcesses F now os procs m)) !! pid) →
  is_Some (runningProcs (state m) !! pid) ∨ pid ∈ map Pid procs.
Proof.
  unfold logNewProcesses. induction procs as [|p procs IH]; intros m H; cbn [foldl] in H.
  - by left.
  - apply IH in H as [H|H].
    + apply newProcess_ledger_from in H as [H| ->]; [by left|].
      right. apply elem_of_cons; by left.
    + right. apply elem_of_cons; by right.
Qed.

Lemma logNewProcesses_count_from F now os procs n : ∀ m,
  0 < countOf (runningAppCounts (state (logNewProcesses F now os procs m))) n →
  0 < countOf (runningAppCounts (state m)) n ∨ Some n ∈ map lowerName procs.
Proof.
  unfold logNewProcesses. induction procs as [|p procs IH]; intros m H; cbn [foldl] in H.
  - by left.
  - apply IH in H as [H|H].
    + apply newProcess_count_from in H as [H|H]; [by left|].
      right. rewrite <- H. apply elem_of_cons; by left.
    + right. apply elem_of_cons; by right.
Qed.

Lemma logNewProcesses_app F now os pre post m :
  logNewProcesses F now os (pre ++ post) m
  = logNewProcesses F now os post (logNewProcesses F now os pre m).
Proof. unfold logNewProcesses. apply foldl_app. Qed.

(** C6, as stated, fails: after a reset, a running process that passes
    classification but shares its lowercase name with an earlier process of
    the snapshot gets no insert on the next tick. *)
Lemma reset_same_name_not_reinserted :
  let p := userProcess 10 "editor.exe" in
  let q := userProcess 11 "Editor.exe" in
  let m := mkMonitor {[10 := "editor.exe"; 11 := "editor.exe"]} {["editor.exe" := 2]} [] in
  qualifies rules_windows.rules desktop q = true
  ∧ List.filter (is_insert_for 11)
      (writeCh (onTick rules_windows.rules 7 desktop (Some [p; q]) (onReset m))) = []
  ∧ writeCh (onTick rules_windows.rules 7 desktop (Some [p; q]) (onReset m))
    = [insertOf 7 p].
Proof. vm_compute. split_and!; reflexivity. Qed.

Lemma qualifies_intro F os p name exePath :
  Name p = Some name → name ≠ "" → Exe p = Some exePath →
  app_filter.ShouldExclude F os exePath (Some p) = false →
  app_filter.ShouldTrack F os exePath (Some p) = true →
  qualifies F os p = true.
Proof.
  intros Hn Hne He Hx Ht. unfold qualifies. rewrite Hn, He, Hx, Ht.
  destruct (String.eqb_spec name ""); done.
Qed.

Lemma scan_inv_tail logged p procs m :
  scan_inv logged (p :: procs) m → scan_inv logged procs m.
Proof.
  intros (Hnn & Hpos & Hled). split_and!; try done.
  intros q Hq. apply Hled. apply elem_of_cons; by right.
Qed.

Lemma scan_inv_record logged p procs m nameLower :
  Pid p ∉ map Pid procs →
  scan_inv logged (p :: procs) m →
  scan_inv logged procs
    (mkMonitor (<[Pid p := nameLower]> (runningProcs (state m)))
       (runningAppCounts (state m)) (writeCh m)).
Proof.
  intros Hp (Hnn & Hpos & Hled). split_and!; try done.
  intros q Hq. cbn [mkMonitor state runningProcs].
  rewrite lookup_insert_ne.
  - apply Hled. apply elem_of_cons; by right.
  - intros Heq. apply Hp. rewrite Heq. by apply list_elem_of_fmap_2.
Qed.

Lemma scan_inv_count logged logged' p procs m nameLower :
  Pid p ∉ map Pid procs →
  (∀ n, n ∈ logged' ↔ n = nameLower ∨ n ∈ logged) →
  scan_inv logged (p :: procs) m →
  scan_inv logged' procs
    (mkMonitor (<[Pid p := nameLower]> (runningProcs (state m)))
       (<[nameLower := countOf (runningAppCounts (state m)) nameLower + 1]>
          (runningAppCounts (state m)))
       (writeCh m)).
Proof.
  intros Hp Hlg (Hnn & Hpos & Hled). split_and!; cbn [mkMonitor state runningProcs
                                                       runningAppCounts].
  - intros n. rewrite countOf_insert. pose proof (Hnn nameLower).
    destruct (decide (nameLower = n)); [lia|done].
  - intros n. rewrite countOf_insert, Hlg. pose proof (Hnn nameLower).
    destruct (decide (nameLower = n)) as [<-|Hne].
    + split; [by left|lia].
    + rewrite Hpos. split; [by right|]. intros [->|H']; done.
  - intros q Hq. rewrite lookup_insert_ne.
    + apply Hled. apply elem_of_cons; by right.
    + intros Heq. apply Hp. rewrite Heq. by apply list_elem_of_fmap_2.
Qed.

Lemma logNewProcesses_scan F now os procs : ∀ logged m,
  NoDup (map Pid procs) →
  scan_inv logged procs m →
  writeCh (logNewProcesses F now os procs m)
  = writeCh m ++ map (insertOf now) (firstOfName F os logged procs).
Proof.
  unfold logNewProcesses.
  induction procs as [|p procs IH]; intros logged m Hnd Hinv; cbn [foldl firstOfName map].
  { by rewrite app_nil_r. }
  cbn [map] in Hnd. apply NoDup_cons in Hnd as [Hp Hnd].
  pose proof Hinv as (Hnn & Hpos & Hled).
  assert (Hl : runningProcs (state m) !! Pid p = None).
  { apply Hled. apply elem_of_cons; by left. }
  destruct (lowerName p) as [n|] eqn:Hlow; cycle 1.
  { unfold lowerName in Hlow. destruct (Name p) eqn:Hn; [done|].
    unfold newProcess at 2. rewrite Hl, Hn. apply (IH logged); [done|].
    by eapply scan_inv_tail. }
  destruct (qualifies F os p && negb (bool_decide (n ∈ logged))) eqn:Hcond.
  - apply andb_true_iff in Hcond as [Hq Hnew]. apply negb_true_iff in Hnew.
    apply bool_decide_eq_false_1 in Hnew.
    destruct (qualifies_inv F os p Hq) as (name & exePath & Hn & Hne & He & Hx & Ht).
    assert (n = ToLower name) as ->.
    { unfold lowerName in Hlow. rewrite Hn in Hlow. by injection Hlow. }
    assert (Hc : countOf (runningAppCounts (state m)) (ToLower name) ≤ 0).
    { destruct (decide (0 < countOf (runningAppCounts (state m)) (ToLower name)))
        as [Hgt|]; [|lia]. by apply Hpos in Hgt. }
    rewrite (newProcess_logged F now os m p name exePath) by done.
    rewrite (IH (ToLower name :: logged)); [|done|].
    + cbn [mkMonitor writeCh map]. by rewrite <- app_assoc.
    + apply (scan_inv_count logged); [done| |done]. intros n. apply elem_of_cons.
  - destruct (newProcess_view F now os m p)
      as [|name exe _ Hn He Hx|name exe _ Hn He Hx Hc|name exe _ Hn Hne He Hx Hc Ht].
    + apply (IH logged); [done|]. by eapply scan_inv_tail.
    + rewrite (IH logged); [done|done|]. by apply (scan_inv_record logged).
    + rewrite (IH logged); [done|done|].
      assert (n = ToLower name) as ->.
      { unfold lowerName in Hlow. rewrite Hn in Hlow. by injection Hlow. }
      apply (scan_inv_count logged); [done| |done].
      intros n. split; [by right|]. intros [->|H']; [by apply Hpos|done].
    + exfalso.
      assert (n = ToLower name) as ->.
      { unfold lowerName in Hlow. rewrite Hn in Hlow. by injection Hlow. }
      rewrite (qualifies_intro F os p name exe) in Hcond by done.
      rewrite bool_decide_eq_false_2 in Hcond; [done|].
      intros Hin. apply Hpos in Hin. lia.
Qed.

(** *** Ledger and counts after the tick that follows a reset *)

Lemma classify_lowerName F os p :
  match classify F os p with
  | Unreadable => True
  | SetAside n | Instance n _ => lowerName p = Some n
  end.
Proof.
  unfold classify, lowerName. destruct (Name p) as [name|]; [|done].
  destruct (Exe p) as [exePath|]; [|done].
  destruct (String.eqb name ""); [done|].
  by destruct (app_filter.ShouldExclude F os exePath (Some p)).
Qed.

Lemma qualifies_classify F os p :
  qualifies F os p
  = match classify F os p with
    | Instance _ true => true
    | _ => false
    end.
Proof.
  unfold qualifies, classify. destruct (Name p) as [name|]; [|done].
  destruct (Exe p) as [exePath|]; [|done].
  destruct (String.eqb name ""); [done|].
  destruct (app_filter.ShouldExclude F os exePath (Some p)); [done|].
  by destruct (app_filter.ShouldTrack F os exePath (Some p)).
Qed.

Lemma newProcess_classify F now os m p :
  runningProcs (state m) !! Pid p = None →
  newProcess F now os m p
  = match classify F os p with
    | Unreadable => m
    | SetAside n =>
        mkMonitor (<[Pid p := n]> (runningProcs (state m))) (runningAppCounts (state m))
          (writeCh m)
    | Instance n trackable =>
        if bool_decide (0 < countOf (runningAppCounts (state m)) n) then
          mkMonitor (<[Pid p := n]> (runningProcs (state m)))
            (<[n := countOf (runningAppCounts (state m)) n + 1]> (runningAppCounts (state m)))
            (writeCh m)
        else if trackable then
          mkMonitor (<[Pid p := n]> (runningProcs (state m)))
            (<[n := countOf (runningAppCounts (state m)) n + 1]> (runningAppCounts (state m)))
            (writeCh m ++ [insertOf now p])
        else m
    end.
Proof.
  intros Hled. unfold newProcess, classify, insertOf. rewrite Hled.
  destruct (Name p) as [name|]; [|done].
  destruct (String.eqb name ""); [by destruct (Exe p)|].
  destruct (Exe p) as [exePath|]; [|done].
  destruct (app_filter.ShouldExclude F os exePath (Some p)); [done|].
  cbv zeta. case_bool_decide; [done|].
  destruct (app_filter.ShouldTrack F os exePath (Some p)); [|done].
  cbn [negb]. by rewrite EnqueueWrite_insertEvent.
Qed.

Lemma newProcess_ledger_other F now os m p pid :
  pid ≠ Pid p →
  runningProcs (state (newProcess F now os m p)) !! pid = runningProcs (state m) !! pid.
Proof.
  intros Hne.
  destruct (newProcess_view F now os m p) as [|name exe|name exe|name exe];
    cbn [mkMonitor state runningProcs]; [done|..]; by rewrite lookup_insert_ne.
Qed.

Lemma logNewProcesses_ledger_other F now os procs pid : ∀ m,
  pid ∉ map Pid procs →
  runningProcs (state (logNewProcesses F now os procs m)) !! pid
  = runningProcs (state m) !! pid.
Proof.
  unfold logNewProcesses. induction procs as [|p procs IH]; intros m Hpid; cbn [foldl];
    [done|].
  rewrite IH.
  - apply newProcess_ledger_other. intros ->. apply Hpid. apply elem_of_cons; by left.
  - intros H. apply Hpid. apply elem_of_cons; by right.
Qed.

Lemma newProcess_counts_nonneg F now os m p :
  (∀ k, 0 ≤ countOf (runningAppCounts (state m)) k) →
  ∀ k, 0 ≤ countOf (runningAppCounts (state (newProcess F now os m p))) k.
Proof.
  intros H k.
  destruct (newProcess_view F now os m p) as [|name exe|name exe|name exe];
    cbn [mkMonitor state runningAppCounts]; [done|done|..];
    rewrite countOf_insert; destruct (decide (ToLower name = k)); try done;
    pose proof (H (ToLower name)); lia.
Qed.

Lemma logNewProcesses_counts_nonneg F now os procs : ∀ m,
  (∀ k, 0 ≤ countOf (runningAppCounts (state m)) k) →
  ∀ k, 0 ≤ countOf (runningAppCounts (state (logNewProcesses F now os procs m))) k.
Proof.
  unfold logNewProcesses. induction procs as [|p procs IH]; intros m H; cbn [foldl];
    [done|].
  apply IH. by apply newProcess_counts_nonneg.
Qed.

Lemma from_first_logged_subset F os n procs x :
  x ∈ from_first_logged F os n procs → x ∈ procs.
Proof.
  induction procs as [|p procs IH]; cbn [from_first_logged]; [done|].
  destruct (qualifies F os p && bool_decide (lowerName p = Some n)); [done|].
  intros H. apply elem_of_cons; right. by apply IH.
Qed.

Lemma from_first_logged_app F os n l1 l2 :
  (∃ x, x ∈ l1 ∧ qualifies F os x = true ∧ lowerName x = Some n) →
  from_first_logged F os n (l1 ++ l2) = from_first_logged F os n l1 ++ l2.
Proof.
  induction l1 as [|p l1 IH]; intros (x & Hx & Hq & Hn).
  - by apply elem_of_nil in Hx.
  - cbn [app from_first_logged].
    destruct (qualifies F os p && bool_decide (lowerName p = Some n)) eqn:Hp; [done|].
    apply IH. exists x. split; [|done].
    apply elem_of_cons in Hx as [->|Hx]; [|done].
    by rewrite Hq, bool_decide_eq_true_2 in Hp.
Qed.

Lemma from_first_logged_last F os n pre p :
  qualifies F os p = true → lowerName p = Some n →
  p ∈ from_first_logged F os n (pre ++ [p]).
Proof.
  intros Hq Hn. induction pre as [|x pre IH]; cbn [app from_first_logged].
  - rewrite Hq, bool_decide_eq_true_2 by done. apply elem_of_cons; by left.
  - destruct (qualifies F os x && bool_decide (lowerName x = Some n)); [|done].
    apply elem_of_cons; right. apply elem_of_app; right. apply elem_of_cons; by left.
Qed.

(** The counts after [logNewProcesses] has gone through a snapshot none of
    whose processes is in the ledger. *)
Lemma logNewProcesses_counts_scan F now os n procs : ∀ m,
  NoDup (map Pid procs) →
  (∀ p, p ∈ procs → runningProcs (state m) !! Pid p = None) →
  (∀ k, 0 ≤ countOf (runningAppCounts (state m)) k) →
  countOf (runningAppCounts (state (logNewProcesses F now os procs m))) n
  = if bool_decide (0 < countOf (runningAppCounts (state m)) n)
    then countOf (runningAppCounts (state m)) n
         + Z.of_nat (length (List.filter (instance_of F os n) procs))
    else Z.of_nat (instances_after_reset F os n procs).
Proof.
  unfold instances_after_reset.
  induction procs as [|p procs IH]; intros m Hnd Hled Hnn.
  - cbn. pose proof (Hnn n). case_bool_decide; lia.
  - cbn [map] in Hnd. apply NoDup_cons in Hnd as [Hp Hnd].
    assert (Hl : runningProcs (state m) !! Pid p = None).
    { apply Hled. apply elem_of_cons; by left. }
    change (logNewProcesses F now os (p :: procs) m)
      with (logNewProcesses F now os procs (newProcess F now os m p)).
    rewrite IH; [|done| |by apply newProcess_counts_nonneg]; cycle 1.
    { intros q Hq. rewrite newProcess_ledger_other.
      - apply Hled. apply elem_of_cons; by right.
      - intros Heq. apply Hp. rewrite <- Heq. by apply list_elem_of_fmap_2. }
    rewrite newProcess_classify by done.
    cbn [List.filter from_first_logged]. rewrite qualifies_classify.
    pose proof (Hnn n) as Hn0.
    generalize (eq_refl : instance_of F os n p
                          = match classify F os p with
                            | Instance n' _ => String.eqb n' n
                            | _ => false
                            end), (classify_lowerName F os p).
    destruct (classify F os p) as [|n'|n' t]; intros Hi Hlow; rewrite Hi;
      [done|done|].
    rewrite Hlow. destruct (String.eqb_spec n' n) as [->|Hne].
    + rewrite (bool_decide_eq_true_2 (Some n = Some n)) by done.
      destruct (bool_decide_reflect (0 < countOf (runningAppCounts (state m)) n)) as [Hc|Hc].
      * cbn [mkMonitor state runningAppCounts]. rewrite countOf_insert, decide_True by done.
        rewrite bool_decide_eq_true_2 by lia. cbn [length]. lia.
      * destruct t; cbn [andb].
        -- cbn [mkMonitor state runningAppCounts List.filter].
           rewrite countOf_insert, decide_True by done.
           rewrite bool_decide_eq_true_2 by lia. rewrite Hi. cbn [length]. lia.
        -- by rewrite bool_decide_eq_false_2.
    + rewrite (bool_decide_eq_false_2 (Some n' = Some n)) by congruence.
      rewrite andb_false_r.
      assert (Hsame : countOf (runningAppCounts (state
                (if bool_decide (0 < countOf (runningAppCounts (state m)) n')
                 then mkMonitor (<[Pid p := n']> (runningProcs (state m)))
                        (<[n' := countOf (runningAppCounts (state m)) n' + 1]>
                           (runningAppCounts (state m))) (writeCh m)
                 else if t
                      then mkMonitor (<[Pid p := n']> (runningProcs (state m)))
                             (<[n' := countOf (runningAppCounts (state m)) n' + 1]>
                                (runningAppCounts (state m)))
                             (writeCh m ++ [insertOf now p])
                      else m))) n
              = countOf (runningAppCounts (state m)) n).
      { destruct (bool_decide (0 < countOf (runningAppCounts (state m)) n'));
          [|destruct t]; cbn [mkMonitor state runningAppCounts];
          rewrite ?countOf_insert, ?decide_False by done; done. }
      by rewrite Hsame.
Qed.

(** The ledger entries of the processes of such a snapshot. *)
Lemma logNewProcesses_ledger_scan F now os procs : ∀ m,
  NoDup (map Pid procs) →
  (∀ p, p ∈ procs → runningProcs (state m) !! Pid p = None) →
  (∀ k, 0 ≤ countOf (runningAppCounts (state m)) k) →
  ∀ q, q ∈ procs →
    runningProcs (state (logNewProcesses F now os procs m)) !! Pid q
    = match lowerName q with
      | Some n =>
          if set_aside_as F os n q
             || (instance_of F os n q
                 && (bool_decide (0 < countOf (runningAppCounts (state m)) n)
                     || bool_decide (Pid q ∈ map Pid (from_first_logged F os n procs))))
          then Some n else None
      | None => None
      end.
Proof.
  induction procs as [|p procs IH]; intros m Hnd Hled Hnn q Hq.
  { by apply elem_of_nil in Hq. }
  cbn [map] in Hnd. apply NoDup_cons in Hnd as [Hp Hnd].
  assert (Hl : runningProcs (state m) !! Pid p = None).
  { apply Hled. apply elem_of_cons; by left. }
  change (logNewProcesses F now os (p :: procs) m)
    with (logNewProcesses F now os procs (newProcess F now os m p)).
  assert (Hled1 : ∀ x, x ∈ procs →
            runningProcs (state (newProcess F now os m p)) !! Pid x = None).
  { intros x Hx. rewrite newProcess_ledger_other.
    - apply Hled. apply elem_of_cons; by right.
    - intros Heq. apply Hp. rewrite <- Heq. by apply list_elem_of_fmap_2. }
  destruct (decide (Pid q ∈ map Pid procs)) as [Hin|Hout].
  - (* a process further down the snapshot *)
    assert (Hq' : q ∈ procs).
    { apply elem_of_cons in Hq as [->|Hq]; [done|done]. }
    rewrite (IH _ Hnd Hled1 (newProcess_counts_nonneg F now os m p Hnn) q Hq').
    destruct (lowerName q) as [n|]; [|done].
    cbn [from_first_logged]. rewrite newProcess_classify, qualifies_classify by done.
    pose proof (Hnn n) as Hn0.
    generalize (classify_lowerName F os p).
    destruct (classify F os p) as [|n'|n' t]; intros Hlow; [done|done|].
    rewrite Hlow. destruct (decide (n' = n)) as [->|Hne].
    + rewrite (bool_decide_eq_true_2 (Some n = Some n)) by done.
      destruct (bool_decide_reflect (0 < countOf (runningAppCounts (state m)) n)) as [Hc|Hc].
      * cbn [mkMonitor state runningAppCounts]. rewrite countOf_insert, decide_True by done.
        by rewrite bool_decide_eq_true_2 by lia.
      * destruct t; cbn [andb]; [|by rewrite (bool_decide_eq_false_2 _ Hc)].
        cbn [mkMonitor state runningAppCounts]. rewrite countOf_insert, decide_True by done.
        rewrite bool_decide_eq_true_2 by lia.
        rewrite (bool_decide_eq_true_2 (Pid q ∈ map Pid (p :: procs))); [done|].
        cbn [map]. apply elem_of_cons; by right.
    + rewrite (bool_decide_eq_false_2 (Some n' = Some n)) by congruence.
      rewrite andb_false_r.
      destruct (bool_decide (0 < countOf (runningAppCounts (state m)) n'));
        [|destruct t]; cbn [mkMonitor state runningAppCounts];
        rewrite ?countOf_insert, ?decide_False by done; done.
  - (* the process at hand *)
    assert (q = p) as ->.
    { apply elem_of_cons in Hq as [->|Hq]; [done|].
      exfalso. apply Hout. by apply list_elem_of_fmap_2. }
    rewrite logNewProcesses_ledger_other by done.
    rewrite newProcess_classify by done.
    unfold set_aside_as, instance_of. cbn [from_first_logged].
    rewrite qualifies_classify.
    generalize (classify_lowerName F os p).
    destruct (classify F os p) as [|n'|n' t]; intros Hlow.
    + rewrite Hl. by destruct (lowerName p).
    + rewrite Hlow. cbn [mkMonitor state runningProcs].
      by rewrite lookup_insert_eq, String.eqb_refl.
    + rewrite Hlow, String.eqb_refl. cbn [orb andb].
      rewrite (bool_decide_eq_true_2 (Some n' = Some n')) by done.
      destruct (bool_decide (0 < countOf (runningAppCounts (state m)) n')).
      * cbn [mkMonitor state runningProcs orb]. by rewrite lookup_insert_eq.
      * destruct t; cbn [andb orb].
        -- cbn [mkMonitor state runningProcs map]. rewrite lookup_insert_eq.
           rewrite bool_decide_eq_true_2; [done|]. apply elem_of_cons; by left.
        -- rewrite Hl. rewrite bool_decide_eq_false_2; [done|].
           intros Hin. apply Hout. apply list_elem_of_fmap in Hin as (x & Hx & Hin).
           rewrite Hx. apply list_elem_of_fmap_2. by eapply from_first_logged_subset.
Qed.

Lemma onReset_scan m (procs : list Process) :
  (∀ p, p ∈ procs → runningProcs (state (onReset m)) !! Pid p = None)
  ∧ (∀ k, 0 ≤ countOf (runningAppCounts (state (onReset m))) k)
  ∧ (∀ k, bool_decide (0 < countOf (runningAppCounts (state (onReset m))) k) = false).
Proof.
  cbn [onReset state runningProcs runningAppCounts]. unfold countOf. split_and!.
  - intros p _. apply lookup_empty.
  - intros k. rewrite lookup_empty. cbn. lia.
  - intros k. rewrite lookup_empty. cbn. by apply bool_decide_eq_false_2.
Qed.

(** After a reset, the tick on a snapshot with pairwise distinct
    identifiers: counts, ledger, and the requests sent. *)
Lemma reset_tick_counts F now os m procs n :
  NoDup (map Pid procs) →
  countOf (runningAppCounts (state (onTick F now os (Some procs) (onReset m)))) n
  = Z.of_nat (instances_after_reset F os n procs).
Proof.
  intros Hnd. destruct (onReset_scan m procs) as (Hled & Hnn & Hz).
  rewrite onTick_after_reset, logNewProcesses_counts_scan by done. by rewrite Hz.
Qed.

Lemma reset_tick_ledger F now os m procs p :
  NoDup (map Pid procs) → p ∈ procs →
  runningProcs (state (onTick F now os (Some procs) (onReset m))) !! Pid p
  = ledger_after_reset F os procs p.
Proof.
  intros Hnd Hp. destruct (onReset_scan m procs) as (Hled & Hnn & Hz).
  rewrite onTick_after_reset, logNewProcesses_ledger_scan by done.
  unfold ledger_after_reset. destruct (lowerName p) as [n|]; [|done]. by rewrite Hz.
Qed.

Lemma reset_tick_ledger_outside F now os m procs i :
  i ∉ map Pid procs →
  runningProcs (state (onTick F now os (Some procs) (onReset m))) !! i = None.
Proof.
  intros Hi. rewrite onTick_after_reset, logNewProcesses_ledger_other by done.
  apply lookup_empty.
Qed.

Lemma reset_tick_writeCh F now os m procs :
  NoDup (map Pid procs) →
  writeCh (onTick F now os (Some procs) (onReset m))
  = writeCh m ++ map (insertOf now) (firstOfName F os [] procs).
Proof.
  intros Hnd. rewrite onTick_after_reset.
  rewrite (logNewProcesses_scan F now os procs [] (onReset m)); [done|done|].
  split_and!.
  - intros n. cbn. unfold countOf. by rewrite lookup_empty.
  - intros n. cbn. unfold countOf. rewrite lookup_empty. cbn.
    split; [lia|]. intros H. by apply elem_of_nil in H.
  - intros p _. cbn. apply lookup_empty.
Qed.

Lemma firstOfName_subset F os procs x : ∀ logged,
  x ∈ firstOfName F os logged procs → x ∈ procs.
Proof.
  induction procs as [|p procs IH]; intros logged; cbn [firstOfName]; [done|].
  destruct (lowerName p) as [n|].
  - destruct (qualifies F os p && negb (bool_decide (n ∈ logged))).
    + intros H. apply elem_of_cons in H as [->|H]; apply elem_of_cons; [by left|].
      right. by eapply IH.
    + intros H. apply elem_of_cons; right. by eapply IH.
  - intros H. apply elem_of_cons; right. by eapply IH.
Qed.

Lemma firstOfName_not_logged F os procs x n : ∀ logged,
  x ∈ firstOfName F os logged procs → lowerName x = Some n → n ∉ logged.
Proof.
  induction procs as [|p procs IH]; intros logged; cbn [firstOfName].
  { intros H. by apply elem_of_nil in H. }
  destruct (lowerName p) as [k|] eqn:Hk; [|apply IH].
  destruct (qualifies F os p && negb (bool_decide (k ∈ logged))) eqn:Hc; [|apply IH].
  intros H Hn. apply elem_of_cons in H as [->|H].
  - apply andb_true_iff in Hc as [_ Hc]. apply negb_true_iff in Hc.
    apply bool_decide_eq_false_1 in Hc. congruence.
  - intros Hin. apply (IH _ H Hn). apply elem_of_cons; by right.
Qed.

(** Once a process of lowercase name [n] that passes classification has
    been met, no later process of that name is among the inserted ones. *)
Lemma firstOfName_after_logged F os n pre p rest x : ∀ logged,
  qualifies F os p = true → lowerName p = Some n →
  x ∈ firstOfName F os logged (pre ++ p :: rest) →
  lowerName x = Some n →
  x ∈ pre ++ [p].
Proof.
  intros logged Hq Hn. revert logged.
  induction pre as [|y pre IH]; intros logged; cbn [app firstOfName].
  - rewrite Hn, Hq. cbn [andb].
    destruct (bool_decide (n ∈ logged)) eqn:Hl; cbn [negb].
    + intros Hx Hxn. exfalso. apply bool_decide_eq_true_1 in Hl.
      by apply (firstOfName_not_logged F os rest x n logged).
    + intros Hx Hxn. apply elem_of_cons in Hx as [->|Hx]; [apply elem_of_cons; by left|].
      exfalso. apply (firstOfName_not_logged F os rest x n (n :: logged)); [done..|].
      apply elem_of_cons; by left.
  - destruct (lowerName y) as [k|].
    + destruct (qualifies F os y && negb (bool_decide (k ∈ logged))).
      * intros Hx Hxn. apply elem_of_cons in Hx as [->|Hx]; [apply elem_of_cons; by left|].
        apply elem_of_cons; right. by eapply IH.
      * intros Hx Hxn. apply elem_of_cons; right. by eapply IH.
    + intros Hx Hxn. apply elem_of_cons; right. by eapply IH.
Qed.

Lemma instance_of_lowerName F os n q :
  instance_of F os n q = true → lowerName q = Some n ∧ set_aside_as F os n q = false.
Proof.
  unfold instance_of, set_aside_as. generalize (classify_lowerName F os q).
  destruct (classify F os q) as [|k|k t]; try done.
  intros Hlow Hk. apply String.eqb_eq in Hk as ->. done.
Qed.

Lemma is_insert_for_insertOf i now p :
  is_insert_for i (insertOf now p) = bool_decide (Pid p = i).
Proof. unfold insertOf. apply is_insert_for_insertEvent. Qed.

Lemma filter_instances_app F os n l1 l2 :
  length (List.filter (instance_of F os n) (l1 ++ l2))
  = (length (List.filter (instance_of F os n) l1)
     + length (List.filter (instance_of F os n) l2))%nat.
Proof. by rewrite List.filter_app, length_app. Qed.

(** A further process of a name already logged in the tick after a reset. *)
Lemma reset_tick_further_instance F now os m pre p mid q post n :
  NoDup (map Pid (pre ++ p :: mid ++ q :: post)) →
  qualifies F os p = true → lowerName p = Some n →
  instance_of F os n q = true →
  let m' := onTick F now os (Some (pre ++ p :: mid ++ q :: post)) (onReset m) in
  runningProcs (state m') !! Pid q = Some n
  ∧ (∃ new, writeCh m' = writeCh m ++ new ∧ no_insert_for (Pid q) new)
  ∧ countOf (runningAppCounts (state m')) n
    = countOf (runningAppCounts
                 (state (onTick F now os (Some (pre ++ p :: mid ++ post)) (onReset m)))) n
      + 1.
Proof.
  intros Hnd Hq Hn Hi m'. subst m'.
  destruct (instance_of_lowerName F os n q Hi) as [Hqn Hqa].
  assert (Hex : ∃ x, x ∈ pre ++ [p] ∧ qualifies F os x = true ∧ lowerName x = Some n).
  { exists p. split; [|done]. apply elem_of_app; right. apply elem_of_cons; by left. }
  assert (Hsplit : ∀ rest, pre ++ p :: rest = (pre ++ [p]) ++ rest).
  { intros rest. by rewrite <- app_assoc. }
  split_and!.
  - rewrite reset_tick_ledger; [|done|].
    + unfold ledger_after_reset. rewrite Hqn, Hqa, Hi. cbn [orb andb].
      rewrite bool_decide_eq_true_2; [done|].
      rewrite Hsplit, from_first_logged_app by done.
      apply list_elem_of_fmap_2. apply elem_of_app; right. apply elem_of_app; right.
      apply elem_of_cons; by left.
    + apply elem_of_app; right. apply elem_of_cons; right. apply elem_of_app; right.
      apply elem_of_cons; by left.
  - rewrite reset_tick_writeCh by done. eexists. split; [done|].
    unfold no_insert_for. apply Forall_map, Forall_forall. intros x Hx.
    rewrite is_insert_for_insertOf. apply bool_decide_eq_false_2. intros Hpid.
    assert (Hxp : x ∈ pre ++ p :: mid ++ q :: post) by by eapply firstOfName_subset.
    assert (x = q) as ->.
    { rewrite Hsplit in Hnd, Hxp. rewrite map_app in Hnd.
      apply NoDup_app in Hnd as (_ & Hdis & Hnd2).
      apply elem_of_app in Hxp as [Hxp|Hxp].
      - exfalso. apply (Hdis (Pid x)); [by apply list_elem_of_fmap_2|].
        rewrite Hpid. apply list_elem_of_fmap_2. apply elem_of_app; right.
        apply elem_of_cons; by left.
      - rewrite map_app in Hnd2. apply NoDup_app in Hnd2 as (_ & Hdis2 & Hnd3).
        apply elem_of_app in Hxp as [Hxp|Hxp].
        + exfalso. apply (Hdis2 (Pid x)); [by apply list_elem_of_fmap_2|].
          rewrite Hpid. apply list_elem_of_fmap_2. apply elem_of_cons; by left.
        + apply elem_of_cons in Hxp as [Hxp|Hxp]; [done|].
          exfalso. cbn [map] in Hnd3. apply NoDup_cons in Hnd3 as [Hnq _].
          apply Hnq. rewrite <- Hpid. by apply list_elem_of_fmap_2. }
    pose proof (firstOfName_after_logged F os n pre p (mid ++ q :: post) q [] Hq Hn Hx Hqn)
      as Hin.
    rewrite Hsplit, map_app in Hnd. apply NoDup_app in Hnd as (_ & Hdis & _).
    apply (Hdis (Pid q)); [by apply list_elem_of_fmap_2|].
    apply list_elem_of_fmap_2. apply elem_of_app; right. apply elem_of_cons; by left.
  - assert (Hnd' : NoDup (map Pid (pre ++ p :: mid ++ post))).
    { eapply sublist_NoDup; [exact Hnd|]. apply (fmap_sublist Pid).
      apply sublist_app; [done|]. apply sublist_skip. apply sublist_app; [done|].
      by apply sublist_cons. }
    rewrite !reset_tick_counts by done. unfold instances_after_reset.
    rewrite (Hsplit (mid ++ q :: post)), (Hsplit (mid ++ post)).
    rewrite (from_first_logged_app F os n (pre ++ [p]) (mid ++ q :: post)) by done.
    rewrite (from_first_logged_app F os n (pre ++ [p]) (mid ++ post)) by done.
    rewrite !filter_instances_app. cbn [List.filter]. rewrite Hi. cbn [length]. lia.
Qed.

(** A process that [ShouldExclude] rejects takes no part in the counts nor
    in the requests of the tick after a reset. *)
Lemma set_aside_as_inv F os n q :
  set_aside_as F os n q = true →
  lowerName q = Some n ∧ qualifies F os q = false ∧ ∀ k, instance_of F os k q = false.
Proof.
  unfold set_aside_as, instance_of. rewrite qualifies_classify.
  generalize (classify_lowerName F os q).
  destruct (classify F os q) as [|k|k t]; try done.
  intros Hlow Hk. apply String.eqb_eq in Hk as ->. done.
Qed.

Lemma instances_after_reset_skip F os k pre q post :
  qualifies F os q = false → instance_of F os k q = false →
  instances_after_reset F os k (pre ++ q :: post)
  = instances_after_reset F os k (pre ++ post).
Proof.
  intros Hq Hi. unfold instances_after_reset.
  induction pre as [|y pre IH]; cbn [app from_first_logged].
  - by rewrite Hq.
  - destruct (qualifies F os y && bool_decide (lowerName y = Some k)); [|done].
    cbn [List.filter]. rewrite !List.filter_app. cbn [List.filter]. by rewrite Hi.
Qed.

Lemma firstOfName_skip F os pre q post : ∀ logged,
  qualifies F os q = false →
  firstOfName F os logged (pre ++ q :: post) = firstOfName F os logged (pre ++ post).
Proof.
  intros logged Hq. revert logged.
  induction pre as [|y pre IH]; intros logged; cbn [app firstOfName].
  - rewrite Hq. by destruct (lowerName q).
  - destruct (lowerName y) as [k|]; [|done].
    destruct (qualifies F os y && negb (bool_decide (k ∈ logged))); by rewrite IH.
Qed.

Lemma reset_tick_set_aside F now os m pre q post n :
  NoDup (map Pid (pre ++ q :: post)) →
  set_aside_as F os n q = true →
  let m' := onTick F now os (Some (pre ++ q :: post)) (onReset m) in
  let m0 := onTick F now os (Some (pre ++ post)) (onReset m) in
  runningProcs (state m') !! Pid q = Some n
  ∧ writeCh m' = writeCh m0
  ∧ ∀ k, countOf (runningAppCounts (state m')) k = countOf (runningAppCounts (state m0)) k.
Proof.
  intros Hnd Ha m' m0. subst m' m0.
  destruct (set_aside_as_inv F os n q Ha) as (Hlow & Hq & Hi).
  assert (Hnd' : NoDup (map Pid (pre ++ post))).
  { eapply sublist_NoDup; [exact Hnd|]. apply (fmap_sublist Pid).
    apply sublist_app; [done|]. by apply sublist_cons. }
  split_and!.
  - rewrite reset_tick_ledger; [|done|].
    + unfold ledger_after_reset. by rewrite Hlow, Ha.
    + apply elem_of_app; right. apply elem_of_cons; by left.
  - rewrite !reset_tick_writeCh by done. by rewrite firstOfName_skip.
  - intros k. rewrite !reset_tick_counts by done.
    by rewrite instances_after_reset_skip.
Qed.

(** C6, amended. Handling a reset empties the ledger and the counts and
    changes nothing else: the queue, the table (so open rows stay open),
    the writer's log are as before.  On the next tick, for a snapshot with
    pairwise distinct identifiers, the requests sent are exactly one insert
    for the first process that passes classification of each lowercase
    name, in snapshot order, and no end-write.  After that tick the count
    of a name is the number of its instances from the first inserted one
    on, the ledger holds, under their lowercase names, exactly the
    processes of the snapshot that [ShouldExclude] rejects or that are
    instances at or after the first inserted process of their name, and
    nothing else.  So a further instance of a name already logged in that
    tick gets no insert, enters the ledger and raises the count of the name
    by one, and a process that [ShouldExclude] rejects enters the ledger
    and leaves requests and counts as they are without it. *)
Theorem reset_frame_and_next_tick F faults :
  (∀ s,
     let s' := System.act F faults s (System.Select Reset) in
     state (System.monitor s') = {| runningProcs := ∅; runningAppCounts := ∅ |}
     ∧ writeCh (System.monitor s') = writeCh (System.monitor s)
     ∧ System.writer s' = System.writer s
     ∧ ∀ i, open_count i (db (System.writer s')) = open_count i (db (System.writer s)))
  ∧ (∀ now os m procs,
       NoDup (map Pid procs) →
       writeCh (onTick F now os (Some procs) (onReset m))
       = writeCh m ++ map (insertOf now) (firstOfName F os [] procs))
  ∧ (∀ now os m pre p post,
       qualifies F os p = true →
       Pid p ∉ map Pid pre →
       lowerName p ∉ map lowerName pre →
       ∃ before after,
         writeCh (onTick F now os (Some (pre ++ p :: post)) (onReset m))
         = writeCh m ++ before ++ insertOf now p :: after)
  ∧ (∀ now os m procs,
       NoDup (map Pid procs) →
       let m' := onTick F now os (Some procs) (onReset m) in
       (∀ n, countOf (runningAppCounts (state m')) n
             = Z.of_nat (instances_after_reset F os n procs))
       ∧ (∀ p, p ∈ procs →
               runningProcs (state m') !! Pid p = ledger_after_reset F os procs p)
       ∧ (∀ i, i ∉ map Pid procs → runningProcs (state m') !! i = None))
  ∧ (∀ now os m pre p mid q post n,
       NoDup (map Pid (pre ++ p :: mid ++ q :: post)) →
       qualifies F os p = true → lowerName p = Some n →
       instance_of F os n q = true →
       let m' := onTick F now os (Some (pre ++ p :: mid ++ q :: post)) (onReset m) in
       runningProcs (state m') !! Pid q = Some n
       ∧ (∃ new, writeCh m' = writeCh m ++ new ∧ no_insert_for (Pid q) new)
       ∧ countOf (runningAppCounts (state m')) n
         = countOf (runningAppCounts
                      (state (onTick F now os (Some (pre ++ p :: mid ++ post))
                                (onReset m)))) n
           + 1)
  ∧ (∀ now os m pre q post n,
       NoDup (map Pid (pre ++ q :: post)) →
       set_aside_as F os n q = true →
       let m' := onTick F now os (Some (pre ++ q :: post)) (onReset m) in
       let m0 := onTick F now os (Some (pre ++ post)) (onReset m) in
       runningProcs (state m') !! Pid q = Some n
       ∧ writeCh m' = writeCh m0
       ∧ ∀ k, countOf (runningAppCounts (state m')) k
              = countOf (runningAppCounts (state m0)) k).
Proof.
  split_and!.
  - intros s s'. subst s'. by cbn.
  - intros now os m procs Hnd. by apply reset_tick_writeCh.
  - intros now os m pre p post Hq Hpid Hname.
    destruct (qualifies_inv F os p Hq) as (name & exePath & Hn & Hne & He & Hx & Ht).
    rewrite onTick_after_reset, logNewProcesses_app.
    set (m1 := logNewProcesses F now os pre (onReset m)).
    destruct (logNewProcesses_writeCh F now os pre (onReset m)) as (before & Hb & _).
    fold m1 in Hb. cbn [logNewProcesses foldl].
    change (foldl (newProcess F now os) (newProcess F now os m1 p) post)
      with (logNewProcesses F now os post (newProcess F now os m1 p)).
    destruct (logNewProcesses_writeCh F now os post (newProcess F now os m1 p))
      as (after & Ha & _).
    exists before, after. rewrite Ha.
    rewrite (newProcess_logged F now os m1 p name exePath); try done.
    + cbn [mkMonitor writeCh]. rewrite Hb. cbn [onReset writeCh].
      by rewrite <- !app_assoc.
    + destruct (runningProcs (state m1) !! Pid p) eqn:Hl; [|done].
      destruct (logNewProcesses_ledger_from F now os pre (Pid p) (onReset m)) as [[? H]|H].
      * fold m1. by eexists.
      * cbn in H. by rewrite lookup_empty in H.
      * done.
    + destruct (decide (0 < countOf (runningAppCounts (state m1)) (ToLower name)))
        as [Hpos|]; [|lia].
      destruct (logNewProcesses_count_from F now os pre (ToLower name) (onReset m) Hpos)
        as [H|H].
      * cbn in H. unfold countOf in H. rewrite lookup_empty in H. simpl in H. lia.
      * exfalso. apply Hname. unfold lowerName at 1. by rewrite Hn.
  - intros now os m procs Hnd m'. subst m'. split_and!.
    + intros n. by apply reset_tick_counts.
    + intros p Hp. by apply reset_tick_ledger.
    + intros i Hi. by apply reset_tick_ledger_outside.
  - intros now os m pre p mid q post n Hnd Hq Hn Hi.
    by apply reset_tick_further_instance.
  - intros now os m pre q post n Hnd Ha. by apply reset_tick_set_aside.
Qed.

Lemma reset_frame_and_next_tick_witness :
  writeCh (onTick rules_windows.rules 9 desktop
             (Some [userProcess 10 "editor.exe"; userProcess 11 "browser.exe";
                    userProcess 12 "Editor.exe"; userProcess 13 "player.exe"])
             (onReset (mkMonitor {[10 := "editor.exe"; 11 := "browser.exe";
                                   12 := "editor.exe"; 13 := "player.exe"]}
                         {["editor.exe" := 2; "browser.exe" := 1; "player.exe" := 1]}
                         [])))
  = [insertOf 9 (userProcess 10 "editor.exe"); insertOf 9 (userProcess 11 "browser.exe");
     insertOf 9 (userProcess 13 "player.exe")]
  ∧ (∃ before after,
      writeCh (onTick rules_windows.rules 9 desktop
                 (Some ([userProcess 10 "editor.exe"; userProcess 11 "browser.exe"]
                        ++ userProcess 13 "player.exe" :: []))
                 (onReset (fresh [])))
      = [] ++ before ++ insertOf 9 (userProcess 13 "player.exe") :: after)
  ∧ (let m' := onTick rules_windows.rules 9 desktop
                 (Some ([] ++ userProcess 10 "editor.exe"
                           :: [userProcess 11 "browser.exe"]
                           ++ userProcess 12 "Editor.exe"
                           :: [systemProcess 14 "editor.exe"]))
                 (onReset (fresh [])) in
     runningProcs (state m') !! 12 = Some "editor.exe"
     ∧ (∃ new, writeCh m' = [] ++ new ∧ no_insert_for 12 new)
     ∧ countOf (runningAppCounts (state m')) "editor.exe" = 1 + 1)
  ∧ (let m' := onTick rules_windows.rules 9 desktop
                 (Some ([userProcess 10 "editor.exe"; userProcess 12 "Editor.exe"]
                        ++ systemProcess 14 "editor.exe" :: []))
                 (onReset (fresh [])) in
     runningProcs (state m') !! 14 = Some "editor.exe"
     ∧ writeCh m' = [insertOf 9 (userProcess 10 "editor.exe")]
     ∧ countOf (runningAppCounts (state m')) "editor.exe" = 2).
Proof.
  destruct (reset_frame_and_next_tick rules_windows.rules (λ _, None))
    as (_ & Hexact & H & _ & Hmore & Haside).
  split_and!.
  - rewrite Hexact; [vm_compute; reflexivity|].
    apply (bool_decide_unpack _). vm_compute. exact I.
  - apply (H 9 desktop (fresh [])
             [userProcess 10 "editor.exe"; userProcess 11 "browser.exe"]
             (userProcess 13 "player.exe") []).
    + vm_compute; reflexivity.
    + vm_compute. intros H'. repeat (apply elem_of_cons in H' as [H'|H']; [discriminate|]).
      by apply elem_of_nil in H'.
    + vm_compute. intros H'. repeat (apply elem_of_cons in H' as [H'|H']; [discriminate|]).
      by apply elem_of_nil in H'.
  - destruct (Hmore 9 desktop (fresh []) [] (userProcess 10 "editor.exe")
                [userProcess 11 "browser.exe"] (userProcess 12 "Editor.exe")
                [systemProcess 14 "editor.exe"] "editor.exe") as (H1 & H2 & H3).
    + apply (bool_decide_unpack _). vm_compute. exact I.
    + vm_compute; reflexivity.
    + vm_compute; reflexivity.
    + vm_compute; reflexivity.
    + cbv zeta. split_and!; [exact H1|exact H2|].
      rewrite H3. vm_compute. reflexivity.
  - destruct (Haside 9 desktop (fresh [])
                [userProcess 10 "editor.exe"; userProcess 12 "Editor.exe"]
                (systemProcess 14 "editor.exe") [] "editor.exe") as (H1 & H2 & H3).
    + apply (bool_decide_unpack _). vm_compute. exact I.
    + vm_compute; reflexivity.
    + cbv zeta. split_and!; [exact H1| |].
      * rewrite H2. vm_compute. reflexivity.
      * rewrite H3. vm_compute. reflexivity.
Defined.

(** ** The two variants *)

Lemma BoolMap_member_insert {K} `{Countable K} (m : gmap K bool) k k' :
  BoolMap.member (<[k := true]> m) k'
  = if decide (k = k') then true else BoolMap.member m k'.
Proof. unfold BoolMap.member. rewrite lookup_insert. by destruct (decide (k = k')). Qed.

Lemma BoolMap_onTick_after_reset F now os procs m :
  BoolMap.onTick F now os (Some procs) (BoolMap.onReset m)
  = BoolMap.logNewProcesses F now os procs (BoolMap.onReset m).
Proof.
  unfold BoolMap.onTick, BoolMap.logEndedProcesses. cbn [BoolMap.onReset BoolMap.runningProcs].
  by rewrite map_to_list_empty.
Qed.

Lemma first_tick_sim_weaken seen p mr mb :
  first_tick_sim seen mr mb → first_tick_sim (Pid p :: seen) mr mb.
Proof.
  intros (Hch & Hnn & Hlog & Hled). split_and!; try done.
  intros pid Hpid. apply Hled. intros Hin. apply Hpid. apply elem_of_cons; by right.
Qed.

Lemma first_tick_sim_record seen p nameLower mr mb :
  first_tick_sim seen mr mb →
  first_tick_sim (Pid p :: seen)
    (mkMonitor (<[Pid p := nameLower]> (runningProcs (state mr)))
       (runningAppCounts (state mr)) (writeCh mr))
    mb.
Proof.
  intros (Hch & Hnn & Hlog & Hled). split_and!; try done.
  intros pid Hpid. cbn [mkMonitor state runningProcs].
  assert (Pid p ≠ pid) by (intros <-; apply Hpid; apply elem_of_cons; by left).
  rewrite lookup_insert_ne by done. apply Hled.
  intros Hin. apply Hpid. apply elem_of_cons; by right.
Qed.

Lemma first_tick_sim_step F now os seen mr mb p :
  Pid p ∉ seen →
  first_tick_sim seen mr mb →
  first_tick_sim (Pid p :: seen) (newProcess F now os mr p) (BoolMap.newProcess F now os mb p).
Proof.
  intros Hp Hsim. pose proof Hsim as (Hch & Hnn & Hlog & Hled).
  destruct (Hled _ Hp) as [Hr Hb].
  unfold newProcess, BoolMap.newProcess, BoolMap.shouldLogProcess.
  rewrite Hr, Hb. cbn [negb].
  destruct (Name p) as [name|] eqn:Hname; [|by apply first_tick_sim_weaken].
  destruct (String.eqb name ""); [by apply first_tick_sim_weaken|].
  destruct (Exe p) as [exePath|] eqn:Hexe.
  2: { destruct (BoolMap.member (BoolMap.loggedApps mb) (ToLower name));
         by apply first_tick_sim_weaken. }
  destruct (BoolMap.member (BoolMap.loggedApps mb) (ToLower name)) eqn:Hlogged.
  - apply Hlog in Hlogged as Hpos.
    destruct (app_filter.ShouldExclude F os exePath (Some p)).
    { by apply first_tick_sim_record. }
    rewrite bool_decide_eq_true_2 by done.
    split_and!; cbn [mkMonitor state runningProcs runningAppCounts writeCh].
    + done.
    + intros n. rewrite countOf_insert. destruct (decide (ToLower name = n)); [lia|done].
    + intros n. rewrite countOf_insert. destruct (decide (ToLower name = n)) as [<-|].
      * split; [done|lia].
      * apply Hlog.
    + intros pid Hpid.
      assert (Pid p ≠ pid) by (intros <-; apply Hpid; apply elem_of_cons; by left).
      rewrite lookup_insert_ne by done. apply Hled.
      intros Hin. apply Hpid. apply elem_of_cons; by right.
  - assert (Hzero : countOf (runningAppCounts (state mr)) (ToLower name) = 0).
    { pose proof (Hnn (ToLower name)) as H0.
      destruct (decide (0 < countOf (runningAppCounts (state mr)) (ToLower name))) as [Hpos|];
        [|lia].
      apply Hlog in Hpos. congruence. }
    destruct (app_filter.ShouldExclude F os exePath (Some p)).
    { by apply first_tick_sim_record. }
    rewrite bool_decide_eq_false_2 by lia.
    destruct (app_filter.ShouldTrack F os exePath (Some p)); cbn [negb];
      [|by apply first_tick_sim_weaken].
    split_and!; cbn [mkMonitor state runningProcs runningAppCounts writeCh
                       BoolMap.runningProcs BoolMap.loggedApps BoolMap.writeCh default].
    + by rewrite Hch.
    + intros n. rewrite countOf_insert. destruct (decide (ToLower name = n)); [lia|done].
    + intros n. rewrite countOf_insert, BoolMap_member_insert.
      destruct (decide (ToLower name = n)); [split; [done|lia] | apply Hlog].
    + intros pid Hpid.
      assert (Pid p ≠ pid) by (intros <-; apply Hpid; apply elem_of_cons; by left).
      rewrite lookup_insert_ne, BoolMap_member_insert, decide_False by done.
      apply Hled. intros Hin. apply Hpid. apply elem_of_cons; by right.
Qed.

Lemma first_tick_sim_fold F now os procs : ∀ seen mr mb,
  NoDup (map Pid procs) →
  (∀ pid, pid ∈ map Pid procs → pid ∉ seen) →
  first_tick_sim seen mr mb →
  writeCh (logNewProcesses F now os procs mr)
  = BoolMap.writeCh (BoolMap.logNewProcesses F now os procs mb).
Proof.
  unfold logNewProcesses, BoolMap.logNewProcesses.
  induction procs as [|p procs IH]; intros seen mr mb Hnd Hseen Hsim; cbn [foldl].
  - by destruct Hsim.
  - cbn [map] in Hnd. apply NoDup_cons in Hnd as [Hp Hnd].
    apply (IH (Pid p :: seen)); [done| |].
    + intros pid Hin Hin'. apply elem_of_cons in Hin' as [->|Hin']; [done|].
      apply (Hseen pid); [|done]. cbn [map]. apply elem_of_cons; by right.
    + apply first_tick_sim_step; [|done]. apply Hseen. cbn [map]. apply elem_of_cons; by left.
Qed.

Lemma stays_logged_refl n m :
  BoolMap.member (BoolMap.loggedApps m) n = true → stays_logged n m m.
Proof. intros H. split; [done|]. exists []. by rewrite app_nil_r. Qed.

Lemma stays_logged_same n m m' :
  BoolMap.loggedApps m' = BoolMap.loggedApps m →
  BoolMap.writeCh m' = BoolMap.writeCh m →
  BoolMap.member (BoolMap.loggedApps m) n = true → stays_logged n m m'.
Proof.
  intros Hl Hw H. split; [by rewrite Hl|]. exists []. by rewrite app_nil_r.
Qed.

Lemma stays_logged_trans n m m' m'' :
  stays_logged n m m' → stays_logged n m' m'' → stays_logged n m m''.
Proof.
  intros [_ (ws & Hw & Hall)] [Hl (ws' & Hw' & Hall')]. split; [done|].
  exists (ws ++ ws'). split; [by rewrite Hw', Hw, app_assoc|by apply Forall_app].
Qed.

Lemma is_insert_named_updateEnd n now pid : is_insert_named n (updateEnd now pid) = false.
Proof. unfold is_insert_named. by rewrite is_insert_updateEnd. Qed.

Lemma BoolMap_endProcess_stays n now cur m pid :
  BoolMap.member (BoolMap.loggedApps m) n = true →
  stays_logged n m (BoolMap.endProcess now cur m pid).
Proof.
  intros H. unfold BoolMap.endProcess.
  destruct (negb (BoolMap.member cur pid)); [|by apply stays_logged_refl].
  split; [done|]. exists [updateEnd now pid]. split; [done|].
  constructor; [apply is_insert_named_updateEnd|constructor].
Qed.

Lemma BoolMap_newProcess_stays n F now os m p :
  BoolMap.member (BoolMap.loggedApps m) n = true →
  stays_logged n m (BoolMap.newProcess F now os m p).
Proof.
  intros H. unfold BoolMap.newProcess, BoolMap.shouldLogProcess.
  destruct (negb (BoolMap.member (BoolMap.runningProcs m) (Pid p)));
    [|by apply stays_logged_refl].
  destruct (Name p) as [name|]; [|by apply stays_logged_same].
  destruct (String.eqb name ""); [by apply stays_logged_same|].
  destruct (BoolMap.member (BoolMap.loggedApps m) (ToLower name)) eqn:Hlogged;
    [by apply stays_logged_same|].
  destruct (Exe p) as [exePath|]; [|by apply stays_logged_same].
  destruct (app_filter.ShouldExclude F os exePath (Some p)); [by apply stays_logged_same|].
  destruct (app_filter.ShouldTrack F os exePath (Some p)); cbn [negb];
    [|by apply stays_logged_same].
  assert (Hne : ToLower name ≠ n) by congruence.
  split; cbn [BoolMap.loggedApps BoolMap.writeCh].
  - by rewrite BoolMap_member_insert, decide_False.
  - eexists. split; [apply EnqueueWrite_insertEvent|].
    constructor; [|constructor].
    unfold is_insert_named. rewrite is_insert_insertEvent.
    cbv beta iota delta [insertEvent Args id andb from_option].
    by destruct (String.eqb_spec (ToLower name) n).
Qed.

Lemma BoolMap_fold_stays {A} (f : BoolMap.Monitor → A → BoolMap.Monitor) n l :
  (∀ m x, BoolMap.member (BoolMap.loggedApps m) n = true → stays_logged n m (f m x)) →
  ∀ m, BoolMap.member (BoolMap.loggedApps m) n = true → stays_logged n m (foldl f m l).
Proof.
  intros Hstep. induction l as [|x l IH]; intros m H; cbn [foldl].
  - by apply stays_logged_refl.
  - pose proof (Hstep m x H) as Hs. eapply stays_logged_trans; [exact Hs|].
    apply IH. by destruct Hs.
Qed.

Lemma BoolMap_loop_stays n F events : ∀ m,
  no_reset_events events = true →
  BoolMap.member (BoolMap.loggedApps m) n = true →
  stays_logged n m (BoolMap.loop F m events).
Proof.
  unfold BoolMap.loop. induction events as [|e events IH]; intros m Hnr H; cbn [foldl].
  - by apply stays_logged_refl.
  - cbn [no_reset_events forallb] in Hnr. apply andb_true_iff in Hnr as [He Hnr].
    destruct e as [now os [procs|]|]; [| |done]; cbn [BoolMap.handle BoolMap.onTick].
    + assert (Hs : stays_logged n m
                (BoolMap.logNewProcesses F now os procs
                   (BoolMap.logEndedProcesses now (BoolMap.currentProcsOf procs) m))).
      { eapply stays_logged_trans.
        - apply (BoolMap_fold_stays (BoolMap.endProcess now (BoolMap.currentProcsOf procs)));
            [|done]. intros. by apply BoolMap_endProcess_stays.
        - apply (BoolMap_fold_stays (BoolMap.newProcess F now os)).
          + intros. by apply BoolMap_newProcess_stays.
          + by apply (BoolMap_fold_stays
                        (BoolMap.endProcess now (BoolMap.currentProcsOf procs)));
              [intros; by apply BoolMap_endProcess_stays|]. }
      eapply stays_logged_trans; [exact Hs|]. apply IH; [done|]. by destruct Hs.
    + by apply IH.
Qed.

(** C10, as stated, fails: after the only instance of a name has ended, the
    reference-counting variant inserts again for a fresh instance of that
    name and the boolean-map variant does not. *)
Lemma variants_differ_after_all_instances_ended :
  let events :=
    [Tick 1 desktop (Some [userProcess 10 "editor.exe"]);
     Tick 2 desktop (Some []);
     Tick 3 desktop (Some [userProcess 11 "editor.exe"])] in
  writeCh (RefCount.StartProcessEventLogger rules_windows.rules (λ _, true) 0 (Some []) events)
  = [insertOf 1 (userProcess 10 "editor.exe"); updateEnd 2 10;
     insertOf 3 (userProcess 11 "editor.exe")]
  ∧ BoolMap.writeCh
      (BoolMap.StartProcessEventLogger rules_windows.rules (λ _, true) 0 (Some []) events)
    = [insertOf 1 (userProcess 10 "editor.exe"); updateEnd 2 10]
  ∧ writeCh (RefCount.StartProcessEventLogger rules_windows.rules (λ _, true) 0 (Some []) events)
    ≠ BoolMap.writeCh
        (BoolMap.StartProcessEventLogger rules_windows.rules (λ _, true) 0 (Some []) events).
Proof. vm_compute. split_and!; [reflexivity | reflexivity | discriminate]. Qed.

(** C10, amended. The two variants are not equivalent in general.  They
    send the same requests on the tick that follows a reset (or a start on
    an empty ledger), for a snapshot whose process identifiers are
    distinct.  They part afterwards: in the boolean-map variant a name once
    logged stays logged and gets no further insert until a reset, whereas
    the reference-counting variant inserts for a new qualifying process
    whenever the count of its name is not positive (all instances ended). *)
Theorem variants_agree_on_first_tick F :
  (∀ now os procs mr mb,
     NoDup (map Pid procs) →
     writeCh mr = BoolMap.writeCh mb →
     writeCh (RefCount.onTick F now os (Some procs) (RefCount.onReset mr))
     = BoolMap.writeCh (BoolMap.onTick F now os (Some procs) (BoolMap.onReset mb)))
  ∧ (∀ events m n,
       no_reset_events events = true →
       BoolMap.member (BoolMap.loggedApps m) n = true →
       ∃ ws, BoolMap.writeCh (BoolMap.loop F m events) = BoolMap.writeCh m ++ ws
             ∧ Forall (λ w, is_insert_named n w = false) ws)
  ∧ (∀ now os m p name,
       qualifies F os p = true → Name p = Some name →
       runningProcs (state m) !! Pid p = None →
       countOf (runningAppCounts (state m)) (ToLower name) ≤ 0 →
       writeCh (RefCount.newProcess F now os m p) = writeCh m ++ [insertOf now p]).
Proof.
  split_and!.
  - intros now os procs mr mb Hnd Hch.
    rewrite onTick_after_reset, BoolMap_onTick_after_reset.
    apply (first_tick_sim_fold F now os procs []); [done| |].
    + intros pid _. apply not_elem_of_nil.
    + by split_and!.
  - intros events m n Hnr H. by destruct (BoolMap_loop_stays n F events m Hnr H).
  - intros now os m p name Hq Hn Hl Hc.
    destruct (qualifies_inv F os p Hq) as (name' & exePath & Hn' & Hne & He & Hx & Ht).
    assert (name' = name) as -> by congruence.
    by rewrite (newProcess_logged F now os m p name exePath).
Qed.

Lemma variants_agree_on_first_tick_witness :
  writeCh (RefCount.onTick rules_windows.rules 4 desktop
             (Some [userProcess 10 "editor.exe"; systemProcess 4 "svchost.exe";
                    userProcess 11 "Editor.exe"])
             (RefCount.onReset (fresh [])))
  = BoolMap.writeCh
      (BoolMap.onTick rules_windows.rules 4 desktop
         (Some [userProcess 10 "editor.exe"; systemProcess 4 "svchost.exe";
                userProcess 11 "Editor.exe"])
         (BoolMap.onReset (BoolMap.fresh [])))
  ∧ (∃ ws,
       BoolMap.writeCh
         (BoolMap.loop rules_windows.rules
            {| BoolMap.runningProcs := ∅; BoolMap.loggedApps := {["editor.exe" := true]};
               BoolMap.writeCh := [] |}
            [Tick 3 desktop (Some [userProcess 11 "editor.exe"])])
       = [] ++ ws
       ∧ Forall (λ w, is_insert_named "editor.exe" w = false) ws)
  ∧ writeCh (RefCount.newProcess rules_windows.rules 3 desktop (fresh [])
               (userProcess 11 "editor.exe"))
    = [] ++ [insertOf 3 (userProcess 11 "editor.exe")].
Proof.
  destruct (variants_agree_on_first_tick rules_windows.rules) as (H1 & H2 & H3).
  split_and!.
  - apply H1.
    + apply (bool_decide_unpack _). vm_compute. exact I.
    + reflexivity.
  - apply (H2 [Tick 3 desktop (Some [userProcess 11 "editor.exe"])]
             {| BoolMap.runningProcs := ∅; BoolMap.loggedApps := {["editor.exe" := true]};
                BoolMap.writeCh := [] |} "editor.exe").
    + reflexivity.
    + vm_compute. reflexivity.
  - apply (H3 3 desktop (fresh []) (userProcess 11 "editor.exe") "editor.exe").
    + vm_compute. reflexivity.
    + reflexivity.
    + reflexivity.
    + vm_compute. discriminate.
Defined.

(** ** Counts and ledger entries *)

Lemma filter_length_Permutation {A} (f : A → bool) (l l' : list A) :
  l ≡ₚ l' → length (List.filter f l) = length (List.filter f l').
Proof.
  induction 1 as [|x l l' _ IH|x y l|l l' l'' _ IH1 _ IH2]; simpl.
  - done.
  - destruct (f x); simpl; by rewrite IH.
  - destruct (f x), (f y); simpl; done.
  - by rewrite IH1.
Qed.

Lemma entriesOf_empty n : entriesOf ∅ n = 0%nat.
Proof. unfold entriesOf. by rewrite map_to_list_empty. Qed.

Lemma entriesOf_insert procs pid name n :
  procs !! pid = None →
  entriesOf (<[pid := name]> procs) n
  = ((if String.eqb name n then 1 else 0) + entriesOf procs n)%nat.
Proof.
  intros H. unfold entriesOf.
  rewrite (filter_length_Permutation _ _ _ (map_to_list_insert procs pid name H)).
  cbn [List.filter snd]. by destruct (String.eqb name n).
Qed.

Lemma entriesOf_delete procs pid name n :
  procs !! pid = Some name →
  entriesOf procs n
  = ((if String.eqb name n then 1 else 0) + entriesOf (delete pid procs) n)%nat.
Proof.
  intros H. unfold entriesOf.
  rewrite <- (filter_length_Permutation _ _ _ (map_to_list_delete procs pid name H)).
  cbn [List.filter snd]. by destruct (String.eqb name n).
Qed.

Lemma endProcess_ledger now cur m pid name pid' :
  pid' ≠ pid →
  runningProcs (state (endProcess now cur m (pid, name))) !! pid'
  = runningProcs (state m) !! pid'.
Proof.
  intros Hne. destruct (member cur pid) eqn:Hc.
  - by rewrite endProcess_present.
  - rewrite endProcess_gone by done. cbn [mkMonitor state runningProcs].
    by rewrite lookup_delete_ne.
Qed.

(** The loop of [logEndedProcesses] visits entries that are still in the
    ledger when they are visited. *)
Lemma endedIn_invariant (P : Monitor → Prop) now cur :
  (∀ m pid name, runningProcs (state m) !! pid = Some name →
     P m → P (endProcess now cur m (pid, name))) →
  ∀ order m,
    NoDup (map fst order) →
    (∀ pid name, (pid, name) ∈ order → runningProcs (state m) !! pid = Some name) →
    P m → P (endedIn now cur order m).
Proof.
  intros Hstep. unfold endedIn.
  induction order as [|[pid name] order IH]; intros m Hnd Hin HP; cbn [foldl]; [done|].
  cbn [map fst] in Hnd. apply NoDup_cons in Hnd as [Hpid Hnd].
  apply IH; [done| |].
  - intros pid' name' Hin'. rewrite endProcess_ledger.
    + apply Hin. apply elem_of_cons; by right.
    + intros ->. apply Hpid.
      apply (list_elem_of_fmap_2 fst _ (pid, name')). exact Hin'.
  - apply Hstep; [|done]. apply Hin. apply elem_of_cons; by left.
Qed.

Lemma logEndedProcesses_invariant (P : Monitor → Prop) now cur m :
  (∀ m pid name, runningProcs (state m) !! pid = Some name →
     P m → P (endProcess now cur m (pid, name))) →
  P m → P (logEndedProcesses now cur m).
Proof.
  intros Hstep HP. unfold logEndedProcesses.
  apply (endedIn_invariant P now cur Hstep); [| |done].
  - apply NoDup_fst_map_to_list.
  - intros pid name Hin. by apply elem_of_map_to_list.
Qed.

Lemma endProcess_counts_match n now cur m pid name :
  runningProcs (state m) !! pid = Some name →
  counts_match n (state m) → counts_match n (state (endProcess now cur m (pid, name))).
Proof.
  intros Hled Hinv. destruct (member cur pid) eqn:Hc.
  { by rewrite endProcess_present. }
  unfold counts_match in *. rewrite endProcess_countOf by done.
  rewrite endProcess_gone by done. cbn [mkMonitor state runningProcs].
  rewrite (entriesOf_delete _ pid name n Hled) in Hinv.
  destruct (decide (name = n)) as [->|Hne].
  - rewrite String.eqb_refl in Hinv. rewrite Hinv. unfold decrement.
    case_bool_decide; lia.
  - destruct (String.eqb_spec name n); [done|]. rewrite Hinv. lia.
Qed.

Lemma counts_match_add n st pid name :
  runningProcs st !! pid = None →
  counts_match n st →
  counts_match n
    {| runningProcs := <[pid := name]> (runningProcs st);
       runningAppCounts := <[name := countOf (runningAppCounts st) name + 1]>
                             (runningAppCounts st) |}.
Proof.
  intros Hl Hinv. unfold counts_match in *. cbn [runningProcs runningAppCounts].
  rewrite countOf_insert, entriesOf_insert by done.
  destruct (decide (name = n)) as [->|Hne].
  - rewrite String.eqb_refl. lia.
  - destruct (String.eqb_spec name n); [done|]. lia.
Qed.

Lemma newProcess_counts_match n F now os m p :
  excluded_as F os n p = false →
  counts_match n (state m) → counts_match n (state (newProcess F now os m p)).
Proof.
  intros Hex Hinv. unfold excluded_as in Hex.
  destruct (newProcess_view F now os m p)
    as [|name exe Hl Hn He Hx|name exe Hl Hn He Hx Hc|name exe Hl Hn Hne He Hx Hc Ht];
    [done| |by apply counts_match_add..].
  rewrite Hn, He, Hx, andb_true_r in Hex.
  unfold counts_match in *. cbn [mkMonitor state runningProcs runningAppCounts].
  rewrite entriesOf_insert by done. rewrite Hex. lia.
Qed.

Lemma logNewProcesses_counts_match n F now os procs : ∀ m,
  forallb (λ p, negb (excluded_as F os n p)) procs = true →
  counts_match n (state m) → counts_match n (state (logNewProcesses F now os procs m)).
Proof.
  unfold logNewProcesses. induction procs as [|p procs IH]; intros m Hex Hinv;
    cbn [foldl]; [done|].
  cbn [forallb] in Hex. apply andb_true_iff in Hex as [Hp Hex].
  apply IH; [done|]. apply newProcess_counts_match; [|done]. by apply negb_true_iff.
Qed.

Lemma counts_match_empty n :
  counts_match n {| runningProcs := ∅; runningAppCounts := ∅ |}.
Proof.
  unfold counts_match, countOf. cbn [runningProcs runningAppCounts].
  by rewrite lookup_empty, entriesOf_empty.
Qed.

Lemma loop_counts_match n F events : ∀ m,
  never_excluded_as F n events = true →
  counts_match n (state m) → counts_match n (state (loop F m events)).
Proof.
  unfold loop. induction events as [|e events IH]; intros m Hex Hinv; cbn [foldl]; [done|].
  cbn [never_excluded_as forallb] in Hex. apply andb_true_iff in Hex as [He Hex].
  apply IH; [done|]. destruct e as [now os [procs|]|]; cbn [handle onTick]; [|done|].
  - apply logNewProcesses_counts_match; [done|].
    apply (logEndedProcesses_invariant (λ m, counts_match n (state m))); [|done].
    intros m' pid name. apply endProcess_counts_match.
  - apply counts_match_empty.
Qed.

Lemma seedRows_counts_match n PidExists now rows : ∀ m,
  NoDup (omap (fmap fst) rows) →
  (∀ pid, pid ∈ omap (fmap fst) rows → runningProcs (state m) !! pid = None) →
  counts_match n (state m) →
  counts_match n (state (foldl (seedRow PidExists now) m rows)).
Proof.
  induction rows as [|[[pid name]|] rows IH]; intros m Hnd Hfresh Hinv; cbn [foldl]; [done| |].
  - cbn [omap fmap option_fmap option_map fst] in Hnd, Hfresh.
    apply NoDup_cons in Hnd as [Hpid Hnd].
    assert (Hl : runningProcs (state m) !! pid = None).
    { apply Hfresh. apply elem_of_cons; by left. }
    apply IH; [done| |].
    + intros pid' Hin. unfold seedRow.
      destruct (PidExists pid); cbn [state runningProcs].
      * rewrite lookup_insert_ne by (intros ->; done).
        apply Hfresh. apply elem_of_cons; by right.
      * apply Hfresh. apply elem_of_cons; by right.
    + unfold seedRow. destruct (PidExists pid); cbn [state]; [|done].
      by apply counts_match_add.
  - apply IH; done.
Qed.

(** C1, as stated, fails: a process excluded by classification is recorded
    in the ledger under its name while the count of the name is untouched. *)
Lemma excluded_entry_is_not_counted :
  let st := state (StartProcessEventLogger rules_windows.rules (λ _, true) 0 (Some [])
                     [Tick 1 desktop (Some [systemProcess 4 "svchost.exe"])]) in
  runningProcs st !! 4 = Some "svchost.exe"
  ∧ entriesOf (runningProcs st) "svchost.exe" = 1%nat
  ∧ countOf (runningAppCounts st) "svchost.exe" = 0
  ∧ ¬ counts_match "svchost.exe" st.
Proof.
  assert (H : let st := state (StartProcessEventLogger rules_windows.rules (λ _, true) 0
                                  (Some [])
                                  [Tick 1 desktop (Some [systemProcess 4 "svchost.exe"])]) in
              runningProcs st !! 4 = Some "svchost.exe"
              ∧ entriesOf (runningProcs st) "svchost.exe" = 1%nat
              ∧ countOf (runningAppCounts st) "svchost.exe" = 0).
  { vm_compute. split_and!; reflexivity. }
  cbv zeta in *. destruct H as (H1 & H2 & H3). split_and!; [exact H1|exact H2|exact H3|].
  unfold counts_match. rewrite H2, H3. lia.
Qed.

(** Two open rows of one live identifier are counted twice at startup for
    a single ledger entry: the seeding needs distinct identifiers. *)
Lemma duplicate_seed_rows_counted_twice :
  let st := state (StartProcessEventLogger rules_windows.rules (λ _, true) 0
                     (Some [Some (10, "editor.exe"); Some (10, "editor.exe")]) []) in
  entriesOf (runningProcs st) "editor.exe" = 1%nat
  ∧ countOf (runningAppCounts st) "editor.exe" = 2.
Proof. vm_compute. split; reflexivity. Qed.

(** C1, amended. In every state the monitor loop reaches after startup
    seeding from rows with pairwise distinct identifiers and any sequence of
    ticks and resets, the count stored for a lowercase name equals the
    number of ledger entries recorded under that name, for every name under
    which no process excluded by classification was observed. *)
Theorem counts_match_ledger F PidExists now rows events n :
  seed_distinct rows = true →
  never_excluded_as F n events = true →
  counts_match n (state (StartProcessEventLogger F PidExists now rows events)).
Proof.
  intros Hseed Hex. unfold StartProcessEventLogger.
  apply loop_counts_match; [done|].
  unfold seed_distinct in Hseed. apply bool_decide_eq_true_1 in Hseed.
  destruct rows as [rows|]; cbn [initializeRunningProcs]; [|apply counts_match_empty].
  apply seedRows_counts_match; [done| |apply counts_match_empty].
  intros pid _. cbn. apply lookup_empty.
Qed.

Lemma counts_match_ledger_witness :
  counts_match "editor.exe" (state (StartProcessEventLogger rules_windows.rules
    (λ pid, bool_decide (pid = 10)) 0
    (Some [Some (10, "Editor.exe"); Some (12, "gone.exe")])
    [Tick 1 desktop (Some [userProcess 10 "Editor.exe"; userProcess 11 "editor.exe";
                           systemProcess 4 "svchost.exe"]);
     Tick 2 desktop (Some [userProcess 11 "editor.exe"]);
     Reset;
     Tick 3 desktop (Some [userProcess 11 "editor.exe"; userProcess 13 "browser.exe"])])).
Proof.
  apply counts_match_ledger; vm_compute; reflexivity.
Defined.

(** ** Open rows of the table *)

Lemma sql_exec_updateEnd db0 t p :
  sql_exec db0 (updateEnd t p) = Some (map (close_row p t) db0).
Proof. unfold sql_exec, updateEnd. cbn [Query Args]. by rewrite String.eqb_refl. Qed.

Lemma sql_exec_insertEvent db0 name p parentName exePath t :
  sql_exec db0 (insertEvent name p parentName exePath t)
  = Some (db0 ++ [newRow name p parentName exePath t]).
Proof.
  unfold sql_exec, insertEvent. cbn [Query Args].
  by rewrite insert_not_updateEnd, String.eqb_refl.
Qed.

Lemma exec_all_snoc db0 ch req :
  exec_all db0 (ch ++ [req])
  = default (exec_all db0 ch) (sql_exec (exec_all db0 ch) req).
Proof. unfold exec_all. by rewrite foldl_app. Qed.

Lemma exec_all_cons db0 ch req :
  exec_all db0 (req :: ch) = exec_all (default db0 (sql_exec db0 req)) ch.
Proof. reflexivity. Qed.

Lemma is_open_close_row i p t r :
  is_open i (close_row p t r) = if decide (i = p) then false else is_open i r.
Proof.
  unfold close_row. destruct (is_open p r) eqn:Hp.
  - unfold is_open in *. cbn [pid end_time].
    apply andb_true_iff in Hp as [Hp _]. apply bool_decide_eq_true_1 in Hp.
    rewrite (bool_decide_eq_false_2 (Some t = None)) by done. rewrite andb_false_r.
    destruct (decide (i = p)); [done|].
    rewrite (bool_decide_eq_false_2 (pid r = i)) by congruence. done.
  - destruct (decide (i = p)) as [->|]; done.
Qed.

Lemma open_count_close i p t db0 :
  open_count i (map (close_row p t) db0) = if decide (i = p) then 0%nat else open_count i db0.
Proof.
  unfold open_count. induction db0 as [|r db0 IH]; cbn [map List.filter].
  - by destruct (decide (i = p)).
  - rewrite is_open_close_row. destruct (decide (i = p)); [done|].
    destruct (is_open i r); cbn [length]; by rewrite IH.
Qed.

Lemma open_count_snoc i db0 r :
  open_count i (db0 ++ [r]) = (open_count i db0 + if is_open i r then 1 else 0)%nat.
Proof.
  unfold open_count. rewrite List.filter_app, length_app. cbn [List.filter].
  by destruct (is_open i r).
Qed.

Lemma is_open_newRow i name p parentName exePath t :
  is_open i (newRow name p parentName exePath t) = bool_decide (p = i).
Proof. unfold is_open, newRow. cbn [pid end_time]. by rewrite andb_true_r. Qed.

Lemma open_count_pos_open_rows i db0 :
  (0 < open_count i db0)%nat → i ∈ map fst (open_rows db0).
Proof.
  unfold open_count, open_rows. induction db0 as [|r db0 IH]; cbn [List.filter].
  - cbn. lia.
  - unfold is_open at 1. destruct (bool_decide (end_time r = None)) eqn:He.
    + cbn [map fst]. destruct (bool_decide (pid r = i)) eqn:Hp; cbn [andb length]; intros H.
      * apply bool_decide_eq_true_1 in Hp. apply elem_of_cons; by left.
      * apply elem_of_cons; right. by apply IH.
    + rewrite andb_false_r. exact IH.
Qed.

Lemma take_snoc_cases {A} (l : list A) x k :
  take k (l ++ [x]) = l ++ [x] ∨ take k (l ++ [x]) = take k l.
Proof.
  destruct (decide (k ≤ length l)%nat).
  - right. by rewrite take_app_le.
  - left. apply take_ge. rewrite length_app. cbn. lia.
Qed.

(** Sending one more request keeps the invariant when the table after that
    request has unique open rows, all tracked. *)
Lemma store_inv_enqueue db0 m m' req :
  writeCh m' = writeCh m ++ [req] →
  store_inv db0 m →
  open_rows_unique (exec_all db0 (writeCh m ++ [req])) →
  open_tracked (state m') (exec_all db0 (writeCh m ++ [req])) →
  store_inv db0 m'.
Proof.
  intros Hch [Hpre _] Hu Ht. split; rewrite Hch; [|done].
  intros k. destruct (take_snoc_cases (writeCh m) req k) as [-> | ->]; [done|apply Hpre].
Qed.

Lemma endProcess_store_inv db0 now cur m pid name :
  store_inv db0 m → store_inv db0 (endProcess now cur m (pid, name)).
Proof.
  intros Hinv. destruct (member cur pid) eqn:Hc.
  { by rewrite endProcess_present. }
  rewrite endProcess_gone by done. pose proof Hinv as [Hpre Htr].
  eapply (store_inv_enqueue db0 m _ (updateEnd now pid)); [reflexivity|done| |].
  - intros i. rewrite exec_all_snoc, sql_exec_updateEnd. cbn [from_option id].
    rewrite open_count_close. destruct (decide (i = pid)); [lia|].
    specialize (Hpre (length (writeCh m))). rewrite take_ge in Hpre by lia. apply Hpre.
  - intros i. rewrite exec_all_snoc, sql_exec_updateEnd. cbn [from_option id].
    rewrite open_count_close. destruct (decide (i = pid)); [lia|].
    intros Hpos. cbn [mkMonitor state runningProcs].
    rewrite lookup_delete_ne by done. by apply Htr.
Qed.

Lemma open_tracked_insert st db0 pid name counts' :
  open_tracked st db0 →
  open_tracked {| runningProcs := <[pid := name]> (runningProcs st);
                  runningAppCounts := counts' |} db0.
Proof.
  intros Htr i Hpos. cbn [runningProcs]. rewrite lookup_insert.
  destruct (decide (pid = i)); [by eexists|by apply Htr].
Qed.

Lemma newProcess_store_inv db0 F now os m p :
  store_inv db0 m → store_inv db0 (newProcess F now os m p).
Proof.
  intros Hinv. pose proof Hinv as [Hpre Htr].
  destruct (newProcess_view F now os m p)
    as [|name exe Hl Hn He Hx|name exe Hl Hn He Hx Hc|name exe Hl Hn Hne He Hx Hc Ht];
    [done| | |].
  - split; [done|]. cbn [mkMonitor state writeCh]. by apply open_tracked_insert.
  - split; [done|]. cbn [mkMonitor state writeCh]. by apply open_tracked_insert.
  - assert (Hzero : open_count (Pid p) (exec_all db0 (writeCh m)) = 0%nat).
    { destruct (open_count (Pid p) (exec_all db0 (writeCh m))) eqn:Hoc; [done|].
      destruct (Htr (Pid p)) as [x Hx']; [lia|]. congruence. }
    eapply (store_inv_enqueue db0 m _ (insertEvent name (Pid p) (parentNameOf p) exe now));
      [reflexivity|done| |].
    + intros i. rewrite exec_all_snoc, sql_exec_insertEvent. cbn [from_option id].
      rewrite open_count_snoc, is_open_newRow. case_bool_decide as Hi.
      * subst i. lia.
      * specialize (Hpre (length (writeCh m))). rewrite take_ge in Hpre by lia.
        specialize (Hpre i). lia.
    + intros i. rewrite exec_all_snoc, sql_exec_insertEvent. cbn [from_option id].
      rewrite open_count_snoc, is_open_newRow. cbn [mkMonitor state runningProcs].
      rewrite lookup_insert. destruct (decide (Pid p = i)) as [->|Hne']; [by eexists|].
      rewrite bool_decide_eq_false_2 by done. intros Hpos. apply Htr. lia.
Qed.

Lemma logNewProcesses_store_inv db0 F now os procs : ∀ m,
  store_inv db0 m → store_inv db0 (logNewProcesses F now os procs m).
Proof.
  unfold logNewProcesses. induction procs as [|p procs IH]; intros m Hinv; cbn [foldl]; [done|].
  by apply IH, newProcess_store_inv.
Qed.

Lemma onTick_store_inv db0 F now os procs m :
  store_inv db0 m → store_inv db0 (onTick F now os procs m).
Proof.
  intros Hinv. destruct procs as [procs|]; cbn [onTick]; [|done].
  apply logNewProcesses_store_inv.
  apply (logEndedProcesses_invariant (store_inv db0)); [|done].
  intros m' pid name _. apply endProcess_store_inv.
Qed.

Lemma seed_store_inv db0 PidExists now : ∀ rows m,
  seed_inv db0 rows m → store_inv db0 (seed PidExists now m rows).
Proof.
  induction rows as [|[pid name] rows IH]; intros m [Hpre Htr].
  - split; [done|]. intros i Hpos. destruct (Htr i Hpos) as [H|H]; [done|].
    by apply elem_of_nil in H.
  - change (seed PidExists now m ((pid, name) :: rows))
      with (seed PidExists now (seedRow PidExists now m (Some (pid, name))) rows).
    apply IH. unfold seedRow. destruct (PidExists pid).
    + split; [done|]. cbn [state writeCh runningProcs]. intros i Hpos.
      rewrite lookup_insert. destruct (decide (pid = i)) as [->|Hne]; [left; by eexists|].
      destruct (Htr i Hpos) as [H|H]; [by left|]. cbn [map fst] in H.
      apply elem_of_cons in H as [->|H]; [done|by right].
    + unfold seed_inv. cbn [state writeCh]. rewrite EnqueueWrite_updateEnd. split.
      * intros k. destruct (take_snoc_cases (writeCh m) (updateEnd now pid) k) as [-> | ->];
          [|apply Hpre].
        intros i. rewrite exec_all_snoc, sql_exec_updateEnd. cbn [from_option id].
        rewrite open_count_close. destruct (decide (i = pid)); [lia|].
        specialize (Hpre (length (writeCh m))). rewrite take_ge in Hpre by lia. apply Hpre.
      * intros i. rewrite exec_all_snoc, sql_exec_updateEnd. cbn [from_option id].
        rewrite open_count_close. destruct (decide (i = pid)) as [->|Hne]; [lia|].
        intros Hpos. destruct (Htr i Hpos) as [H|H]; [by left|]. cbn [map fst] in H.
        apply elem_of_cons in H as [->|H]; [done|by right].
Qed.

Lemma boot_store_inv PidExists now db0 :
  open_rows_unique db0 →
  store_inv db0 (System.monitor (System.boot PidExists now db0)).
Proof.
  intros Hu. unfold System.boot. cbn [System.monitor initializeRunningProcs].
  rewrite select_open_rows.
  change (foldl (seedRow PidExists now) (fresh []) (map Some (open_rows db0)))
    with (seed PidExists now (fresh []) (open_rows db0)).
  apply seed_store_inv. split.
  - intros k. cbn [fresh writeCh]. by rewrite take_nil.
  - intros i Hpos. right. by apply open_count_pos_open_rows.
Qed.

Lemma writerStep_no_fault_db w req :
  db (writerStep no_fault w req) = default (db w) (sql_exec (db w) req).
Proof. unfold writerStep, Exec, no_fault. by destruct (sql_exec (db w) req). Qed.

Lemma act_store_inv F s a :
  no_reset [a] = true →
  store_inv (db (System.writer s)) (System.monitor s) →
  store_inv (db (System.writer (System.act F no_fault s a)))
    (System.monitor (System.act F no_fault s a)).
Proof.
  intros Ha Hinv. destruct a as [[now os procs|]|]; [|done|].
  - cbn [System.act System.monitor System.writer RefCount.handle].
    by apply onTick_store_inv.
  - unfold System.act. destruct (writeCh (System.monitor s)) as [|req ch] eqn:Hch; [done|].
    cbn [System.monitor System.writer]. rewrite writerStep_no_fault_db.
    destruct Hinv as [Hpre Htr]. rewrite Hch in Hpre, Htr. split; cbn [writeCh state].
    + intros k. rewrite <- exec_all_cons. apply (Hpre (S k)).
    + by rewrite <- exec_all_cons.
Qed.

Lemma exec_store_inv F actions : ∀ s,
  no_reset actions = true →
  store_inv (db (System.writer s)) (System.monitor s) →
  store_inv (db (System.writer (System.exec F no_fault s actions)))
    (System.monitor (System.exec F no_fault s actions)).
Proof.
  unfold System.exec. induction actions as [|a actions IH]; intros s Hnr Hinv;
    cbn [foldl]; [done|].
  cbn [no_reset forallb] in Hnr. apply andb_true_iff in Hnr as [Ha Hnr].
  apply IH; [done|]. apply act_store_inv; [|done].
  cbn [no_reset forallb]. by rewrite Ha.
Qed.

(** C2, as stated, fails: a reset while a logged process keeps running
    makes the next tick insert a second row for its identifier while the
    first is still open. *)
Lemma reset_reinserts_open_row :
  let s := System.exec rules_windows.rules no_fault (System.boot (λ _, true) 0 [])
             [System.Select (Tick 1 desktop (Some [userProcess 10 "editor.exe"]));
              System.Select Reset;
              System.Select (Tick 2 desktop (Some [userProcess 10 "editor.exe"]));
              System.WriterRecv; System.WriterRecv] in
  open_count 10 (db (System.writer s)) = 2%nat
  ∧ ¬ open_rows_unique (db (System.writer s)).
Proof.
  assert (H : open_count 10 (db (System.writer
     (System.exec rules_windows.rules no_fault (System.boot (λ _, true) 0 [])
        [System.Select (Tick 1 desktop (Some [userProcess 10 "editor.exe"]));
         System.Select Reset;
         System.Select (Tick 2 desktop (Some [userProcess 10 "editor.exe"]));
         System.WriterRecv; System.WriterRecv]))) = 2%nat).
  { vm_compute. reflexivity. }
  cbv zeta. split; [exact H|]. intros Hu. specialize (Hu 10). rewrite H in Hu. lia.
Qed.

(** *** Open rows after a reset *)

Lemma exec_all_app db0 ch1 ch2 :
  exec_all db0 (ch1 ++ ch2) = exec_all (exec_all db0 ch1) ch2.
Proof. unfold exec_all. apply foldl_app. Qed.

(** Once the writer has received the pending requests, the table is the
    one they give when executed in order. *)
Lemma settle_db F : ∀ ch s,
  writeCh (System.monitor s) = ch →
  db (System.writer (settle F s)) = exec_all (db (System.writer s)) ch.
Proof.
  unfold settle, System.exec.
  induction ch as [|req ch IH]; intros s Hch; rewrite Hch; cbn [length replicate foldl].
  - done.
  - assert (Hact : System.act F no_fault s System.WriterRecv
                   = {| System.monitor := {| state := state (System.monitor s);
                                             writeCh := ch |};
                        System.writer := writerStep no_fault (System.writer s) req |}).
    { unfold System.act. by rewrite Hch. }
    rewrite Hact. specialize (IH _ (eq_refl : writeCh (System.monitor
      {| System.monitor := {| state := state (System.monitor s); writeCh := ch |};
         System.writer := writerStep no_fault (System.writer s) req |}) = ch)).
    cbn [System.monitor writeCh] in IH. rewrite IH.
    cbn [System.writer]. by rewrite writerStep_no_fault_db, exec_all_cons.
Qed.

Lemma open_count_inserts i now xs : ∀ db0,
  open_count i (exec_all db0 (map (insertOf now) xs))
  = (open_count i db0 + length (List.filter (λ x, bool_decide (Pid x = i)) xs))%nat.
Proof.
  induction xs as [|x xs IH]; intros db0; cbn [map List.filter].
  - change (exec_all db0 []) with db0. cbn [length]. lia.
  - rewrite exec_all_cons. unfold insertOf at 1. rewrite sql_exec_insertEvent.
    cbn [from_option id]. rewrite IH, open_count_snoc, is_open_newRow.
    destruct (bool_decide (Pid x = i)); cbn [length]; lia.
Qed.

Lemma count_pid_NoDup i (xs : list Process) :
  NoDup (map Pid xs) →
  length (List.filter (λ x, bool_decide (Pid x = i)) xs)
  = if bool_decide (i ∈ map Pid xs) then 1%nat else 0%nat.
Proof.
  induction xs as [|x xs IH]; intros Hnd; cbn [map List.filter].
  - rewrite bool_decide_eq_false_2; [done|]. intros H. by apply elem_of_nil in H.
  - cbn [map] in Hnd. apply NoDup_cons in Hnd as [Hx Hnd]. specialize (IH Hnd).
    destruct (bool_decide_reflect (Pid x = i)) as [Hp|Hp].
    + subst i. cbn [length]. rewrite IH.
      rewrite (bool_decide_eq_false_2 _ Hx).
      rewrite bool_decide_eq_true_2; [done|]. apply elem_of_cons; by left.
    + rewrite IH. destruct (bool_decide (i ∈ map Pid xs)) eqn:Hin.
      * apply bool_decide_eq_true_1 in Hin.
        rewrite bool_decide_eq_true_2; [done|]. apply elem_of_cons; by right.
      * apply bool_decide_eq_false_1 in Hin.
        rewrite bool_decide_eq_false_2; [done|].
        intros H. apply elem_of_cons in H as [H|H]; congruence.
Qed.

Lemma firstOfName_sublist F os procs : ∀ logged,
  firstOfName F os logged procs `sublist_of` procs.
Proof.
  induction procs as [|p procs IH]; intros logged; cbn [firstOfName]; [done|].
  destruct (lowerName p) as [n|]; [|by apply sublist_cons].
  destruct (qualifies F os p && negb (bool_decide (n ∈ logged)));
    [by apply sublist_skip|by apply sublist_cons].
Qed.

(** A reset and the tick after it close no row and open one row for each
    process the tick inserts. *)
Lemma reset_tick_open_count F s now os procs i :
  NoDup (map Pid procs) →
  open_count i
    (db (System.writer
           (settle F (System.exec F no_fault s (reset_then_tick now os procs)))))
  = (open_count i (db (System.writer (settle F s)))
     + if bool_decide (i ∈ map Pid (firstOfName F os [] procs)) then 1 else 0)%nat.
Proof.
  intros Hnd.
  rewrite (settle_db F _ _ eq_refl), (settle_db F _ s eq_refl).
  unfold reset_then_tick, System.exec. cbn [foldl System.act System.monitor System.writer handle].
  rewrite reset_tick_writeCh, exec_all_app, open_count_inserts by done.
  rewrite count_pid_NoDup; [done|].
  eapply sublist_NoDup; [exact Hnd|]. apply (fmap_sublist Pid), firstOfName_sublist.
Qed.

(** C2, amended. Starting from a table in which every process identifier
    has at most one open row, along any interleaving of monitor events and
    writer receives with no reset signal and no failed execution, every
    state of the table has at most one open row per process identifier.
    A reset is where this stops: the tick after it (snapshot with pairwise
    distinct identifiers) closes no row and, once the writer has received
    its requests, has added one open row for the identifier of each process
    it inserts, the first process that passes classification of each
    lowercase name, and none for any other identifier; so a process that is
    inserted again while it has an open row then has two, and one that is
    not inserted again keeps the rows it had. *)
Theorem open_rows_unique_without_reset F :
  (∀ PidExists now db0 actions,
     open_rows_unique db0 →
     no_reset actions = true →
     open_rows_unique
       (db (System.writer
              (System.exec F no_fault (System.boot PidExists now db0) actions))))
  ∧ (∀ s now os procs i,
       NoDup (map Pid procs) →
       open_count i
         (db (System.writer
                (settle F (System.exec F no_fault s (reset_then_tick now os procs)))))
       = (open_count i (db (System.writer (settle F s)))
          + if bool_decide (i ∈ map Pid (firstOfName F os [] procs)) then 1 else 0)%nat)
  ∧ (∀ s now os procs p,
       NoDup (map Pid procs) →
       p ∈ firstOfName F os [] procs →
       (0 < open_count (Pid p) (db (System.writer (settle F s))))%nat →
       ¬ open_rows_unique
           (db (System.writer
                  (settle F (System.exec F no_fault s (reset_then_tick now os procs)))))).
Proof.
  split_and!.
  - intros PidExists now db0 actions Hu Hnr.
    destruct (exec_store_inv F actions (System.boot PidExists now db0) Hnr) as [Hpre _].
    + cbn [System.boot System.writer db]. by apply boot_store_inv.
    + specialize (Hpre 0%nat). by rewrite take_0 in Hpre.
  - intros s now os procs i Hnd. by apply reset_tick_open_count.
  - intros s now os procs p Hnd Hp Hopen Hu. specialize (Hu (Pid p)).
    rewrite reset_tick_open_count in Hu by done.
    rewrite bool_decide_eq_true_2 in Hu; [lia|]. by apply list_elem_of_fmap_2.
Qed.

Lemma open_rows_unique_without_reset_witness :
  open_rows_unique
    (db (System.writer
       (System.exec rules_windows.rules no_fault
          (System.boot (λ pid, bool_decide (pid = 10)) 0
             [newRow "editor.exe" 10 "explorer.exe" "C:\Program Files\App\editor.exe" 1;
              newRow "gone.exe" 12 "explorer.exe" "C:\Program Files\App\gone.exe" 1])
          [System.WriterRecv;
           System.Select (Tick 2 desktop (Some [userProcess 10 "editor.exe";
                                                 userProcess 11 "browser.exe"]));
           System.WriterRecv;
           System.Select (Tick 3 desktop (Some [userProcess 11 "browser.exe"]));
           System.Select (Tick 4 desktop (Some [userProcess 10 "browser.exe"]));
           System.WriterRecv; System.WriterRecv])))
  ∧ (let s := System.exec rules_windows.rules no_fault (System.boot (λ _, true) 0 [])
                [System.Select (Tick 1 desktop (Some [userProcess 9 "Editor.exe";
                                                       userProcess 10 "editor.exe";
                                                       userProcess 11 "browser.exe"]))] in
     let s' := settle rules_windows.rules
                 (System.exec rules_windows.rules no_fault s
                    (reset_then_tick 2 desktop
                       [userProcess 10 "editor.exe"; userProcess 9 "Editor.exe";
                        userProcess 11 "browser.exe"])) in
     open_count 10 (db (System.writer s')) = 1%nat
     ∧ open_count 9 (db (System.writer s')) = 1%nat
     ∧ open_count 11 (db (System.writer s')) = 2%nat
     ∧ ¬ open_rows_unique (db (System.writer s'))).
Proof.
  destruct (open_rows_unique_without_reset rules_windows.rules) as (Hinv & Hcount & Hbreak).
  split.
  - apply Hinv.
    + intros i. unfold open_count. cbn [List.filter]. unfold is_open.
      cbn [pid end_time newRow].
      repeat case_bool_decide; cbn [andb length]; lia.
    + vm_compute. reflexivity.
  - cbv zeta. split_and!.
    + rewrite Hcount; [vm_compute; reflexivity|].
      apply (bool_decide_unpack _). vm_compute. exact I.
    + rewrite Hcount; [vm_compute; reflexivity|].
      apply (bool_decide_unpack _). vm_compute. exact I.
    + rewrite Hcount; [vm_compute; reflexivity|].
      apply (bool_decide_unpack _). vm_compute. exact I.
    + apply (Hbreak _ 2 desktop _ (userProcess 11 "browser.exe")).
      * apply (bool_decide_unpack _). vm_compute. exact I.
      * vm_compute. apply elem_of_cons; right. apply elem_of_cons; by left.
      * vm_compute. lia.
Defined.

(** * Further properties of the monitor loop *)

(** ** Stored counts *)

Lemma countOf_nonneg st n : counts_positive st → 0 ≤ countOf (runningAppCounts st) n.
Proof.
  intros H. unfold countOf. destruct (runningAppCounts st !! n) as [c|] eqn:Hc; simpl; [|lia].
  specialize (H n c Hc). lia.
Qed.

Lemma counts_positive_add st pid name :
  counts_positive st →
  counts_positive
    {| runningProcs := <[pid := name]> (runningProcs st);
       runningAppCounts := <[name := countOf (runningAppCounts st) name + 1]>
                             (runningAppCounts st) |}.
Proof.
  intros H n c. cbn [runningAppCounts]. rewrite lookup_insert.
  destruct (decide (name = n)) as [->|Hne].
  - intros [= <-]. pose proof (countOf_nonneg st n H). lia.
  - apply H.
Qed.

Lemma endProcess_counts_positive now cur m e :
  counts_positive (state m) → counts_positive (state (endProcess now cur m e)).
Proof.
  intros H. destruct e as [pid name]. destruct (member cur pid) eqn:Hc.
  { by rewrite endProcess_present. }
  rewrite endProcess_gone by done. cbn [mkMonitor state]. intros n c.
  cbn [runningAppCounts]. rewrite countOf_insert, decide_True by done.
  case_bool_decide as Hle.
  - rewrite lookup_delete. destruct (decide (name = n)); [done|].
    rewrite lookup_insert_ne by done. apply H.
  - rewrite lookup_insert. destruct (decide (name = n)); [intros [= <-]; lia|apply H].
Qed.

Lemma newProcess_counts_positive F now os m p :
  counts_positive (state m) → counts_positive (state (newProcess F now os m p)).
Proof.
  intros H. destruct (newProcess_view F now os m p) as [|name exe|name exe|name exe];
    cbn [mkMonitor state]; [done|done|by apply counts_positive_add..].
Qed.

Lemma seedRow_counts_positive PidExists now m row :
  counts_positive (state m) → counts_positive (state (seedRow PidExists now m row)).
Proof.
  intros H. unfold seedRow. destruct row as [[pid name]|]; [|done].
  destruct (PidExists pid); cbn [state]; [by apply counts_positive_add|done].
Qed.

Lemma foldl_invariant {A B} (P : A → Prop) (f : A → B → A) l :
  (∀ a b, P a → P (f a b)) → ∀ a, P a → P (foldl f a l).
Proof.
  intros Hstep. induction l as [|b l IH]; intros a Ha; cbn [foldl]; [done|].
  by apply IH, Hstep.
Qed.

Lemma counts_positive_empty :
  counts_positive {| runningProcs := ∅; runningAppCounts := ∅ |}.
Proof. intros n c. cbn. by rewrite lookup_empty. Qed.

Lemma handle_counts_positive F m e :
  counts_positive (state m) → counts_positive (state (handle F m e)).
Proof.
  intros H. destruct e as [now os [procs|]|]; cbn [handle onTick]; [|done|].
  - apply (foldl_invariant (λ m, counts_positive (state m))).
    + intros a b. apply newProcess_counts_positive.
    + apply (foldl_invariant (λ m, counts_positive (state m))); [|done].
      intros a b. apply endProcess_counts_positive.
  - apply counts_positive_empty.
Qed.

(** X1. In every state the loop reaches (any seeding rows, any ticks and
    resets) a stored count is at least one: a count that would fall to zero
    or below is removed from the mapping, never stored. *)
Theorem stored_counts_are_positive F PidExists now rows events :
  counts_positive (state (StartProcessEventLogger F PidExists now rows events)).
Proof.
  unfold StartProcessEventLogger, loop.
  apply (foldl_invariant (λ m, counts_positive (state m))).
  - intros a b. apply handle_counts_positive.
  - destruct rows as [rows|]; cbn [initializeRunningProcs]; [|apply counts_positive_empty].
    apply (foldl_invariant (λ m, counts_positive (state m))).
    + intros a b. apply seedRow_counts_positive.
    + apply counts_positive_empty.
Qed.

(** ** The count never exceeds the entries *)

Lemma counts_bounded_add n st pid name :
  runningProcs st !! pid = None →
  counts_bounded n st →
  counts_bounded n
    {| runningProcs := <[pid := name]> (runningProcs st);
       runningAppCounts := <[name := countOf (runningAppCounts st) name + 1]>
                             (runningAppCounts st) |}.
Proof.
  intros Hl Hinv. unfold counts_bounded in *. cbn [runningProcs runningAppCounts].
  rewrite countOf_insert, entriesOf_insert by done.
  destruct (decide (name = n)) as [->|Hne].
  - rewrite String.eqb_refl. lia.
  - destruct (String.eqb_spec name n); [done|]. lia.
Qed.

Lemma endProcess_counts_bounded n now cur m pid name :
  runningProcs (state m) !! pid = Some name →
  counts_bounded n (state m) → counts_bounded n (state (endProcess now cur m (pid, name))).
Proof.
  intros Hled Hinv. destruct (member cur pid) eqn:Hc.
  { by rewrite endProcess_present. }
  unfold counts_bounded in *. rewrite endProcess_countOf by done.
  rewrite endProcess_gone by done. cbn [mkMonitor state runningProcs].
  rewrite (entriesOf_delete _ pid name n Hled) in Hinv.
  destruct (decide (name = n)) as [->|Hne].
  - rewrite String.eqb_refl in Hinv. unfold decrement. case_bool_decide; lia.
  - destruct (String.eqb_spec name n); [done|]. lia.
Qed.

Lemma newProcess_counts_bounded n F now os m p :
  counts_bounded n (state m) → counts_bounded n (state (newProcess F now os m p)).
Proof.
  intros Hinv.
  destruct (newProcess_view F now os m p) as [|name exe Hl|name exe Hl|name exe Hl];
    [done| |by apply counts_bounded_add..].
  unfold counts_bounded in *. cbn [mkMonitor state runningProcs runningAppCounts].
  rewrite entriesOf_insert by done. lia.
Qed.

Lemma counts_bounded_empty n :
  counts_bounded n {| runningProcs := ∅; runningAppCounts := ∅ |}.
Proof.
  unfold counts_bounded, countOf. cbn [runningProcs runningAppCounts].
  rewrite lookup_empty, entriesOf_empty. simpl. lia.
Qed.

Lemma handle_counts_bounded n F m e :
  counts_bounded n (state m) → counts_bounded n (state (handle F m e)).
Proof.
  intros H. destruct e as [now os [procs|]|]; cbn [handle onTick]; [|done|].
  - apply (foldl_invariant (λ m, counts_bounded n (state m))).
    + intros a b. apply newProcess_counts_bounded.
    + apply (logEndedProcesses_invariant (λ m, counts_bounded n (state m))); [|done].
      intros m' pid name. apply endProcess_counts_bounded.
  - apply counts_bounded_empty.
Qed.

Lemma seedRows_counts_bounded n PidExists now rows : ∀ m,
  NoDup (omap (fmap fst) rows) →
  (∀ pid, pid ∈ omap (fmap fst) rows → runningProcs (state m) !! pid = None) →
  counts_bounded n (state m) →
  counts_bounded n (state (foldl (seedRow PidExists now) m rows)).
Proof.
  induction rows as [|[[pid name]|] rows IH]; intros m Hnd Hfresh Hinv; cbn [foldl]; [done| |].
  - cbn [omap fmap option_fmap option_map fst] in Hnd, Hfresh.
    apply NoDup_cons in Hnd as [Hpid Hnd].
    assert (Hl : runningProcs (state m) !! pid = None).
    { apply Hfresh. apply elem_of_cons; by left. }
    apply IH; [done| |].
    + intros pid' Hin. unfold seedRow.
      destruct (PidExists pid); cbn [state runningProcs].
      * rewrite lookup_insert_ne by (intros ->; done).
        apply Hfresh. apply elem_of_cons; by right.
      * apply Hfresh. apply elem_of_cons; by right.
    + unfold seedRow. destruct (PidExists pid); cbn [state]; [|done].
      by apply counts_bounded_add.
  - apply IH; done.
Qed.

(** X2. After seeding from rows with pairwise distinct identifiers, in
    every state the loop reaches and for every name, the stored count is at
    most the number of ledger entries recorded under that name (excluded
    processes included). *)
Theorem count_at_most_entries F PidExists now rows events n :
  seed_distinct rows = true →
  counts_bounded n (state (StartProcessEventLogger F PidExists now rows events)).
Proof.
  intros Hseed. unfold StartProcessEventLogger, loop.
  apply (foldl_invariant (λ m, counts_bounded n (state m))).
  { intros a b. apply handle_counts_bounded. }
  unfold seed_distinct in Hseed. apply bool_decide_eq_true_1 in Hseed.
  destruct rows as [rows|]; cbn [initializeRunningProcs]; [|apply counts_bounded_empty].
  apply seedRows_counts_bounded; [done| |apply counts_bounded_empty].
  intros pid _. cbn. apply lookup_empty.
Qed.

Lemma count_at_most_entries_witness :
  counts_bounded "svchost.exe"
    (state (StartProcessEventLogger rules_windows.rules (λ _, true) 0
       (Some [Some (10, "Editor.exe"); Some (12, "svchost.exe")])
       [Tick 1 desktop (Some [userProcess 10 "Editor.exe"; systemProcess 4 "svchost.exe";
                              userProcess 12 "svchost.exe"]);
        Tick 2 desktop (Some [userProcess 10 "Editor.exe"; userProcess 12 "svchost.exe"])])).
Proof. apply count_at_most_entries. vm_compute. reflexivity. Defined.

(** ** The ledger and the snapshot *)

Lemma member_insert_true (cur : gmap Z bool) k pid :
  member (<[k := true]> cur) pid = if decide (k = pid) then true else member cur pid.
Proof. unfold member. rewrite lookup_insert. by destruct (decide (k = pid)). Qed.

Lemma member_fold_pids procs pid : ∀ cur,
  member (foldl (λ cur p, <[Pid p := true]> cur) cur procs) pid = true
  ↔ member cur pid = true ∨ pid ∈ map Pid procs.
Proof.
  induction procs as [|p procs IH]; intros cur; cbn [foldl map].
  - split; [by left|]. intros [H|H]; [done|]. by apply elem_of_nil in H.
  - rewrite IH, member_insert_true. rewrite elem_of_cons.
    destruct (decide (Pid p = pid)) as [->|Hne]; [tauto|].
    split; intros [H|H]; auto. destruct H as [->|H]; [done|auto].
Qed.

Lemma member_currentPidsOf procs pid :
  member (currentPidsOf procs) pid = true ↔ pid ∈ map Pid procs.
Proof.
  unfold currentPidsOf. rewrite member_fold_pids. unfold member at 1.
  rewrite lookup_empty. cbn. split; [intros [H|H]; done|by right].
Qed.

Lemma endedIn_ledger now cur order pid : ∀ m,
  runningProcs (state (endedIn now cur order m)) !! pid
  = if bool_decide (pid ∈ map fst order) && negb (member cur pid) then None
    else runningProcs (state m) !! pid.
Proof.
  unfold endedIn. induction order as [|[i name] order IH]; intros m; cbn [foldl map fst].
  - rewrite bool_decide_eq_false_2 by apply not_elem_of_nil. done.
  - rewrite IH. destruct (member cur pid) eqn:Hcur.
    + rewrite !andb_false_r. destruct (decide (i = pid)) as [->|Hne].
      * by rewrite endProcess_present.
      * by rewrite endProcess_ledger.
    + rewrite !andb_true_r. destruct (decide (i = pid)) as [->|Hne].
      * rewrite (bool_decide_eq_true_2 (pid ∈ pid :: map fst order))
          by (apply elem_of_cons; by left).
        case_bool_decide; [done|]. rewrite endProcess_gone by done.
        cbn [mkMonitor state runningProcs]. apply lookup_delete_eq.
      * rewrite endProcess_ledger by done.
        destruct (bool_decide (pid ∈ map fst order)) eqn:Hin.
        -- apply bool_decide_eq_true_1 in Hin.
           rewrite bool_decide_eq_true_2; [done|]. apply elem_of_cons; by right.
        -- apply bool_decide_eq_false_1 in Hin.
           rewrite bool_decide_eq_false_2; [done|].
           intros H. apply elem_of_cons in H as [H|H]; congruence.
Qed.

Lemma logEndedProcesses_ledger now cur m pid :
  runningProcs (state (logEndedProcesses now cur m)) !! pid
  = if member cur pid then runningProcs (state m) !! pid else None.
Proof.
  unfold logEndedProcesses. rewrite endedIn_ledger.
  destruct (member cur pid); [by rewrite andb_false_r|]. rewrite andb_true_r.
  case_bool_decide as Hin; [done|].
  destruct (runningProcs (state m) !! pid) as [name|] eqn:Hl; [|done].
  exfalso. apply Hin. apply (list_elem_of_fmap_2 fst _ (pid, name)).
  by apply elem_of_map_to_list.
Qed.

Lemma newProcess_ledger_keeps F now os m p pid n :
  runningProcs (state m) !! pid = Some n →
  runningProcs (state (newProcess F now os m p)) !! pid = Some n.
Proof.
  intros H.
  destruct (newProcess_view F now os m p) as [|name exe Hl|name exe Hl|name exe Hl];
    cbn [mkMonitor state runningProcs]; [done|..];
    (rewrite lookup_insert_ne; [done|congruence]).
Qed.

Lemma logNewProcesses_ledger_keeps F now os procs pid n : ∀ m,
  runningProcs (state m) !! pid = Some n →
  runningProcs (state (logNewProcesses F now os procs m)) !! pid = Some n.
Proof.
  unfold logNewProcesses.
  apply (foldl_invariant (λ m, runningProcs (state m) !! pid = Some n)).
  intros a b. apply newProcess_ledger_keeps.
Qed.

Lemma onTick_ledger_in_snapshot F now os procs m pid :
  is_Some (runningProcs (state (onTick F now os (Some procs) m)) !! pid) →
  pid ∈ map Pid procs.
Proof.
  cbn [onTick]. intros H. apply logNewProcesses_ledger_from in H as [H|H]; [|done].
  rewrite logEndedProcesses_ledger in H.
  destruct (member (currentPidsOf procs) pid) eqn:Hc; [|by destruct H].
  by apply member_currentPidsOf.
Qed.

(** X3. After a tick whose enumeration succeeded, the ledger holds only
    identifiers of the snapshot, and an entry whose identifier is still in
    the snapshot keeps its recorded name, whatever process now answers to
    that identifier. *)
Theorem ledger_within_snapshot F now os procs m :
  (∀ pid, is_Some (runningProcs (state (onTick F now os (Some procs) m)) !! pid) →
          pid ∈ snapshotPids procs)
  ∧ (∀ pid n, runningProcs (state m) !! pid = Some n → pid ∈ snapshotPids procs →
       runningProcs (state (onTick F now os (Some procs) m)) !! pid = Some n).
Proof.
  unfold snapshotPids. split.
  - apply onTick_ledger_in_snapshot.
  - cbn [onTick]. intros pid n Hl Hin. apply logNewProcesses_ledger_keeps.
    rewrite logEndedProcesses_ledger. apply member_currentPidsOf in Hin. by rewrite Hin.
Qed.

Lemma ledger_within_snapshot_witness :
  runningProcs (state (onTick rules_windows.rules 5 desktop
                         (Some [userProcess 10 "browser.exe"])
                         (mkMonitor {[10 := "editor.exe"; 11 := "player.exe"]}
                            {["editor.exe" := 1; "player.exe" := 1]} []))) !! 10
  = Some "editor.exe".
Proof.
  destruct (ledger_within_snapshot rules_windows.rules 5 desktop
              [userProcess 10 "browser.exe"]
              (mkMonitor {[10 := "editor.exe"; 11 := "player.exe"]}
                 {["editor.exe" := 1; "player.exe" := 1]} [])) as [_ H].
  apply H.
  - reflexivity.
  - apply elem_of_cons. by left.
Defined.

(** ** A repeated tick *)

Lemma endedIn_noop now cur order : ∀ m,
  (∀ e, e ∈ order → member cur e.1 = true) → endedIn now cur order m = m.
Proof.
  unfold endedIn. induction order as [|[pid name] order IH]; intros m H; cbn [foldl]; [done|].
  rewrite endProcess_present.
  - apply IH. intros e He. apply H. apply elem_of_cons; by right.
  - apply (H (pid, name)). apply elem_of_cons; by left.
Qed.

Lemma logEndedProcesses_noop now cur m :
  (∀ pid, is_Some (runningProcs (state m) !! pid) → member cur pid = true) →
  logEndedProcesses now cur m = m.
Proof.
  intros H. unfold logEndedProcesses. apply endedIn_noop.
  intros [pid name] Hin. apply H. apply elem_of_map_to_list in Hin. by eexists.
Qed.

Lemma newProcess_ledger_mono F now os m p pid :
  is_Some (runningProcs (state m) !! pid) →
  is_Some (runningProcs (state (newProcess F now os m p)) !! pid).
Proof. intros [n H]. exists n. by apply newProcess_ledger_keeps. Qed.

Lemma newProcess_records_qualified F now os m p :
  qualifies F os p = true →
  is_Some (runningProcs (state (newProcess F now os m p)) !! Pid p).
Proof.
  intros Hq. destruct (qualifies_inv F os p Hq) as (name & exe & Hn & Hne & He & Hx & Ht).
  destruct (runningProcs (state m) !! Pid p) as [n|] eqn:Hl.
  { apply newProcess_ledger_mono. by eexists. }
  destruct (decide (0 < countOf (runningAppCounts (state m)) (ToLower name))).
  - rewrite (newProcess_counted F now os m p name exe) by done.
    cbn [mkMonitor state runningProcs]. rewrite lookup_insert_eq. by eexists.
  - rewrite (newProcess_logged F now os m p name exe) by (try done; lia).
    cbn [mkMonitor state runningProcs]. rewrite lookup_insert_eq. by eexists.
Qed.

Lemma logNewProcesses_records_qualified F now os procs p : ∀ m,
  p ∈ procs → qualifies F os p = true →
  is_Some (runningProcs (state (logNewProcesses F now os procs m)) !! Pid p).
Proof.
  unfold logNewProcesses. induction procs as [|q procs IH]; intros m Hin Hq; cbn [foldl].
  - by apply elem_of_nil in Hin.
  - apply elem_of_cons in Hin as [->|Hin]; [|by apply IH].
    apply (foldl_invariant (λ m, is_Some (runningProcs (state m) !! Pid q))).
    + intros a b. apply newProcess_ledger_mono.
    + by apply newProcess_records_qualified.
Qed.

Lemma logNewProcesses_silent F now os procs : ∀ m,
  (∀ p, p ∈ procs → qualifies F os p = true → is_Some (runningProcs (state m) !! Pid p)) →
  writeCh (logNewProcesses F now os procs m) = writeCh m.
Proof.
  unfold logNewProcesses. induction procs as [|p procs IH]; intros m H; cbn [foldl]; [done|].
  rewrite IH.
  - destruct (newProcess_view F now os m p)
      as [|name exe|name exe|name exe Hl Hn Hne He Hx Hc Ht]; try done.
    exfalso. destruct (H p) as [n Hn'].
    + apply elem_of_cons; by left.
    + by apply (qualifies_intro F os p name exe).
    + congruence.
  - intros q Hq Hqual. apply newProcess_ledger_mono. apply H; [|done].
    apply elem_of_cons; by right.
Qed.

(** X4. A tick is idempotent on the queue: when the next tick sees the
    same snapshot with the same OS answers, it sends nothing (no end-write
    and no insert), whatever the state before the first of the two. *)
Theorem repeated_tick_sends_nothing F now now' os procs m :
  writeCh (onTick F now' os (Some procs) (onTick F now os (Some procs) m))
  = writeCh (onTick F now os (Some procs) m).
Proof.
  set (m1 := onTick F now os (Some procs) m).
  pose proof (onTick_ledger_in_snapshot F now os procs m) as Hin. fold m1 in Hin.
  cbn [onTick]. rewrite logEndedProcesses_noop.
  - apply logNewProcesses_silent. intros p Hp Hq. subst m1. cbn [onTick].
    by apply logNewProcesses_records_qualified.
  - intros pid H. apply member_currentPidsOf. by apply Hin.
Qed.

(** ** Processes that cannot be read *)

Lemma newProcess_unreadable F now os m p :
  unreadable p = true → newProcess F now os m p = m.
Proof.
  unfold unreadable, newProcess. intros H.
  destruct (runningProcs (state m) !! Pid p); [done|].
  destruct (Name p) as [name|]; [|done].
  destruct (Exe p); [|by destruct (String.eqb name "")].
  by rewrite H.
Qed.

Lemma mentions_updateEnd i now pid : mentions i (updateEnd now pid) = bool_decide (pid = i).
Proof.
  unfold mentions, is_update_for. by rewrite is_insert_for_updateEnd, is_update_updateEnd.
Qed.

Lemma mentions_insertEvent i name pid parent exe now :
  mentions i (insertEvent name pid parent exe now) = bool_decide (pid = i).
Proof.
  unfold mentions, is_update_for.
  rewrite is_insert_for_insertEvent, is_update_insertEvent. by rewrite orb_false_r.
Qed.

Lemma no_write_for_snoc i ch w :
  no_write_for i ch → mentions i w = false → no_write_for i (ch ++ [w]).
Proof. intros H Hw. apply Forall_app. split; [done|]. by constructor. Qed.

Lemma endProcess_untraced i now cur m pid name :
  runningProcs (state m) !! pid = Some name →
  runningProcs (state m) !! i = None ∧ no_write_for i (writeCh m) →
  runningProcs (state (endProcess now cur m (pid, name))) !! i = None
  ∧ no_write_for i (writeCh (endProcess now cur m (pid, name))).
Proof.
  intros Hl [Hi Hw]. assert (pid ≠ i) by congruence.
  destruct (member cur pid) eqn:Hc.
  { by rewrite endProcess_present. }
  rewrite endProcess_gone by done. cbn [mkMonitor state runningProcs writeCh]. split.
  - by rewrite lookup_delete_ne.
  - apply no_write_for_snoc; [done|]. rewrite mentions_updateEnd.
    by apply bool_decide_eq_false_2.
Qed.

Lemma newProcess_untraced i F now os m p :
  (bool_decide (Pid p ≠ i) || unreadable p) = true →
  runningProcs (state m) !! i = None ∧ no_write_for i (writeCh m) →
  runningProcs (state (newProcess F now os m p)) !! i = None
  ∧ no_write_for i (writeCh (newProcess F now os m p)).
Proof.
  intros Hp [Hi Hw]. destruct (unreadable p) eqn:Hu.
  { by rewrite newProcess_unreadable. }
  rewrite orb_false_r in Hp. apply bool_decide_eq_true_1 in Hp.
  destruct (newProcess_view F now os m p) as [|name exe|name exe|name exe];
    cbn [mkMonitor state runningProcs writeCh]; [done|..].
  - by rewrite lookup_insert_ne.
  - by rewrite lookup_insert_ne.
  - rewrite lookup_insert_ne by done. split; [done|].
    apply no_write_for_snoc; [done|]. rewrite mentions_insertEvent.
    by apply bool_decide_eq_false_2.
Qed.

Lemma seedRows_untraced i PidExists now rows : ∀ m,
  i ∉ omap (fmap fst) rows →
  runningProcs (state m) !! i = None ∧ no_write_for i (writeCh m) →
  runningProcs (state (foldl (seedRow PidExists now) m rows)) !! i = None
  ∧ no_write_for i (writeCh (foldl (seedRow PidExists now) m rows)).
Proof.
  induction rows as [|[[pid name]|] rows IH]; intros m Hi [Hl Hw]; cbn [foldl]; [done| |].
  - cbn [omap fmap option_fmap option_map fst] in Hi.
    apply not_elem_of_cons in Hi as [Hne Hi]. apply IH; [done|].
    unfold seedRow. destruct (PidExists pid); cbn [state runningProcs writeCh].
    + by rewrite lookup_insert_ne.
    + split; [done|]. rewrite EnqueueWrite_updateEnd. apply no_write_for_snoc; [done|].
      rewrite mentions_updateEnd. by apply bool_decide_eq_false_2.
  - by apply IH.
Qed.

Lemma loop_untraced i F events : ∀ m,
  always_unreadable i events = true →
  runningProcs (state m) !! i = None ∧ no_write_for i (writeCh m) →
  runningProcs (state (loop F m events)) !! i = None
  ∧ no_write_for i (writeCh (loop F m events)).
Proof.
  unfold loop. induction events as [|e events IH]; intros m He H; cbn [foldl]; [done|].
  cbn [always_unreadable forallb] in He. apply andb_true_iff in He as [He Hes].
  apply IH; [done|]. destruct e as [now os [procs|]|]; cbn [handle onTick]; [|done|].
  - assert (H1 : runningProcs (state (logEndedProcesses now (currentPidsOf procs) m)) !! i
                 = None
                 ∧ no_write_for i (writeCh (logEndedProcesses now (currentPidsOf procs) m))).
    { apply (logEndedProcesses_invariant
               (λ m, runningProcs (state m) !! i = None ∧ no_write_for i (writeCh m)));
        [|done]. intros m' pid name. apply endProcess_untraced. }
    revert H1. generalize (logEndedProcesses now (currentPidsOf procs) m).
    unfold logNewProcesses. clear H. induction procs as [|p procs IHp]; intros m' H1;
      cbn [foldl]; [done|].
    cbn [forallb] in He. apply andb_true_iff in He as [Hp He].
    apply IHp; [done|]. by apply newProcess_untraced.
  - destruct H as [_ Hw]. cbn [onReset state runningProcs writeCh]. split; [apply lookup_empty|done].
Qed.

(** X5. A process whose name or executable path cannot be read leaves no
    trace: if every observation of identifier [i] is of that kind (and [i]
    has no open row at startup), [i] never enters the ledger and no request
    for [i], insert or end-time update, is ever sent, also when the process
    disappears. *)
Theorem unreadable_process_leaves_no_trace F PidExists now rows events i :
  not_seeded i rows = true →
  always_unreadable i events = true →
  runningProcs (state (StartProcessEventLogger F PidExists now rows events)) !! i = None
  ∧ no_write_for i (writeCh (StartProcessEventLogger F PidExists now rows events)).
Proof.
  intros Hs Hu. unfold StartProcessEventLogger. apply loop_untraced; [done|].
  unfold not_seeded in Hs. apply bool_decide_eq_true_1 in Hs.
  assert (H0 : runningProcs (state (fresh [])) !! i = None ∧ no_write_for i (writeCh (fresh []))).
  { split; [apply lookup_empty|constructor]. }
  destruct rows as [rows|]; cbn [initializeRunningProcs]; [|done].
  by apply seedRows_untraced.
Qed.

Lemma unreadable_process_leaves_no_trace_witness :
  no_write_for 7
    (writeCh (StartProcessEventLogger rules_windows.rules (λ _, false) 0
       (Some [Some (3, "old.exe")])
       [Tick 1 desktop (Some [{| Pid := 7; Name := Some "exiting.exe"; Exe := None;
                                 Parent := None |};
                              userProcess 10 "editor.exe"]);
        Tick 2 desktop (Some [userProcess 10 "editor.exe"])])).
Proof.
  apply unreadable_process_leaves_no_trace; vm_compute; reflexivity.
Defined.

(** ** What classification rejects is never logged *)

Lemma newProcess_rejected_no_insert i F now os m p :
  (bool_decide (Pid p ≠ i) || rejected F os p) = true →
  no_insert_for i (writeCh m) →
  no_insert_for i (writeCh (newProcess F now os m p)).
Proof.
  intros Hp H.
  destruct (newProcess_view F now os m p)
    as [|name exe|name exe|name exe Hled Hn Hne He Hx Hc Ht]; cbn [mkMonitor writeCh];
    try done.
  apply no_insert_for_snoc; [done|].
  rewrite is_insert_for_insertEvent. apply bool_decide_eq_false_2. intros Hi.
  unfold rejected in Hp. rewrite He, Hx, orb_false_r in Hp.
  apply bool_decide_eq_true_1 in Hp. done.
Qed.

Lemma loop_rejected_no_insert i F events : ∀ m,
  always_rejected F i events = true →
  no_insert_for i (writeCh m) →
  no_insert_for i (writeCh (loop F m events)).
Proof.
  unfold loop. induction events as [|e events IH]; intros m He H; cbn [foldl]; [done|].
  cbn [always_rejected forallb] in He. apply andb_true_iff in He as [He Hes].
  apply IH; [done|]. destruct e as [now os [procs|]|]; cbn [handle onTick]; [|done|done].
  assert (H1 : no_insert_for i (writeCh (logEndedProcesses now (currentPidsOf procs) m)))
    by by apply endedIn_no_insert_for.
  revert H1. generalize (logEndedProcesses now (currentPidsOf procs) m).
  unfold logNewProcesses. clear H. induction procs as [|p procs IHp]; intros m' H1;
    cbn [foldl]; [done|].
  cbn [forallb] in He. apply andb_true_iff in He as [Hp He].
  apply IHp; [done|]. by apply newProcess_rejected_no_insert.
Qed.

Lemma BoolMap_endProcess_no_insert i now cur m pid :
  no_insert_for i (BoolMap.writeCh m) →
  no_insert_for i (BoolMap.writeCh (BoolMap.endProcess now cur m pid)).
Proof.
  intros H. unfold BoolMap.endProcess. destruct (negb (BoolMap.member cur pid)); [|done].
  cbn [BoolMap.writeCh]. rewrite EnqueueWrite_updateEnd.
  apply no_insert_for_snoc; [done|apply is_insert_for_updateEnd].
Qed.

Lemma BoolMap_newProcess_rejected_no_insert i F now os m p :
  (bool_decide (Pid p ≠ i) || rejected F os p) = true →
  no_insert_for i (BoolMap.writeCh m) →
  no_insert_for i (BoolMap.writeCh (BoolMap.newProcess F now os m p)).
Proof.
  intros Hp H. unfold BoolMap.newProcess, BoolMap.shouldLogProcess, rejected in *.
  destruct (negb (BoolMap.member (BoolMap.runningProcs m) (Pid p))); [|done].
  destruct (Name p) as [name|]; [|done].
  destruct (String.eqb name ""); [done|].
  destruct (BoolMap.member (BoolMap.loggedApps m) (ToLower name)); [done|].
  destruct (Exe p) as [exePath|]; [|done].
  destruct (app_filter.ShouldExclude F os exePath (Some p)); [done|].
  destruct (app_filter.ShouldTrack F os exePath (Some p)); cbn [negb]; [|done].
  cbn [BoolMap.writeCh]. rewrite EnqueueWrite_insertEvent.
  apply no_insert_for_snoc; [done|].
  rewrite is_insert_for_insertEvent. rewrite orb_false_r in Hp.
  apply bool_decide_eq_true_1 in Hp. by apply bool_decide_eq_false_2.
Qed.

Lemma BoolMap_loop_rejected_no_insert i F events : ∀ m,
  always_rejected F i events = true →
  no_insert_for i (BoolMap.writeCh m) →
  no_insert_for i (BoolMap.writeCh (BoolMap.loop F m events)).
Proof.
  unfold BoolMap.loop. induction events as [|e events IH]; intros m He H; cbn [foldl]; [done|].
  cbn [always_rejected forallb] in He. apply andb_true_iff in He as [He Hes].
  apply IH; [done|].
  destruct e as [now os [procs|]|]; cbn [BoolMap.handle BoolMap.onTick]; [|done|done].
  assert (H1 : no_insert_for i
                 (BoolMap.writeCh
                    (BoolMap.logEndedProcesses now (BoolMap.currentProcsOf procs) m))).
  { unfold BoolMap.logEndedProcesses.
    apply (foldl_invariant (λ m, no_insert_for i (BoolMap.writeCh m))); [|done].
    intros a b. apply BoolMap_endProcess_no_insert. }
  revert H1. generalize (BoolMap.logEndedProcesses now (BoolMap.currentProcsOf procs) m).
  unfold BoolMap.logNewProcesses. clear H. induction procs as [|p procs IHp]; intros m' H1;
    cbn [foldl]; [done|].
  cbn [forallb] in He. apply andb_true_iff in He as [Hp He].
  apply IHp; [done|]. by apply BoolMap_newProcess_rejected_no_insert.
Qed.

Lemma BoolMap_seed_no_insert i PidExists now rows m :
  no_insert_for i (BoolMap.writeCh m) →
  no_insert_for i (BoolMap.writeCh (BoolMap.initializeRunningProcs PidExists now rows m)).
Proof.
  destruct rows as [rows|]; [|done]. cbn [BoolMap.initializeRunningProcs].
  apply (foldl_invariant (λ m, no_insert_for i (BoolMap.writeCh m))).
  intros a [pid|] Ha; unfold BoolMap.seedRow; [|done].
  destruct (PidExists pid); cbn [BoolMap.writeCh]; [done|].
  rewrite EnqueueWrite_updateEnd. apply no_insert_for_snoc; [done|apply is_insert_for_updateEnd].
Qed.

(** X6. What [ShouldExclude] rejects is never logged, under any rule set and
    in either variant of the loop: if every process observed under
    identifier [i] is rejected (or has an unreadable path), no insert for
    [i] is ever sent. *)
Theorem rejected_process_never_logged F PidExists now rows rows' events i :
  always_rejected F i events = true →
  no_insert_for i (writeCh (RefCount.StartProcessEventLogger F PidExists now rows events))
  ∧ no_insert_for i
      (BoolMap.writeCh (BoolMap.StartProcessEventLogger F PidExists now rows' events)).
Proof.
  intros H. split.
  - unfold RefCount.StartProcessEventLogger. apply loop_rejected_no_insert; [done|].
    apply initializeRunningProcs_no_insert_for. constructor.
  - unfold BoolMap.StartProcessEventLogger. apply BoolMap_loop_rejected_no_insert; [done|].
    apply BoolMap_seed_no_insert. constructor.
Qed.

Lemma rejected_process_never_logged_witness :
  no_insert_for 20
    (BoolMap.writeCh (BoolMap.StartProcessEventLogger rules_linux.rules (λ _, true) 0
       (Some [Some 20])
       [Tick 1 desktop (Some [{| Pid := 20; Name := Some "procguard";
                                 Exe := Some "/opt/ProcGuard/procguard";
                                 Parent := None |};
                              userProcess 10 "editor"]);
        Reset;
        Tick 2 desktop (Some [{| Pid := 20; Name := Some "procguard";
                                 Exe := Some "/opt/ProcGuard/procguard";
                                 Parent := None |}])])).
Proof.
  apply (rejected_process_never_logged rules_linux.rules (λ _, true) 0 (Some [])
           (Some [Some 20])).
  vm_compute. reflexivity.
Defined.

(** ** The monitor's own executable *)

Lemma HasPrefix_app_l s a b :
  HasPrefix s (a +:+ b) = true → HasPrefix s a = true.
Proof.
  revert s. induction a as [|c a IH]; intros s H; [by destruct s|].
  destruct s as [|d s]; [done|]. cbn in *.
  apply andb_true_iff in H as [Hc H]. rewrite Hc. by apply IH.
Qed.

Lemma Contains_app_l s a b :
  Contains s (a +:+ b) = true → Contains s a = true.
Proof.
  induction s as [|d s IH]; cbn [Contains]; intros H.
  - rewrite orb_false_r in *. by eapply HasPrefix_app_l.
  - apply orb_true_iff in H as [H|H]; apply orb_true_iff.
    + left. by eapply HasPrefix_app_l.
    + right. by apply IH.
Qed.

Lemma own_executable_windows os exePath proc :
  own_executable "procguard.exe" exePath = true →
  rules_windows.ShouldExclude os exePath proc = true.
Proof.
  unfold own_executable, rules_windows.ShouldExclude.
  intros H. cbv zeta. by rewrite H.
Qed.

Lemma own_executable_linux os exePath proc :
  own_executable "procguard" exePath = true →
  rules_linux.ShouldExclude os exePath proc = true.
Proof.
  unfold own_executable, rules_linux.ShouldExclude.
  intros H. cbv zeta. by rewrite H.
Qed.

Lemma always_own_rejected F marker i events :
  (∀ os exePath proc, own_executable marker exePath = true →
     app_filter.ShouldExclude F os exePath proc = true) →
  always_own marker i events = true → always_rejected F i events = true.
Proof.
  intros HF. unfold always_own, always_rejected.
  induction events as [|e events IH]; cbn [forallb]; [done|].
  intros H. apply andb_true_iff in H as [He Hes]. rewrite (IH Hes), andb_true_r.
  destruct e as [now os [procs|]|]; try done.
  induction procs as [|p procs IHp]; cbn [forallb] in *; [done|].
  apply andb_true_iff in He as [Hp He]. rewrite (IHp He), andb_true_r.
  apply orb_true_iff in Hp as [Hp|Hp]; [by rewrite Hp|].
  unfold rejected. destruct (Exe p) as [exePath|]; [|by rewrite orb_true_r].
  by rewrite (HF os exePath (Some p) Hp), orb_true_r.
Qed.

Lemma always_own_shorter_marker a b i events :
  always_own (a +:+ b) i events = true → always_own a i events = true.
Proof.
  unfold always_own. induction events as [|e events IH]; cbn [forallb]; [done|].
  intros H. apply andb_true_iff in H as [He Hes]. rewrite (IH Hes), andb_true_r.
  destruct e as [now os [procs|]|]; try done.
  induction procs as [|p procs IHp]; cbn [forallb] in *; [done|].
  apply andb_true_iff in He as [Hp He]. rewrite (IHp He), andb_true_r.
  apply orb_true_iff in Hp as [Hp|Hp]; [by rewrite Hp|].
  destruct (Exe p) as [exePath|]; [|by rewrite orb_true_r].
  unfold own_executable in *. by rewrite (Contains_app_l _ a b Hp), orb_true_r.
Qed.

(** X7. The monitor never logs itself, on either platform, each with the
    marker its own rule 0 tests.  Under the Windows rules, if every process
    observed under identifier [i] has a path that contains procguard.exe
    in any letter case, the loop sends no insert for [i]; under the Linux
    rules the same holds as soon as every such path contains procguard in
    any letter case (a path with procguard.exe being one of them). *)
Theorem own_executable_never_logged PidExists now rows events i :
  (always_own "procguard.exe" i events = true →
   no_insert_for i
     (writeCh (RefCount.StartProcessEventLogger rules_windows.rules PidExists now rows
                 events)))
  ∧ (always_own "procguard" i events = true ∨ always_own "procguard.exe" i events = true →
     no_insert_for i
       (writeCh (RefCount.StartProcessEventLogger rules_linux.rules PidExists now rows
                   events))).
Proof.
  unfold RefCount.StartProcessEventLogger. split.
  - intros H. apply loop_rejected_no_insert.
    + apply (always_own_rejected _ "procguard.exe"); [|done]. intros os exePath proc Ho.
      by apply own_executable_windows.
    + apply initializeRunningProcs_no_insert_for. constructor.
  - intros H.
    assert (H' : always_own "procguard" i events = true).
    { destruct H as [H|H]; [done|].
      by apply (always_own_shorter_marker "procguard" ".exe"). }
    apply loop_rejected_no_insert.
    + apply (always_own_rejected _ "procguard"); [|done]. intros os exePath proc Ho.
      by apply own_executable_linux.
    + apply initializeRunningProcs_no_insert_for. constructor.
Qed.

Lemma own_executable_never_logged_witness :
  no_insert_for 30
    (writeCh (RefCount.StartProcessEventLogger rules_windows.rules (λ _, true) 0 (Some [])
       [Tick 1 desktop (Some [{| Pid := 30; Name := Some "ProcGuard.exe";
                                 Exe := Some "C:\Program Files\ProcGuard\ProcGuard.EXE";
                                 Parent := Some (Some "explorer.exe") |};
                              userProcess 10 "editor.exe"]);
        Tick 2 desktop (Some [userProcess 10 "editor.exe"])]))
  ∧ no_insert_for 30
      (writeCh (RefCount.StartProcessEventLogger rules_linux.rules (λ _, true) 0 (Some [])
         [Tick 1 desktop (Some [{| Pid := 30; Name := Some "procguard";
                                   Exe := Some "/opt/ProcGuard/procguard";
                                   Parent := None |};
                                {| Pid := 10; Name := Some "editor";
                                   Exe := Some "/usr/bin/editor";
                                   Parent := None |}]);
          Reset;
          Tick 2 desktop (Some [{| Pid := 30; Name := Some "procguard";
                                   Exe := Some "/opt/ProcGuard/procguard";
                                   Parent := None |}])])).
Proof.
  split.
  - apply (proj1 (own_executable_never_logged (λ _, true) 0 (Some [])
       [Tick 1 desktop (Some [{| Pid := 30; Name := Some "ProcGuard.exe";
                                 Exe := Some "C:\Program Files\ProcGuard\ProcGuard.EXE";
                                 Parent := Some (Some "explorer.exe") |};
                              userProcess 10 "editor.exe"]);
        Tick 2 desktop (Some [userProcess 10 "editor.exe"])] 30)).
    vm_compute. reflexivity.
  - apply (proj2 (own_executable_never_logged (λ _, true) 0 (Some [])
         [Tick 1 desktop (Some [{| Pid := 30; Name := Some "procguard";
                                   Exe := Some "/opt/ProcGuard/procguard";
                                   Parent := None |};
                                {| Pid := 10; Name := Some "editor";
                                   Exe := Some "/usr/bin/editor";
                                   Parent := None |}]);
          Reset;
          Tick 2 desktop (Some [{| Pid := 30; Name := Some "procguard";
                                   Exe := Some "/opt/ProcGuard/procguard";
                                   Parent := None |}])] 30)).
    left. vm_compute. reflexivity.
Defined.

(** ** Start before end, boolean-map variant *)

Lemma is_update_for_updateEnd i now pid :
  is_update_for i (updateEnd now pid) = bool_decide (pid = i).
Proof. unfold is_update_for. by rewrite is_update_updateEnd. Qed.

Lemma is_update_for_insertEvent i name pid parent exe now :
  is_update_for i (insertEvent name pid parent exe now) = false.
Proof. unfold is_update_for. by rewrite is_update_insertEvent. Qed.

Lemma inserted_app i ch ws : inserted i ch → inserted i (ch ++ ws).
Proof. intros (w & Hin & Hw). exists w. split; [|done]. apply elem_of_app; by left. Qed.

Lemma start_before_end_insert ch name pid parent exe now :
  start_before_end ch → start_before_end (ch ++ [insertEvent name pid parent exe now]).
Proof.
  intros H j w i Hj Hu. destruct (decide (j < length ch)%nat) as [Hlt|Hge].
  - rewrite lookup_app_l in Hj by done. destruct (H j w i Hj Hu) as (k & w' & Hk & Hw' & Hi).
    exists k, w'. split_and!; try done. rewrite lookup_app_l by lia. done.
  - rewrite lookup_app_r in Hj by lia.
    destruct (j - length ch)%nat; cbn in Hj; [|done]. injection Hj as <-.
    by rewrite is_update_for_insertEvent in Hu.
Qed.

Lemma start_before_end_update ch now pid :
  start_before_end ch → inserted pid ch → start_before_end (ch ++ [updateEnd now pid]).
Proof.
  intros H (w0 & Hin & Hw0) j w i Hj Hu. destruct (decide (j < length ch)%nat) as [Hlt|Hge].
  - rewrite lookup_app_l in Hj by done. destruct (H j w i Hj Hu) as (k & w' & Hk & Hw' & Hi).
    exists k, w'. split_and!; try done. rewrite lookup_app_l by lia. done.
  - rewrite lookup_app_r in Hj by lia.
    destruct (j - length ch)%nat eqn:Hd; cbn in Hj; [|done]. injection Hj as <-.
    rewrite is_update_for_updateEnd in Hu. apply bool_decide_eq_true_1 in Hu. subst i.
    apply list_elem_of_lookup in Hin as [k Hk]. exists k, w0.
    pose proof (lookup_lt_Some _ _ _ Hk). split_and!; [lia| |done].
    by rewrite lookup_app_l.
Qed.

Lemma BoolMap_ended_start_before_end now cur order : ∀ m,
  Forall (λ pid, inserted pid (BoolMap.writeCh m)) order →
  start_before_end (BoolMap.writeCh m) ∧ tracked_inserted m →
  start_before_end (BoolMap.writeCh (foldl (BoolMap.endProcess now cur) m order))
  ∧ tracked_inserted (foldl (BoolMap.endProcess now cur) m order).
Proof.
  induction order as [|pid order IH]; intros m Hall [Hs Ht]; cbn [foldl]; [done|].
  apply Forall_cons in Hall as [Hpid Hall]. unfold BoolMap.endProcess at 2 4.
  destruct (negb (BoolMap.member cur pid)); [|by apply IH].
  apply IH; cbn [BoolMap.writeCh BoolMap.runningProcs]; rewrite EnqueueWrite_updateEnd.
  - eapply Forall_impl; [exact Hall|]. intros i Hi. by apply inserted_app.
  - split; [by apply start_before_end_update|].
    intros i Hi. cbn [BoolMap.runningProcs BoolMap.writeCh] in *.
    apply inserted_app, Ht. rewrite lookup_delete in Hi.
    by destruct (decide (pid = i)); [destruct Hi|].
Qed.

Lemma BoolMap_newProcess_start_before_end F now os m p :
  start_before_end (BoolMap.writeCh m) ∧ tracked_inserted m →
  start_before_end (BoolMap.writeCh (BoolMap.newProcess F now os m p))
  ∧ tracked_inserted (BoolMap.newProcess F now os m p).
Proof.
  intros [Hs Ht]. unfold BoolMap.newProcess.
  destruct (negb (BoolMap.member (BoolMap.runningProcs m) (Pid p))); [|done].
  destruct (BoolMap.shouldLogProcess F os p (BoolMap.loggedApps m)) as [[|] logged].
  - cbn [BoolMap.writeCh]. rewrite EnqueueWrite_insertEvent. split.
    + by apply start_before_end_insert.
    + intros i Hi. cbn [BoolMap.runningProcs BoolMap.writeCh] in *.
      rewrite lookup_insert in Hi. destruct (decide (Pid p = i)) as [<-|Hne].
      * eexists. split; [apply elem_of_app; right; apply elem_of_cons; by left|].
        rewrite is_insert_for_insertEvent. by apply bool_decide_eq_true_2.
      * by apply inserted_app, Ht.
  - split; [done|]. intros i Hi. by apply Ht.
Qed.

Lemma BoolMap_handle_start_before_end F m e :
  start_before_end (BoolMap.writeCh m) ∧ tracked_inserted m →
  start_before_end (BoolMap.writeCh (BoolMap.handle F m e))
  ∧ tracked_inserted (BoolMap.handle F m e).
Proof.
  intros H. destruct e as [now os [procs|]|]; cbn [BoolMap.handle BoolMap.onTick]; [|done|].
  - unfold BoolMap.logNewProcesses.
    apply (foldl_invariant
             (λ m, start_before_end (BoolMap.writeCh m) ∧ tracked_inserted m)).
    + intros a b. apply BoolMap_newProcess_start_before_end.
    + unfold BoolMap.logEndedProcesses. apply BoolMap_ended_start_before_end; [|done].
      apply Forall_forall. intros pid Hin. destruct H as [_ Ht]. apply Ht.
      apply list_elem_of_fmap in Hin as ([i name] & -> & Hin).
      apply elem_of_map_to_list in Hin. by eexists.
  - destruct H as [Hs _]. split; [done|]. intros i Hi.
    cbn [BoolMap.onReset BoolMap.runningProcs] in Hi. rewrite lookup_empty in Hi.
    by destruct Hi.
Qed.

(** X8. In the boolean-map variant, started on an empty ledger, every
    end-time update in the queue comes after an insert for the same process
    identifier, whatever ticks and resets occur. *)
Theorem BoolMap_start_before_end F events :
  start_before_end (BoolMap.writeCh (BoolMap.loop F (BoolMap.fresh []) events)).
Proof.
  unfold BoolMap.loop.
  apply (foldl_invariant
           (λ m, start_before_end (BoolMap.writeCh m) ∧ tracked_inserted m)).
  - intros a b. apply BoolMap_handle_start_before_end.
  - split.
    + intros j w i Hj. cbn [BoolMap.fresh BoolMap.writeCh] in Hj. by rewrite lookup_nil in Hj.
    + intros i Hi. cbn [BoolMap.fresh BoolMap.runningProcs] in Hi.
      rewrite lookup_empty in Hi. by destruct Hi.
Qed.

(** ** The writer on the monitor's requests *)

Lemma well_formed_exec db0 w : well_formed w → is_Some (sql_exec db0 w).
Proof.
  intros [(t & p & ->)|(name & p & parent & exe & t & ->)].
  - rewrite sql_exec_updateEnd. by eexists.
  - rewrite sql_exec_insertEvent. by eexists.
Qed.

Lemma writerStep_well_formed w req :
  well_formed req →
  errlog (writerStep no_fault w req) = errlog w
  ∧ db (writerStep no_fault w req) = default (db w) (sql_exec (db w) req).
Proof.
  intros Hwf. destruct (well_formed_exec (db w) req Hwf) as [db' Hdb].
  unfold writerStep, Exec, no_fault. by rewrite Hdb.
Qed.

Lemma StartDatabaseWriter_well_formed ch : ∀ w,
  Forall well_formed ch →
  errlog (StartDatabaseWriter no_fault w ch) = errlog w
  ∧ db (StartDatabaseWriter no_fault w ch) = exec_all (db w) ch.
Proof.
  unfold StartDatabaseWriter. induction ch as [|req ch IH]; intros w Hall; cbn [foldl]; [done|].
  apply Forall_cons in Hall as [Hreq Hall].
  destruct (writerStep_well_formed w req Hreq) as [He Hd].
  destruct (IH (writerStep no_fault w req) Hall) as [He' Hd'].
  rewrite He', Hd', He, Hd. done.
Qed.

Lemma well_formed_snoc ch w :
  Forall well_formed ch → well_formed w → Forall well_formed (ch ++ [w]).
Proof. intros H Hw. apply Forall_app. split; [done|]. by constructor. Qed.

Lemma endProcess_well_formed now cur m e :
  Forall well_formed (writeCh m) → Forall well_formed (writeCh (endProcess now cur m e)).
Proof.
  intros H. rewrite endProcess_writeCh. apply Forall_app. split; [done|].
  unfold endWrites. apply Forall_map, Forall_forall. intros x _. left. by eexists _, _.
Qed.

Lemma newProcess_well_formed F now os m p :
  Forall well_formed (writeCh m) → Forall well_formed (writeCh (newProcess F now os m p)).
Proof.
  intros H. destruct (newProcess_writeCh F now os m p) as [-> | [-> _]]; [done|].
  apply well_formed_snoc; [done|]. right. unfold insertOf. by eexists _, _, _, _, _.
Qed.

Lemma seedRow_well_formed PidExists now m row :
  Forall well_formed (writeCh m) → Forall well_formed (writeCh (seedRow PidExists now m row)).
Proof.
  intros H. unfold seedRow. destruct row as [[pid name]|]; [|done].
  destruct (PidExists pid); cbn [writeCh]; [done|].
  rewrite EnqueueWrite_updateEnd. apply well_formed_snoc; [done|]. left. by eexists _, _.
Qed.

Lemma handle_well_formed F m e :
  Forall well_formed (writeCh m) → Forall well_formed (writeCh (handle F m e)).
Proof.
  intros H. destruct e as [now os [procs|]|]; cbn [handle onTick]; [|done|done].
  apply (foldl_invariant (λ m, Forall well_formed (writeCh m))).
  - intros a b. apply newProcess_well_formed.
  - apply (foldl_invariant (λ m, Forall well_formed (writeCh m))); [|done].
    intros a b. apply endProcess_well_formed.
Qed.

(** X9. Every request the monitor loop sends is one of its two statements
    with the parameters the statement takes, so the writer, when no fault is
    injected, executes the whole queue of a run without logging a failure,
    and the table it ends with is the queue applied in order. *)
Theorem monitor_requests_execute F PidExists now rows events w :
  let ch := writeCh (StartProcessEventLogger F PidExists now rows events) in
  Forall well_formed ch
  ∧ errlog (StartDatabaseWriter no_fault w ch) = errlog w
  ∧ db (StartDatabaseWriter no_fault w ch) = exec_all (db w) ch
  ∧ received (StartDatabaseWriter no_fault w ch) = received w ++ ch.
Proof.
  cbv zeta.
  assert (Hwf : Forall well_formed
                  (writeCh (StartProcessEventLogger F PidExists now rows events))).
  { unfold StartProcessEventLogger, loop.
    apply (foldl_invariant (λ m, Forall well_formed (writeCh m))).
    - intros a b. apply handle_well_formed.
    - destruct rows as [rows|]; cbn [initializeRunningProcs]; [|constructor].
      apply (foldl_invariant (λ m, Forall well_formed (writeCh m))); [|constructor].
      intros a b. apply seedRow_well_formed. }
  destruct (StartDatabaseWriter_well_formed _ w Hwf) as [He Hd].
  split_and!; try done. apply StartDatabaseWriter_received.
Qed.

(** ** One process from start to end *)

(** X10. The life of one tracked process: from an empty ledger, the tick
    that first sees a process passing classification sends its insert; a
    tick that sees it again changes nothing; the tick that no longer sees
    it sends its end-time update and leaves ledger and counts empty. *)
Theorem single_process_lifecycle F t1 t2 t3 os1 os2 os3 p name :
  qualifies F os1 p = true → Name p = Some name →
  let m1 := onTick F t1 os1 (Some [p]) (fresh []) in
  let m2 := onTick F t2 os2 (Some [p]) m1 in
  let m3 := onTick F t3 os3 (Some []) m2 in
  m1 = mkMonitor {[Pid p := ToLower name]} {[ToLower name := 1]} [insertOf t1 p]
  ∧ m2 = m1
  ∧ m3 = mkMonitor ∅ ∅ [insertOf t1 p; updateEnd t3 (Pid p)].
Proof.
  intros Hq Hn.
  destruct (qualifies_inv F os1 p Hq) as (name' & exePath & Hn' & Hne & He & Hx & Ht).
  assert (name' = name) as -> by congruence.
  assert (H1 : onTick F t1 os1 (Some [p]) (fresh [])
               = mkMonitor {[Pid p := ToLower name]} {[ToLower name := 1]} [insertOf t1 p]).
  { change (fresh []) with (onReset (fresh [])).
    rewrite onTick_after_reset. unfold logNewProcesses. cbn [foldl].
    by rewrite (newProcess_logged F t1 os1 _ p name exePath). }
  cbv zeta. rewrite H1.
  assert (H2 : onTick F t2 os2 (Some [p])
                 (mkMonitor {[Pid p := ToLower name]} {[ToLower name := 1]} [insertOf t1 p])
               = mkMonitor {[Pid p := ToLower name]} {[ToLower name := 1]} [insertOf t1 p]).
  { cbn [onTick]. rewrite logEndedProcesses_noop.
    - unfold logNewProcesses. cbn [foldl]. unfold newProcess.
      cbn [mkMonitor state runningProcs]. by rewrite lookup_singleton_eq.
    - intros pid [n Hl]. cbn [mkMonitor state runningProcs] in Hl.
      apply lookup_singleton_Some in Hl as [<- _].
      apply member_currentPidsOf. apply elem_of_cons. by left. }
  rewrite H2. split_and!; try done.
  cbn [onTick logNewProcesses foldl]. unfold logEndedProcesses.
  cbn [mkMonitor state runningProcs]. rewrite map_to_list_singleton.
  unfold endedIn. cbn [foldl]. rewrite endProcess_gone by done.
  cbn [mkMonitor state runningProcs runningAppCounts writeCh].
  rewrite delete_singleton_eq.
  assert (Hc : countOf {[ToLower name := 1]} (ToLower name) = 1).
  { unfold countOf. by rewrite lookup_singleton_eq. }
  rewrite Hc, countOf_insert, decide_True by done.
  rewrite bool_decide_eq_true_2 by lia.
  rewrite delete_insert_eq, delete_singleton_eq. reflexivity.
Qed.

Lemma single_process_lifecycle_witness :
  onTick rules_windows.rules 3 desktop (Some [])
    (onTick rules_windows.rules 2 desktop (Some [userProcess 10 "Editor.exe"])
       (onTick rules_windows.rules 1 desktop (Some [userProcess 10 "Editor.exe"])
          (fresh [])))
  = mkMonitor ∅ ∅ [insertOf 1 (userProcess 10 "Editor.exe"); updateEnd 3 10].
Proof.
  edestruct (single_process_lifecycle rules_windows.rules 1 2 3 desktop desktop desktop
               (userProcess 10 "Editor.exe") "Editor.exe") as (_ & _ & H).
  - vm_compute. reflexivity.
  - reflexivity.
  - exact H.
Defined.

(** ** Counts after the ended processes *)

Lemma decrement_iter k c :
  0 ≤ c → Nat.iter k decrement c = Z.max 0 (c - Z.of_nat k).
Proof.
  intros Hc. induction k as [|k IH].
  - simpl. lia.
  - rewrite Nat.iter_succ, IH. unfold decrement. case_bool_decide; lia.
Qed.

Lemma endedIn_countOf now cur n order : ∀ m,
  countOf (runningAppCounts (state (endedIn now cur order m))) n
  = Nat.iter (vanished cur n order) decrement (countOf (runningAppCounts (state m)) n).
Proof.
  unfold endedIn, vanished.
  induction order as [|[pid name] order IH]; intros m; cbn [foldl List.filter fst snd]; [done|].
  rewrite IH. destruct (member cur pid) eqn:Hc; cbn [negb andb].
  - by rewrite endProcess_present.
  - rewrite endProcess_countOf by done. destruct (decide (name = n)) as [->|Hne].
    + rewrite String.eqb_refl. cbn [length]. by rewrite Nat.iter_succ_r.
    + by destruct (String.eqb_spec name n).
Qed.

(** X11. [logEndedProcesses] lowers the count of a name once for every
    ledger entry of that name whose process vanished, counted or not, and
    stops at zero: the count afterwards is the count before minus the number
    of vanished entries of the name, or 0 if that is negative. *)
Theorem ended_entries_lower_the_count now cur m n :
  0 ≤ countOf (runningAppCounts (state m)) n →
  countOf (runningAppCounts (state (logEndedProcesses now cur m))) n
  = Z.max 0 (countOf (runningAppCounts (state m)) n
             - Z.of_nat (vanished cur n (map_to_list (runningProcs (state m))))).
Proof.
  intros H. unfold logEndedProcesses. rewrite endedIn_countOf. by apply decrement_iter.
Qed.

Lemma ended_entries_lower_the_count_witness :
  let m := onTick rules_windows.rules 1 desktop
             (Some [userProcess 10 "notepad.exe"; systemProcess 4 "notepad.exe"])
             (fresh []) in
  countOf (runningAppCounts (state m)) "notepad.exe" = 1
  ∧ countOf (runningAppCounts
               (state (logEndedProcesses 2
                         (currentPidsOf [userProcess 10 "notepad.exe"]) m)))
      "notepad.exe" = 0
  ∧ runningProcs (state (logEndedProcesses 2
                           (currentPidsOf [userProcess 10 "notepad.exe"]) m)) !! 10
    = Some "notepad.exe".
Proof.
  cbv zeta. split_and!.
  - vm_compute. reflexivity.
  - rewrite ended_entries_lower_the_count; vm_compute; [reflexivity|discriminate].
  - vm_compute. reflexivity.
Defined.

(** ** Which processes are trackable *)

Lemma EqualFold_explorer p :
  rules_windows.parentIsExplorer p
  = match Parent p with
    | Some (Some parentName) => String.eqb (ToLower parentName) "explorer.exe"
    | _ => false
    end.
Proof. unfold rules_windows.parentIsExplorer. by destruct (Parent p) as [[?|]|]. Qed.

(** X12. [ShouldTrack] on Windows: a console shell (cmd.exe,
    powershell.exe, pwsh.exe, in any letter case) is trackable exactly when
    its parent is explorer.exe, whether or not it has a window; any other
    process is trackable exactly when it has a visible window, whatever its
    parent; the executable path plays no role. *)
Theorem ShouldTrack_windows os exePath exePath' p name :
  Name p = Some name →
  rules_windows.ShouldTrack os exePath (Some p)
  = rules_windows.ShouldTrack os exePath' (Some p)
  ∧ (is_shell (ToLower name) = true →
     rules_windows.ShouldTrack os exePath (Some p) = rules_windows.parentIsExplorer p)
  ∧ (is_shell (ToLower name) = false →
     rules_windows.ShouldTrack os exePath (Some p) = HasVisibleWindow os (uint32 (Pid p))).
Proof.
  intros Hn. unfold rules_windows.ShouldTrack, is_shell. rewrite Hn. cbv zeta.
  split_and!; [done| |].
  - by intros ->.
  - intros ->. destruct (HasVisibleWindow os (uint32 (Pid p))); cbn [negb]; [|done].
    by destruct (rules_windows.parentIsExplorer p).
Qed.

Lemma ShouldTrack_windows_witness :
  rules_windows.ShouldTrack desktop "C:\Windows\System32\cmd.exe"
    (Some {| Pid := 9; Name := Some "CMD.EXE"; Exe := Some "C:\Windows\System32\cmd.exe";
             Parent := Some (Some "Explorer.EXE") |})
  = true
  ∧ rules_windows.ShouldTrack desktop ""
      (Some {| Pid := 9; Name := Some "pwsh.exe"; Exe := None;
               Parent := Some (Some "code.exe") |})
    = false.
Proof.
  split.
  - edestruct (ShouldTrack_windows desktop "C:\Windows\System32\cmd.exe" ""
                 {| Pid := 9; Name := Some "CMD.EXE";
                    Exe := Some "C:\Windows\System32\cmd.exe";
                    Parent := Some (Some "Explorer.EXE") |} "CMD.EXE") as (_ & H & _);
      [reflexivity|]. rewrite H; vm_compute; reflexivity.
  - edestruct (ShouldTrack_windows desktop "" ""
                 {| Pid := 9; Name := Some "pwsh.exe"; Exe := None;
                    Parent := Some (Some "code.exe") |} "pwsh.exe") as (_ & H & _);
      [reflexivity|]. rewrite H; vm_compute; reflexivity.
Defined.

(** * Opening the database *)

Lemma InitDB_done env g :
  data_init.dbOnce g = true →
  data_init.InitDB env g = ((data_init.globalDB g, None), g).
Proof. intros H. unfold data_init.InitDB. by rewrite H. Qed.

Lemma InitDB_sets_done env g :
  data_init.dbOnce (snd (data_init.InitDB env g)) = true.
Proof.
  unfold data_init.InitDB. destruct (data_init.dbOnce g) eqn:Hd; [done|].
  destruct (data_init.openAndConfigureDB env); [|done].
  by destruct (data_init.CreateSchema env).
Qed.

Lemma calls_done envs : ∀ g,
  data_init.dbOnce g = true →
  data_init.calls envs g
  = (map (λ _, (data_init.globalDB g, None)) envs, g).
Proof.
  induction envs as [|env envs IH]; intros g H; cbn [data_init.calls map]; [done|].
  by rewrite InitDB_done, IH.
Qed.

(** X13. [InitDB] initialises once: whatever the first call met, every
    later call (and [OpenDB]) changes nothing, starts no further writer and
    returns the stored handle with a nil error; over any sequence of calls
    at most one [StartDatabaseWriter] goroutine is started. *)
Theorem InitDB_runs_once env envs :
  let '(r, g) := data_init.InitDB env data_init.start in
  let '(rs, g') := data_init.calls envs g in
  g' = g
  ∧ rs = map (λ _, (data_init.GetDB g, None)) envs
  ∧ (length (data_init.writers g') ≤ 1)%nat
  ∧ ∀ env', data_init.OpenDB env' g = ((data_init.GetDB g, None), g).
Proof.
  pose proof (InitDB_sets_done env data_init.start) as Hd.
  destruct (data_init.InitDB env data_init.start) as [r g] eqn:Hi. cbn [snd] in Hd.
  rewrite (calls_done envs g Hd). split_and!; try done.
  - unfold data_init.InitDB in Hi. cbn [data_init.start data_init.dbOnce] in Hi.
    destruct (data_init.openAndConfigureDB env).
    + destruct (data_init.CreateSchema env); injection Hi as <- <-; cbn; lia.
    + injection Hi as <- <-. cbn. lia.
  - intros env'. by apply InitDB_done.
Qed.

(** X14. A failure of the first [InitDB] is reported once only.  If the
    database cannot be opened, the first call returns the error, no write
    channel is made and no writer started, and every later call returns a
    nil handle with a nil error.  If only the schema creation fails, the
    first call returns a nil handle and the wrapped error, yet the handle is
    stored, the channel made and the writer started, and every later call
    returns that handle with a nil error. *)
Theorem InitDB_first_failure :
  (∀ env e env',
     data_init.openAndConfigureDB env = inr e →
     let '(r, g) := data_init.InitDB env data_init.start in
     r = (None, Some e)
     ∧ data_init.writeCh g = None ∧ data_init.writers g = []
     ∧ data_init.InitDB env' g = ((None, None), g))
  ∧ (∀ env d e env',
       data_init.openAndConfigureDB env = inl d →
       data_init.CreateSchema env = Some e →
       let '(r, g) := data_init.InitDB env data_init.start in
       r = (None, Some ("could not create schema: " +:+ e))
       ∧ data_init.GetDB g = Some d
       ∧ data_init.writeCh g = Some [] ∧ data_init.writers g = [Some d]
       ∧ data_init.InitDB env' g = ((Some d, None), g)).
Proof.
  split.
  - intros env e env' Ho. unfold data_init.InitDB at 1.
    cbn [data_init.start data_init.dbOnce]. rewrite Ho. by split_and!.
  - intros env d e env' Ho Hs. unfold data_init.InitDB at 1.
    cbn [data_init.start data_init.dbOnce]. rewrite Ho, Hs. by split_and!.
Qed.

Lemma InitDB_first_failure_witness :
  let '(r, g) :=
    data_init.InitDB
      {| data_init.openAndConfigureDB := inr "could not get user cache dir";
         data_init.CreateSchema := None |} data_init.start in
  r = (None, Some "could not get user cache dir")
  ∧ data_init.writeCh g = None ∧ data_init.writers g = []
  ∧ data_init.InitDB
      {| data_init.openAndConfigureDB := inl 1%nat; data_init.CreateSchema := None |} g
    = ((None, None), g).
Proof.
  apply (proj1 InitDB_first_failure
           {| data_init.openAndConfigureDB := inr "could not get user cache dir";
              data_init.CreateSchema := None |}
           "could not get user cache dir"
           {| data_init.openAndConfigureDB := inl 1%nat; data_init.CreateSchema := None |}).
  reflexivity.
Defined.

(** * Window titles *)

Lemma scanNul_none wchars : ∀ i,
  Forall (λ c, c ≠ 0) wchars → windows.scanNul i wchars = 0%nat.
Proof.
  induction wchars as [|c wchars IH]; intros i H; cbn [windows.scanNul]; [done|].
  apply Forall_cons in H as [Hc H]. destruct (Z.eqb_spec c 0); [done|]. by apply IH.
Qed.

Lemma scanNul_found s rest : ∀ i,
  Forall (λ c, c ≠ 0) s →
  windows.scanNul i (s ++ 0 :: rest) = (i + length s)%nat.
Proof.
  induction s as [|c s IH]; intros i H; cbn [app windows.scanNul length].
  - cbn. lia.
  - apply Forall_cons in H as [Hc H]. destruct (Z.eqb_spec c 0); [done|].
    rewrite IH by done. lia.
Qed.

Lemma encodeRune_ascii c :
  0 ≤ c < 128 → windows.encodeRune c = [windows.byteChar c].
Proof.
  intros H. unfold windows.encodeRune.
  rewrite (proj2 (Z.ltb_ge c 0)) by lia.
  rewrite (proj2 (Z.ltb_ge 0x10FFFF c)) by lia.
  rewrite (proj2 (Z.leb_gt 0xD800 c)) by lia.
  cbn [orb andb]. by rewrite (proj2 (Z.leb_le c 0x7F)) by lia.
Qed.

Lemma stringOfRunes_ascii t :
  ascii_text t = true →
  concat (map windows.encodeRune (map windows.uint16 (codeUnits t)))
  = list_ascii_of_string t.
Proof.
  unfold ascii_text, codeUnits.
  induction (list_ascii_of_string t) as [|a l IH]; cbn [map forallb concat]; [done|].
  intros H. apply andb_true_iff in H as [Ha Hl]. apply andb_true_iff in Ha as [H0 H1].
  apply Z.ltb_lt in H0, H1.
  assert (Hu : windows.uint16 (Z.of_N (N_of_ascii a)) = Z.of_N (N_of_ascii a)).
  { unfold windows.uint16. apply Z.mod_small. lia. }
  rewrite Hu, encodeRune_ascii by lia. cbn [app]. rewrite (IH Hl). f_equal.
  unfold windows.byteChar. by rewrite N2Z.id, ascii_N_embedding.
Qed.

Lemma codeUnits_nonzero t :
  ascii_text t = true → Forall (λ c, c ≠ 0) (codeUnits t).
Proof.
  unfold ascii_text. induction (codeUnits t) as [|c l IH]; cbn [forallb]; [constructor|].
  intros H. apply andb_true_iff in H as [Hc Hl]. apply andb_true_iff in Hc as [H0 _].
  apply Z.ltb_lt in H0. constructor; [lia|by apply IH].
Qed.

(** X15. [wcharToString] cuts the buffer at its first NUL and, for a title
    of ASCII characters, gives the title back whatever follows the NUL; a
    buffer that holds no NUL at all gives the empty string. *)
Theorem wcharToString_title :
  (∀ t rest, ascii_text t = true →
     windows.wcharToString (codeUnits t ++ 0 :: rest) = t)
  ∧ (∀ wchars, Forall (λ c, c ≠ 0) wchars → windows.wcharToString wchars = "").
Proof.
  split.
  - intros t rest Ht. unfold windows.wcharToString.
    rewrite scanNul_found by by apply codeUnits_nonzero. cbn [Nat.add].
    destruct (Nat.eqb_spec (length (codeUnits t)) 0) as [H0|Hn].
    + unfold codeUnits in H0. rewrite length_map in H0.
      destruct t; [done|]. cbn in H0. lia.
    + cbv zeta. rewrite take_app_length. unfold windows.stringOfRunes.
      rewrite stringOfRunes_ascii by done. apply string_of_list_ascii_of_string.
  - intros wchars H. unfold windows.wcharToString. by rewrite scanNul_none.
Qed.

Lemma wcharToString_title_witness :
  windows.wcharToString (codeUnits "Untitled - Notepad" ++ 0 :: [120; 0; 121]) 
  = "Untitled - Notepad"
  ∧ windows.wcharToString [65; 66; 67] = "".
Proof.
  destruct wcharToString_title as [H1 H2]. split.
  - apply H1. vm_compute. reflexivity.
  - apply H2. repeat constructor; discriminate.
Defined.

(** * Application details on Linux *)

Lemma list_ascii_append a b :
  list_ascii_of_string (a +:+ b) = list_ascii_of_string a ++ list_ascii_of_string b.
Proof.
  induction a as [|c a IH]; [done|].
  change (list_ascii_of_string (String c a +:+ b))
    with (c :: list_ascii_of_string (a +:+ b)).
  by rewrite IH.
Qed.

Lemma string_length_append a b :
  String.length (a +:+ b) = (String.length a + String.length b)%nat.
Proof.
  induction a as [|c a IH]; [done|].
  change (String.length (String c a +:+ b)) with (S (String.length (a +:+ b))).
  by rewrite IH.
Qed.

Lemma substring_append_l a b :
  String.substring 0 (String.length a) (a +:+ b) = a.
Proof.
  induction a as [|c a IH].
  - by destruct b.
  - change (String.substring 0 (String.length (String c a)) (String c a +:+ b))
      with (String c (String.substring 0 (String.length a) (a +:+ b))).
    by rewrite IH.
Qed.

Lemma HasSuffix_append a b : HasSuffix (a +:+ b) b = true.
Proof.
  induction a as [|c a IH].
  - change ("" +:+ b) with b. destruct b as [|d b].
    + reflexivity.
    + change (HasSuffix (String d b) (String d b))
        with (String.eqb (String d b) (String d b) || HasSuffix b (String d b)).
      by rewrite String.eqb_refl.
  - change (HasSuffix (String c a +:+ b) b)
      with (String.eqb (String c (a +:+ b)) b || HasSuffix (a +:+ b) b).
    rewrite IH. apply orb_true_r.
Qed.

Lemma TrimSuffix_append a b : api_linux.TrimSuffix (a +:+ b) b = a.
Proof.
  unfold api_linux.TrimSuffix. rewrite HasSuffix_append, string_length_append.
  replace (String.length a + String.length b - String.length b)%nat
    with (String.length a) by lia.
  apply substring_append_l.
Qed.

Lemma TrimSuffix_empty a : api_linux.TrimSuffix a "" = a.
Proof.
  pose proof (TrimSuffix_append a "") as H.
  assert (Ha : a +:+ "" = a).
  { clear H. induction a as [|c a IH]; [done|].
    change (String c a +:+ "") with (String c (a +:+ "")). by rewrite IH. }
  by rewrite Ha in H.
Qed.

Lemma HasSuffix_list s suffix :
  HasSuffix s suffix = true →
  ∃ l, list_ascii_of_string s = l ++ list_ascii_of_string suffix.
Proof.
  induction s as [|c s IH]; cbn [HasSuffix]; intros H.
  - rewrite orb_false_r in H. apply String.eqb_eq in H as <-. by exists [].
  - apply orb_true_iff in H as [H|H].
    + apply String.eqb_eq in H as <-. by exists [].
    + destruct (IH H) as [l Hl]. exists (c :: l). cbn. by rewrite Hl.
Qed.

Lemma dir_prefix_rev pre :
  dir_prefix pre = true →
  rev (list_ascii_of_string pre) = []
  ∨ ∃ l, rev (list_ascii_of_string pre) = "/"%char :: l.
Proof.
  unfold dir_prefix. intros H. apply orb_true_iff in H as [H|H].
  - apply String.eqb_eq in H as ->. by left.
  - right. destruct (HasSuffix_list pre "/" H) as [l Hl]. rewrite Hl, rev_app_distr.
    by eexists.
Qed.

Lemma lastElement_segment e rest :
  forallb (λ x, negb (Ascii.eqb x "/")) e = true →
  rest = [] ∨ (∃ l, rest = "/"%char :: l) →
  filepath.lastElement (e ++ rest) = e.
Proof.
  intros He Hrest. induction e as [|c e IH]; cbn [app filepath.lastElement].
  - destruct Hrest as [->|[l ->]]; [done|]. cbn. done.
  - cbn [forallb] in He. apply andb_true_iff in He as [Hc He].
    unfold filepath.IsPathSeparator. apply negb_true_iff in Hc. rewrite Hc.
    by rewrite IH.
Qed.

Lemma dropSeparators_segment c e :
  Ascii.eqb c "/" = false → filepath.dropSeparators (c :: e) = c :: e.
Proof. intros H. cbn. unfold filepath.IsPathSeparator. by rewrite H. Qed.

Lemma forallb_rev {A} (f : A → bool) l : forallb f (rev l) = forallb f l.
Proof.
  induction l as [|x l IH]; cbn [rev forallb]; [done|].
  rewrite forallb_app, IH. cbn. rewrite andb_true_r. apply andb_comm.
Qed.

(** [Base] of a directory prefix followed by a non-empty element. *)
Lemma Base_element pre elem :
  dir_prefix pre = true → elem ≠ "" → lacks "/" elem = true →
  filepath.Base (pre +:+ elem) = elem.
Proof.
  intros Hpre Hne Hl. unfold filepath.Base.
  destruct (String.eqb_spec (pre +:+ elem) "") as [He|_].
  { destruct pre; cbn in He; [done|discriminate]. }
  cbv zeta. rewrite list_ascii_append, rev_app_distr.
  unfold lacks in Hl. rewrite <- forallb_rev in Hl.
  destruct (rev (list_ascii_of_string elem)) as [|c e] eqn:Hrev.
  { apply (f_equal (@rev ascii)) in Hrev. rewrite rev_involutive in Hrev. cbn in Hrev.
    destruct elem; [done|discriminate]. }
  pose proof Hl as Hl'. cbn [forallb] in Hl'. apply andb_true_iff in Hl' as [Hc _].
  apply negb_true_iff in Hc. cbn [app]. rewrite dropSeparators_segment by done.
  change (c :: e ++ rev (list_ascii_of_string pre))
    with ((c :: e) ++ rev (list_ascii_of_string pre)).
  rewrite lastElement_segment by (try done; by apply dir_prefix_rev).
  rewrite <- Hrev, rev_involutive.
  destruct (list_ascii_of_string elem) eqn:Hel.
  { destruct elem; [done|discriminate]. }
  rewrite <- Hel. apply string_of_list_ascii_of_string.
Qed.

Lemma extFrom_dot l rest after :
  forallb (λ x, negb (Ascii.eqb x "/")) l = true →
  forallb (λ x, negb (Ascii.eqb x ".")) l = true →
  filepath.extFrom (l ++ "."%char :: rest) after = "."%char :: rev l ++ after.
Proof.
  revert after. induction l as [|c l IH]; intros after Hs Hd; cbn [app filepath.extFrom].
  - done.
  - cbn [forallb] in Hs, Hd. apply andb_true_iff in Hs as [Hc Hs].
    apply andb_true_iff in Hd as [Hc' Hd]. apply negb_true_iff in Hc, Hc'.
    unfold filepath.IsPathSeparator. rewrite Hc, Hc'. rewrite IH by done.
    cbn [rev]. by rewrite <- app_assoc.
Qed.

Lemma extFrom_none l rest after :
  forallb (λ x, negb (Ascii.eqb x ".")) l = true →
  rest = [] ∨ (∃ r, rest = "/"%char :: r) →
  filepath.extFrom (l ++ rest) after = [].
Proof.
  revert after. induction l as [|c l IH]; intros after Hd Hrest; cbn [app filepath.extFrom].
  - by destruct Hrest as [->|[r ->]].
  - cbn [forallb] in Hd. apply andb_true_iff in Hd as [Hc Hd]. apply negb_true_iff in Hc.
    rewrite Hc. destruct (filepath.IsPathSeparator c); [done|]. by apply IH.
Qed.

Lemma lacks_append c a b : lacks c (a +:+ b) = lacks c a && lacks c b.
Proof. unfold lacks. by rewrite list_ascii_append, forallb_app. Qed.

(** X16. [getAppDetails] on Linux returns an empty publisher and, as
    name, the last element of the path without its extension: for a path
    made of a directory prefix, a stem and an extension after the last dot
    the name is the stem (empty for a dot-file); an element without a dot is
    returned whole. *)
Theorem getAppDetails_name :
  (∀ pre stem ext,
     dir_prefix pre = true → lacks "/" stem = true →
     lacks "/" ext = true → lacks "." ext = true →
     api_linux.getAppDetails (pre +:+ stem +:+ "." +:+ ext) = (stem, ""))
  ∧ (∀ pre elem,
       dir_prefix pre = true → elem ≠ "" →
       lacks "/" elem = true → lacks "." elem = true →
       api_linux.getAppDetails (pre +:+ elem) = (elem, "")).
Proof.
  split.
  - intros pre stem ext Hpre Hs He Hd. unfold api_linux.getAppDetails. cbv zeta.
    rewrite (Base_element pre (stem +:+ "." +:+ ext)); [|done| |].
    + assert (Hext : filepath.Ext (pre +:+ stem +:+ "." +:+ ext) = "." +:+ ext).
      { unfold filepath.Ext. rewrite !list_ascii_append, !rev_app_distr.
        cbn [list_ascii_of_string rev app]. rewrite <- !app_assoc. cbn [app].
        unfold lacks in He, Hd. rewrite extFrom_dot by by rewrite forallb_rev.
        rewrite rev_involutive, app_nil_r. cbn [string_of_list_ascii].
        by rewrite string_of_list_ascii_of_string. }
      rewrite Hext. by rewrite TrimSuffix_append.
    + destruct stem; discriminate.
    + rewrite !lacks_append, Hs, He. done.
  - intros pre elem Hpre Hne Hs Hd. unfold api_linux.getAppDetails. cbv zeta.
    rewrite (Base_element pre elem) by done.
    assert (Hext : filepath.Ext (pre +:+ elem) = "").
    { unfold filepath.Ext. rewrite list_ascii_append, rev_app_distr.
      unfold lacks in Hd. rewrite extFrom_none; [done|by rewrite forallb_rev|].
      by apply dir_prefix_rev. }
    rewrite Hext. by rewrite TrimSuffix_empty.
Qed.

Lemma getAppDetails_name_witness :
  api_linux.getAppDetails ("/opt/My.App/" +:+ "launcher.bin" +:+ "." +:+ "sh")
  = ("launcher.bin", "")
  ∧ api_linux.getAppDetails ("/home/user/" +:+ "" +:+ "." +:+ "bashrc") = ("", "")
  ∧ api_linux.getAppDetails ("/usr/bin/" +:+ "firefox") = ("firefox", "").
Proof.
  destruct getAppDetails_name as [H1 H2]. split_and!.
  - apply H1; vm_compute; reflexivity.
  - apply H1; vm_compute; reflexivity.
  - apply H2; [vm_compute; reflexivity|discriminate|vm_compute; reflexivity..].
Defined.

(** * Identifier reuse and the origin of inserts *)

Lemma unnoticed_refl pid n m :
  runningProcs (state m) !! pid = Some n → unnoticed pid n m m.
Proof. intros H. split; [done|]. exists []. split; [by rewrite app_nil_r|constructor]. Qed.

Lemma unnoticed_trans pid n m m' m'' :
  unnoticed pid n m m' → unnoticed pid n m' m'' → unnoticed pid n m m''.
Proof.
  intros [_ (ws & Hw & Hall)] [Hl (ws' & Hw' & Hall')]. split; [done|].
  exists (ws ++ ws'). split; [by rewrite Hw', Hw, app_assoc|by apply Forall_app].
Qed.

Lemma endProcess_unnoticed pid n now cur m e :
  member cur pid = true →
  runningProcs (state m) !! pid = Some n →
  unnoticed pid n m (endProcess now cur m e).
Proof.
  intros Hc Hl. destruct e as [i name]. destruct (member cur i) eqn:Hi.
  { rewrite endProcess_present by done. by apply unnoticed_refl. }
  assert (i ≠ pid) by congruence.
  rewrite endProcess_gone by done. split; cbn [mkMonitor state runningProcs writeCh].
  - by rewrite lookup_delete_ne.
  - eexists. split; [done|]. constructor; [|constructor].
    rewrite mentions_updateEnd. by apply bool_decide_eq_false_2.
Qed.

Lemma newProcess_unnoticed pid n F now os m p :
  runningProcs (state m) !! pid = Some n →
  unnoticed pid n m (newProcess F now os m p).
Proof.
  intros Hl.
  destruct (newProcess_view F now os m p) as [|name exe Hp|name exe Hp|name exe Hp].
  - by apply unnoticed_refl.
  - split; cbn [mkMonitor state runningProcs writeCh].
    + rewrite lookup_insert_ne; [done|congruence].
    + exists []. split; [by rewrite app_nil_r|constructor].
  - split; cbn [mkMonitor state runningProcs writeCh].
    + rewrite lookup_insert_ne; [done|congruence].
    + exists []. split; [by rewrite app_nil_r|constructor].
  - split; cbn [mkMonitor state runningProcs writeCh].
    + rewrite lookup_insert_ne; [done|congruence].
    + eexists. split; [done|]. constructor; [|constructor].
      rewrite mentions_insertEvent. apply bool_decide_eq_false_2. congruence.
Qed.

Lemma fold_unnoticed {A} (f : Monitor → A → Monitor) pid n l :
  (∀ m x, runningProcs (state m) !! pid = Some n → unnoticed pid n m (f m x)) →
  ∀ m, runningProcs (state m) !! pid = Some n → unnoticed pid n m (foldl f m l).
Proof.
  intros Hstep. induction l as [|x l IH]; intros m H; cbn [foldl].
  - by apply unnoticed_refl.
  - pose proof (Hstep m x H) as Hs. eapply unnoticed_trans; [exact Hs|].
    apply IH. by destruct Hs.
Qed.

(** X17. Reuse of an identifier between two ticks goes unnoticed: for an
    identifier that is in the ledger and in the snapshot, the tick leaves the
    entry as it is and sends no request for it, whatever the process that
    now has the identifier looks like. *)
Theorem reused_identifier_unnoticed F now os procs m pid n :
  runningProcs (state m) !! pid = Some n →
  pid ∈ snapshotPids procs →
  runningProcs (state (onTick F now os (Some procs) m)) !! pid = Some n
  ∧ ∃ ws, writeCh (onTick F now os (Some procs) m) = writeCh m ++ ws
          ∧ no_write_for pid ws.
Proof.
  intros Hl Hin. apply member_currentPidsOf in Hin. cbn [onTick].
  assert (H1 : unnoticed pid n m (logEndedProcesses now (currentPidsOf procs) m)).
  { unfold logEndedProcesses, endedIn. apply fold_unnoticed; [|done].
    intros m' e. by apply endProcess_unnoticed. }
  eapply unnoticed_trans; [exact H1|]. unfold logNewProcesses.
  apply fold_unnoticed; [|by destruct H1]. intros m' p. apply newProcess_unnoticed.
Qed.

Lemma reused_identifier_unnoticed_witness :
  runningProcs (state (onTick rules_windows.rules 8 desktop
                         (Some [userProcess 10 "browser.exe"])
                         (mkMonitor {[10 := "editor.exe"]} {["editor.exe" := 1]} []))) !! 10
  = Some "editor.exe"
  ∧ ∃ ws, writeCh (onTick rules_windows.rules 8 desktop
                     (Some [userProcess 10 "browser.exe"])
                     (mkMonitor {[10 := "editor.exe"]} {["editor.exe" := 1]} []))
          = [] ++ ws
          ∧ no_write_for 10 ws.
Proof.
  apply (reused_identifier_unnoticed rules_windows.rules 8 desktop
           [userProcess 10 "browser.exe"]
           (mkMonitor {[10 := "editor.exe"]} {["editor.exe" := 1]} []) 10 "editor.exe").
  - reflexivity.
  - apply elem_of_cons. by left.
Defined.

Lemma justified_more F events events' w :
  justified F events w → justified F (events ++ events') w.
Proof.
  intros H Hi. destruct (H Hi) as (now & os & procs & p & Hin & Hp & Hq & ->).
  exists now, os, procs, p. split_and!; try done. apply elem_of_app. by left.
Qed.

Lemma justified_update F events now pid : justified F events (updateEnd now pid).
Proof. intros H. by rewrite is_insert_updateEnd in H. Qed.

Lemma loop_justified F events : ∀ seen m,
  Forall (justified F seen) (writeCh m) →
  Forall (justified F (seen ++ events)) (writeCh (loop F m events)).
Proof.
  unfold loop. induction events as [|e events IH]; intros seen m H; cbn [foldl].
  - by rewrite app_nil_r.
  - replace (seen ++ e :: events) with ((seen ++ [e]) ++ events)
      by by rewrite <- app_assoc.
    apply IH. destruct e as [now os [procs|]|]; cbn [handle onTick onReset writeCh].
    + destruct (logNewProcesses_writeCh F now os procs
                  (logEndedProcesses now (currentPidsOf procs) m)) as (starts & -> & Hs).
      unfold logEndedProcesses. rewrite endedIn_writeCh. apply Forall_app. split.
      * apply Forall_app. split.
        -- eapply Forall_impl; [exact H|]. intros w. apply justified_more.
        -- unfold endWrites. apply Forall_map, Forall_forall. intros x _.
           apply justified_update.
      * eapply Forall_impl; [exact Hs|]. intros w (p & Hp & Hq & ->) _.
        exists now, os, procs, p. split_and!; try done.
        apply elem_of_app. right. apply elem_of_cons. by left.
    + eapply Forall_impl; [exact H|]. intros w. apply justified_more.
    + eapply Forall_impl; [exact H|]. intros w. apply justified_more.
Qed.

(** X18. No insert without classification: every insert in the queue of a
    run is the insert of a process that some tick of the run observed and
    that passed classification under the OS answers of that tick (name and
    path readable, not excluded, trackable), stamped with the clock of that
    tick. *)
Theorem every_insert_is_justified F PidExists now rows events :
  Forall (justified F events)
    (writeCh (StartProcessEventLogger F PidExists now rows events)).
Proof.
  unfold StartProcessEventLogger.
  apply (loop_justified F events []).
  destruct rows as [rows|]; cbn [initializeRunningProcs]; [|constructor].
  apply (foldl_invariant (λ m, Forall (justified F []) (writeCh m))); [|constructor].
  intros a [[pid name]|] Ha; unfold seedRow; [|done].
  destruct (PidExists pid); cbn [writeCh]; [done|].
  rewrite EnqueueWrite_updateEnd. apply Forall_app. split; [done|].
  constructor; [apply justified_update|constructor].
Qed.
